(** * picker2: the rate-governed request scheduler and the prediction engine

    A shallow embedding of
      - src/services/OpenWeatherAPI.ts   (scheduler, forecast lookup, weather impact)
      - src/services/MySportsFeedsAPI.ts (the same scheduler with another quota)
      - src/services/PredictionEngine.ts (metric calculators and the engine)
    followed by the properties of these functions.

    Asynchrony.  An [async] function returns a promise ([JS.promise]); an
    [await] is a point where the caller is suspended.  The scheduler is a
    transition system whose steps are the synchronous stretches between
    such points; the engine is a function of what its awaited collaborators
    answer.

    Numbers.  A JavaScript number is modelled by [JS.num]: a finite value
    carried as an exact rational, the two infinities and NaN.  Binary64
    rounding of finite values is abstracted (finite arithmetic is exact) and
    the sign of zero is not tracked (zero behaves as +0); NaN and the
    infinities propagate as in IEEE 754, which is what the guards of the
    source are about. *)

From Stdlib Require Import ZArith QArith Qround Qabs List String Ascii Bool Lia Lqa.
Import ListNotations.

Local Open Scope Z_scope.

(* ================================================================== *)
(** ** JavaScript numbers *)
(* ================================================================== *)

Module JS.

Inductive num : Type :=
| Fin (q : Q)
| PInf
| NInf
| NaN.

Definition of_Z (z : Z) : num := Fin (inject_Z z).

Definition neg (x : num) : num :=
  match x with
  | Fin q => Fin (- q)
  | PInf => NInf
  | NInf => PInf
  | NaN => NaN
  end.

Definition add (x y : num) : num :=
  match x, y with
  | NaN, _ | _, NaN => NaN
  | Fin p, Fin q => Fin (p + q)
  | PInf, NInf | NInf, PInf => NaN
  | PInf, _ | _, PInf => PInf
  | NInf, _ | _, NInf => NInf
  end.

Definition sub (x y : num) : num := add x (neg y).

(** An infinity of sign [pos] times the finite [q]. *)
Definition mul_inf (pos : bool) (q : Q) : num :=
  match Qnum q with
  | Z0 => NaN
  | Zpos _ => if pos then PInf else NInf
  | Zneg _ => if pos then NInf else PInf
  end.

Definition mul (x y : num) : num :=
  match x, y with
  | NaN, _ | _, NaN => NaN
  | Fin p, Fin q => Fin (p * q)
  | PInf, PInf | NInf, NInf => PInf
  | PInf, NInf | NInf, PInf => NInf
  | PInf, Fin q | Fin q, PInf => mul_inf true q
  | NInf, Fin q | Fin q, NInf => mul_inf false q
  end.

(** An infinity of sign [pos] divided by the finite [q]. *)
Definition inf_div (pos : bool) (q : Q) : num :=
  match Qnum q with
  | Zneg _ => if pos then NInf else PInf
  | _ => if pos then PInf else NInf
  end.

Definition div (x y : num) : num :=
  match x, y with
  | NaN, _ | _, NaN => NaN
  | Fin p, Fin q =>
      if Qeq_bool q 0
      then match Qnum p with
           | Z0 => NaN
           | Zpos _ => PInf
           | Zneg _ => NInf
           end
      else Fin (p / q)
  | Fin _, PInf | Fin _, NInf => Fin 0
  | PInf, Fin q => inf_div true q
  | NInf, Fin q => inf_div false q
  | _, _ => NaN
  end.

(** [Math.round]: the nearest integer, halves towards +Infinity. *)
Definition round (x : num) : num :=
  match x with
  | Fin q => of_Z (Qfloor (q + (1 # 2)))
  | _ => x
  end.

(** [Math.abs] *)
Definition abs (x : num) : num :=
  match x with
  | Fin q => Fin (Qabs q)
  | PInf | NInf => PInf
  | NaN => NaN
  end.

(** [x < y] *)
Definition ltb (x y : num) : bool :=
  match x, y with
  | NaN, _ | _, NaN => false
  | Fin p, Fin q => negb (Qle_bool q p)
  | _, NInf => false
  | PInf, _ => false
  | NInf, _ => true
  | Fin _, PInf => true
  end.

(** [x <= y] *)
Definition leb (x y : num) : bool :=
  match x, y with
  | NaN, _ | _, NaN => false
  | Fin p, Fin q => Qle_bool p q
  | NInf, _ => true
  | _, PInf => true
  | _, _ => false
  end.

(** [x > y] and [x >= y] *)
Definition gtb (x y : num) : bool := ltb y x.
Definition geb (x y : num) : bool := leb y x.

(** [x === y] on numbers *)
Definition eqb (x y : num) : bool :=
  match x, y with
  | Fin p, Fin q => Qeq_bool p q
  | PInf, PInf | NInf, NInf => true
  | _, _ => false
  end.

(** [Math.max(x, y)] and [Math.min(x, y)] *)
Definition max (x y : num) : num :=
  match x, y with
  | NaN, _ | _, NaN => NaN
  | _, _ => if ltb x y then y else x
  end.

Definition min (x y : num) : num :=
  match x, y with
  | NaN, _ | _, NaN => NaN
  | _, _ => if ltb y x then y else x
  end.

(** Truthiness of a number: 0 and NaN are falsy. *)
Definition truthy (x : num) : bool :=
  match x with
  | Fin q => negb (Qeq_bool q 0)
  | PInf | NInf => true
  | NaN => false
  end.

(** The settled state of a promise returned by an [async] function. *)
Inductive promise (A : Type) : Type :=
| Resolved (a : A).
Arguments Resolved {A} a.

(** A value held by a variable that the source types as [number].  The
    asynchronous [getWeatherImpact] hands back a promise, which the engine
    stores in [weatherImpact] without awaiting it. *)
Inductive value : Type :=
| VNum (n : num)
| VPromise (p : promise num).

(** ToNumber: a promise converts through the string "[object Promise]",
    which is not numeric. *)
Definition to_number (v : value) : num :=
  match v with
  | VNum n => n
  | VPromise _ => NaN
  end.

(** [ToNumber(a + b)]: with a promise operand [+] concatenates strings and
    the result is not numeric. *)
Definition plus_to_number (a b : value) : num :=
  match a, b with
  | VNum x, VNum y => add x y
  | _, _ => NaN
  end.

(** [a > b]: two promises compare as equal strings; a promise against a
    number compares NaN. *)
Definition value_gtb (a b : value) : bool :=
  match a, b with
  | VNum x, VNum y => gtb x y
  | _, _ => false
  end.

(** How a call ends: it returns, or it throws [Error(message)]. *)
Inductive outcome (A : Type) : Type :=
| Returned (a : A)
| Thrown (message : string).
Arguments Returned {A} a.
Arguments Thrown {A} message.

(** The property names that every object literal inherits from
    [Object.prototype].  Reading one of them from a plain object that has
    no entry of that name gives a function, and for [__proto__] the
    prototype itself: a truthy value that is no entry of the object. *)
Definition inheritedNames : list string :=
  ["constructor"; "toString"; "toLocaleString"; "valueOf"; "hasOwnProperty";
   "isPrototypeOf"; "propertyIsEnumerable"; "__proto__"; "__defineGetter__";
   "__defineSetter__"; "__lookupGetter__"; "__lookupSetter__"]%string.

Definition inherited (name : string) : bool :=
  existsb (String.eqb name) inheritedNames.

End JS.

(* ================================================================== *)
(** ** src/services/OpenWeatherAPI.ts: readings, impact score, forecast *)
(* ================================================================== *)

Module Weather.
Import JS.

Record GameWeather : Type := mkGameWeather {
  temperature : num;
  feelsLike : num;
  humidity : num;
  windSpeed : num;
  windDirection : option string;
  conditions : string;
  precipitation : num;
  visibility : num;
  uvIndex : num;
  lastUpdated : string
}.

(** [list.includes(s)] on string literals *)
Definition includes (l : list string) (s : string) : bool :=
  existsb (String.eqb s) l.

Definition badConditions : list string :=
  ["Thunderstorm"; "Snow"; "Sleet"; "Hail"]%string.
Definition moderateConditions : list string :=
  ["Rain"; "Drizzle"; "Mist"; "Fog"]%string.

(** The running [impact] only ever moves by integer constants, so it is
    carried in [Z]. *)
Definition rawWeatherImpact (weather : GameWeather) : Z :=
  let impact := 50 in
  (* temperature *)
  let t := temperature weather in
  let impact :=
    if geb t (Fin 50) && leb t (Fin 70) then impact + 20
    else if geb t (Fin 40) && leb t (Fin 80) then impact + 10
    else if ltb t (Fin 20) || gtb t (Fin 90) then impact - 30
    else if ltb t (Fin 30) || gtb t (Fin 85) then impact - 15
    else impact in
  (* wind *)
  let w := windSpeed weather in
  let impact :=
    if ltb w (Fin 10) then impact + 15
    else if ltb w (Fin 20) then impact + 5
    else if gtb w (Fin 30) then impact - 25
    else if gtb w (Fin 20) then impact - 10
    else impact in
  (* precipitation *)
  let p := precipitation weather in
  let impact :=
    if eqb p (Fin 0) then impact + 15
    else if ltb p (Fin 0.1) then impact + 5
    else if gtb p (Fin 0.5) then impact - 20
    else if gtb p (Fin 0.1) then impact - 10
    else impact in
  (* visibility *)
  let v := visibility weather in
  let impact :=
    if geb v (Fin 10) then impact + 10
    else if ltb v (Fin 5) then impact - 15
    else impact in
  (* conditions *)
  let c := conditions weather in
  let impact :=
    if includes badConditions c then impact - 25
    else if includes moderateConditions c then impact - 10
    else if String.eqb c "Clear" then impact + 10
    else impact in
  impact.

(** [getWeatherImpact] is declared [async]: it returns a promise of the
    clamped score. *)
Definition getWeatherImpact (weather : GameWeather) : promise num :=
  Resolved (of_Z (Z.max 0 (Z.min 100 (rawWeatherImpact weather)))).

Definition directions : list string :=
  ["N"; "NNE"; "NE"; "ENE"; "E"; "ESE"; "SE"; "SSE";
   "S"; "SSW"; "SW"; "WSW"; "W"; "WNW"; "NW"; "NNW"]%string.

(** [directions[Math.round(degrees / 22.5) % 16]]; [None] is [undefined].
    The quotient is taken exactly.  The source divides in binary64, where
    the quotient is rounded: for whole degrees of a magnitude up to two
    million no quotient is near enough to a half for that to change the
    rounded index; for much larger magnitudes it can. *)
Definition getWindDirection (degrees : num) : option string :=
  match round (div degrees (Fin 22.5)) with
  | Fin q =>
      let index := Z.rem (Qfloor q) 16 in
      if index <? 0 then None else nth_error directions (Z.to_nat index)
  | _ => None
  end.

(** One entry of [response.data.list] of the /forecast endpoint, with the
    fields the client reads. *)
Record ForecastPoint : Type := mkForecastPoint {
  dt : Z;
  main_temp : num;
  main_feels_like : num;
  main_humidity : num;
  wind_speed : num;
  wind_deg : num;
  weather0_main : option string;
  rain_3h : option num;
  snow_3h : option num;
  fc_visibility : num
}.

(** [new Date(ms).getTime()]: the time value, NaN outside the Date range. *)
Definition date_getTime (ms : Z) : num :=
  if Z.abs ms <=? 8640000000000000 then of_Z ms else NaN.

(** [|forecastTime - gameTime|] of one forecast point. *)
Definition forecastDiff (gameTime : num) (forecast : ForecastPoint) : num :=
  let forecastTime := date_getTime (dt forecast * 1000) in
  abs (sub forecastTime gameTime).

(** The [for ... of response.data.list] loop of [getForecast], with its two
    loop variables. *)
Fixpoint closestLoop (gameTime : num) (list_ : list ForecastPoint)
    (closestForecast : option ForecastPoint) (smallestDiff : num)
    : option ForecastPoint :=
  match list_ with
  | [] => closestForecast
  | forecast :: rest =>
      let diff := forecastDiff gameTime forecast in
      if ltb diff smallestDiff
      then closestLoop gameTime rest (Some forecast) diff
      else closestLoop gameTime rest closestForecast smallestDiff
  end.

Definition closestForecastOf (gameTime : num) (list_ : list ForecastPoint)
    : option ForecastPoint :=
  closestLoop gameTime list_ None PInf.

(** [a || b] on optional numbers ([None] is [undefined]). *)
Definition or_num (a : option num) (b : num) : num :=
  match a with
  | Some x => if truthy x then x else b
  | None => b
  end.

Definition toGameWeather (nowIso : string) (f : ForecastPoint) : GameWeather :=
  {| temperature := main_temp f;
     feelsLike := main_feels_like f;
     humidity := main_humidity f;
     windSpeed := wind_speed f;
     windDirection := getWindDirection (wind_deg f);
     conditions :=
       match weather0_main f with
       | Some s => if String.eqb s "" then "Unknown"%string else s
       | None => "Unknown"%string
       end;
     precipitation := or_num (rain_3h f) (or_num (snow_3h f) (Fin 0));
     visibility := div (fc_visibility f) (Fin 1000);
     uvIndex := Fin 0;
     lastUpdated := nowIso |}.

(** config.stadiumCoordinates *)
Definition stadiumCoordinates : list (string * (Q * Q)) :=
  [
    ("ATL"%string, (33.7553, (-84.4006)));
    ("BAL"%string, (39.2783, (-76.6222)));
    ("BUF"%string, (42.7737, (-78.7870)));
    ("CAR"%string, (35.2253, (-80.8431)));
    ("CHI"%string, (41.9484, (-87.6553)));
    ("CIN"%string, (39.0955, (-84.5160)));
    ("CLE"%string, (41.5061, (-81.6996)));
    ("DAL"%string, (32.7478, (-97.0928)));
    ("DEN"%string, (39.7439, (-105.0200)));
    ("DET"%string, (42.3400, (-83.0456)));
    ("GB"%string, (44.5013, (-88.0622)));
    ("HOU"%string, (29.6847, (-95.4107)));
    ("IND"%string, (39.7601, (-86.1639)));
    ("JAX"%string, (30.3239, (-81.6377)));
    ("KC"%string, (39.0997, (-94.5786)));
    ("LAC"%string, (33.9533, (-118.3388)));
    ("LAR"%string, (33.9533, (-118.3388)));
    ("LV"%string, (36.0908, (-115.1807)));
    ("MIA"%string, (25.9580, (-80.2389)));
    ("MIN"%string, (44.9740, (-93.2583)));
    ("NE"%string, (42.0909, (-71.2643)));
    ("NO"%string, (29.9508, (-90.0811)));
    ("NYG"%string, (40.8128, (-74.0741)));
    ("NYJ"%string, (40.8128, (-74.0741)));
    ("PHI"%string, (39.9010, (-75.1675)));
    ("PIT"%string, (40.4468, (-79.9758)));
    ("SEA"%string, (47.5952, (-122.3316)));
    ("SF"%string, (37.4033, (-121.9694)));
    ("TB"%string, (27.9759, (-82.5033)));
    ("TEN"%string, (36.1664, (-86.7714)));
    ("WAS"%string, (38.9076, (-77.0172)))
  ]%Q.

(** The entry of the table under a name. *)
Definition lookupCoordinates (teamAbbreviation : string) : option (Q * Q) :=
  option_map snd
    (find (fun entry => String.eqb (fst entry) teamAbbreviation) stadiumCoordinates).

(** [config.stadiumCoordinates[teamAbbreviation]]: what indexing the object
    literal gives. *)
Inductive coordinates : Type :=
| Stadium (lat lon : Q)  (* an entry of the table *)
| Unplaced               (* an inherited value: truthy, without lat and lon *)
| NoCoordinates.         (* undefined *)

Definition coordinatesOf (teamAbbreviation : string) : coordinates :=
  match lookupCoordinates teamAbbreviation with
  | Some (lat, lon) => Stadium lat lon
  | None => if inherited teamAbbreviation then Unplaced else NoCoordinates
  end.

(** What [client.get('/forecast', ...)] ends with: a failure, or a body whose
    [data.list] is present or not. *)
Inductive response : Type :=
| HttpFailure (message : string)
| HttpData (list_ : option (list ForecastPoint)).

(** A client method either answers at once or issues one request through
    the scheduler and continues with its response; [FetchUnplaced] is a
    request whose [lat] and [lon] are undefined. *)
Inductive call (A : Type) : Type :=
| Done (a : A)
| Fetch (path : string) (lat lon : Q) (k : response -> outcome A)
| FetchUnplaced (path : string) (k : response -> outcome A).
Arguments Done {A} a.
Arguments Fetch {A} path lat lon k.
Arguments FetchUnplaced {A} path k.

(** The body of the request closure of [getForecast]. *)
Definition forecastOfResponse (nowIso : string) (gameTime : num) (r : response)
    : outcome (option GameWeather) :=
  match r with
  | HttpFailure message => Thrown message
  | HttpData None => Returned None
  | HttpData (Some list_) =>
      match closestForecastOf gameTime list_ with
      | Some closestForecast => Returned (Some (toGameWeather nowIso closestForecast))
      | None => Returned None
      end
  end.

(** [gameTime] is [new Date(gameDate).getTime()] (NaN for an unparsable
    date), [now] the clock reading and [nowIso] its ISO rendering. *)
Definition getForecast (teamAbbreviation : string) (gameTime : num) (now : Z)
    (nowIso : string) : call (option GameWeather) :=
  match coordinatesOf teamAbbreviation with
  | NoCoordinates => Done None
  | Stadium lat lon =>
      let hoursUntilGame :=
        div (sub gameTime (of_Z now)) (of_Z (1000 * 60 * 60)) in
      if gtb hoursUntilGame (Fin 120) then Done None
      else Fetch "/forecast" lat lon (forecastOfResponse nowIso gameTime)
  | Unplaced =>
      let hoursUntilGame :=
        div (sub gameTime (of_Z now)) (of_Z (1000 * 60 * 60)) in
      if gtb hoursUntilGame (Fin 120) then Done None
      else FetchUnplaced "/forecast" (forecastOfResponse nowIso gameTime)
  end.

End Weather.

(* ================================================================== *)
(** ** src/services/PredictionEngine.ts *)
(* ================================================================== *)

Module Engine.
Import JS Weather.

(** The records of src/types, with the fields the engine reads. *)
Record NFLTeam : Type := mkTeam {
  team_id : string;
  team_name : string;
  abbreviation : string
}.

Record NFLGame : Type := mkGame {
  game_id : string;
  week : Z;
  year : Z;
  awayTeamId : string;
  homeTeamId : string;
  gameDate : string
}.

Record TeamStats : Type := mkStats {
  stats_teamId : string;
  gamesPlayed : num;
  wins : num;
  pointsFor : num;
  pointsAgainst : num;
  totalYards : num;
  totalYardsAllowed : num;
  takeaways : num;
  sacks : num;
  thirdDownPercentage : num;
  thirdDownPercentageAllowed : num;
  redZonePercentage : num;
  redZonePercentageAllowed : num
}.

(** [position] is read by the engine although the declared interface has no
    such field; [None] is the absent field ([undefined]). *)
Record PlayerInjury : Type := mkInjury {
  injury_teamId : string;
  position : option string;
  status : string
}.

Record PredictionMetrics : Type := mkMetrics {
  teamStrength : num;
  offensivePower : num;
  defensivePower : num;
  injuryImpact : num;
  weatherImpact : value;
  scheduleStrength : num;
  homeFieldAdvantage : num;
  restAdvantage : num;
  momentum : num;
  overall : num
}.

Inductive confidence : Type := high | medium | low.
Inductive recommendation : Type := away | home | none.

(** config.predictionModel.homeFieldAdvantage *)
Definition config_homeFieldAdvantage : num := Fin 0.03.

Definition calculateTeamStrength (stats : option TeamStats) : num :=
  match stats with
  | None => Fin 50
  | Some stats =>
      let winPercentage :=
        if gtb (gamesPlayed stats) (Fin 0)
        then mul (div (wins stats) (gamesPlayed stats)) (Fin 100)
        else Fin 50 in
      let pointDifferential :=
        if gtb (gamesPlayed stats) (Fin 0)
        then div (sub (pointsFor stats) (pointsAgainst stats)) (gamesPlayed stats)
        else Fin 0 in
      let normalizedPointDiff :=
        max (Fin 0) (min (Fin 100) (add (Fin 50) (mul pointDifferential (Fin 2)))) in
      round (add (mul winPercentage (Fin 0.7)) (mul normalizedPointDiff (Fin 0.3)))
  end.

(** The body of [calculateOffensivePower] after its guard. *)
Definition offensiveBlend (stats : TeamStats) : num :=
  let pointsPerGame := div (pointsFor stats) (gamesPlayed stats) in
  let yardsPerGame := div (totalYards stats) (gamesPlayed stats) in
  let normalizedPoints := min (Fin 100) (mul (div pointsPerGame (Fin 30)) (Fin 100)) in
  let normalizedYards := min (Fin 100) (mul (div yardsPerGame (Fin 400)) (Fin 100)) in
  let normalizedThirdDown := thirdDownPercentage stats in
  let normalizedRedZone := redZonePercentage stats in
  round
    (add (add (add (mul normalizedPoints (Fin 0.4))
                   (mul normalizedYards (Fin 0.3)))
              (mul normalizedThirdDown (Fin 0.2)))
         (mul normalizedRedZone (Fin 0.1))).

Definition calculateOffensivePower (stats : option TeamStats) : num :=
  match stats with
  | None => Fin 50
  | Some stats =>
      if eqb (gamesPlayed stats) (Fin 0) then Fin 50 else offensiveBlend stats
  end.

(** The body of [calculateDefensivePower] after its guard. *)
Definition defensiveBlend (stats : TeamStats) : num :=
  let pointsAllowedPerGame := div (pointsAgainst stats) (gamesPlayed stats) in
  let yardsAllowedPerGame := div (totalYardsAllowed stats) (gamesPlayed stats) in
  let normalizedPoints :=
    max (Fin 0) (sub (Fin 100) (mul (div pointsAllowedPerGame (Fin 30)) (Fin 100))) in
  let normalizedYards :=
    max (Fin 0) (sub (Fin 100) (mul (div yardsAllowedPerGame (Fin 400)) (Fin 100))) in
  let normalizedThirdDown := sub (Fin 100) (thirdDownPercentageAllowed stats) in
  let normalizedRedZone := sub (Fin 100) (redZonePercentageAllowed stats) in
  let normalizedTakeaways :=
    min (Fin 100) (mul (div (takeaways stats) (gamesPlayed stats)) (Fin 50)) in
  let normalizedSacks :=
    min (Fin 100) (mul (div (sacks stats) (gamesPlayed stats)) (Fin 20)) in
  round
    (add (add (add (add (add (mul normalizedPoints (Fin 0.3))
                             (mul normalizedYards (Fin 0.25)))
                        (mul normalizedThirdDown (Fin 0.2)))
                   (mul normalizedRedZone (Fin 0.15)))
              (mul normalizedTakeaways (Fin 0.05)))
         (mul normalizedSacks (Fin 0.05))).

Definition calculateDefensivePower (stats : option TeamStats) : num :=
  match stats with
  | None => Fin 50
  | Some stats =>
      if eqb (gamesPlayed stats) (Fin 0) then Fin 50 else defensiveBlend stats
  end.

(** [list.includes(injury.position)]: an absent position is in no list. *)
Definition includesPosition (l : list string) (p : option string) : bool :=
  match p with
  | Some s => includes l s
  | None => false
  end.

Definition injuryWeight (injury : PlayerInjury) : Z :=
  if includesPosition ["QB"; "RB"; "WR"; "TE"]%string (position injury) then 3
  else if includesPosition ["DE"; "DT"; "LB"; "CB"; "S"]%string (position injury) then 2
  else 1.

(** The [switch (injury.status)] *)
Definition injuryStatusImpact (injury : PlayerInjury) : Z :=
  let s := status injury in
  if String.eqb s "out" then 0
  else if String.eqb s "doubtful" then 25
  else if String.eqb s "questionable" then 50
  else if String.eqb s "injured-reserve" then 0
  else if String.eqb s "pup" then 0
  else 100.

(** One turn of the [for ... of injuries] loop on the two accumulators
    [(totalImpact, totalWeight)], which stay integers. *)
Definition injuryStep (acc : Z * Z) (injury : PlayerInjury) : Z * Z :=
  let weight := injuryWeight injury in
  let impact := injuryStatusImpact injury in
  (fst acc + impact * weight, snd acc + weight).

Definition calculateInjuryImpact (injuries : list PlayerInjury) : num :=
  if (List.length injuries =? 0)%nat then Fin 100
  else
    let totals := fold_left injuryStep injuries (0, 0) in
    let totalImpact := fst totals in
    let totalWeight := snd totals in
    round (if totalWeight >? 0
           then div (of_Z totalImpact) (of_Z totalWeight)
           else Fin 100).

(** The engine passes on what the asynchronous [getWeatherImpact] returns:
    the promise itself. *)
Definition calculateWeatherImpact (weather : GameWeather) (isHomeTeam : bool)
    : value :=
  VPromise (getWeatherImpact weather).

Definition calculateScheduleStrength (stats : option TeamStats) : num :=
  match stats with
  | None => Fin 50
  | Some _ => calculateTeamStrength stats
  end.

Definition calculateRestAdvantage (stats : option TeamStats) : num :=
  match stats with
  | None => Fin 0
  | Some _ => Fin 0
  end.

Definition calculateMomentum (stats : option TeamStats) : num :=
  match stats with
  | None => Fin 50
  | Some stats =>
      if ltb (gamesPlayed stats) (Fin 3) then Fin 50
      else
        let winPercentage := div (wins stats) (gamesPlayed stats) in
        if geb winPercentage (Fin 0.75) then Fin 90
        else if geb winPercentage (Fin 0.6) then Fin 75
        else if geb winPercentage (Fin 0.4) then Fin 50
        else if geb winPercentage (Fin 0.25) then Fin 25
        else Fin 10
  end.

Definition calculateTeamMetrics (stats : option TeamStats)
    (injuries : list PlayerInjury) (weather : option GameWeather)
    (isHomeTeam : bool) : PredictionMetrics :=
  let teamStrength := calculateTeamStrength stats in
  let offensivePower := calculateOffensivePower stats in
  let defensivePower := calculateDefensivePower stats in
  let injuryImpact := calculateInjuryImpact injuries in
  let weatherImpact :=
    match weather with
    | Some w => calculateWeatherImpact w isHomeTeam
    | None => VNum (Fin 50)
    end in
  let scheduleStrength := calculateScheduleStrength stats in
  let homeFieldAdvantage :=
    if isHomeTeam then mul config_homeFieldAdvantage (Fin 100) else Fin 0 in
  let restAdvantage := calculateRestAdvantage stats in
  let momentum := calculateMomentum stats in
  let overall :=
    add (add (add (add (add (mul teamStrength (Fin 0.25))
                            (mul offensivePower (Fin 0.20)))
                       (mul defensivePower (Fin 0.20)))
                  (mul injuryImpact (Fin 0.15)))
             (mul (to_number weatherImpact) (Fin 0.10)))
        (mul scheduleStrength (Fin 0.10)) in
  {| teamStrength := teamStrength;
     offensivePower := offensivePower;
     defensivePower := defensivePower;
     injuryImpact := injuryImpact;
     weatherImpact := weatherImpact;
     scheduleStrength := scheduleStrength;
     homeFieldAdvantage := homeFieldAdvantage;
     restAdvantage := restAdvantage;
     momentum := momentum;
     overall := round overall |}.

(** [Math.round((a + b) / 2)] *)
Definition roundedMean (a b : num) : num := round (div (add a b) (Fin 2)).

Definition calculateOverallMetrics (awayMetrics homeMetrics : PredictionMetrics)
    : PredictionMetrics :=
  {| teamStrength := roundedMean (teamStrength awayMetrics) (teamStrength homeMetrics);
     offensivePower := roundedMean (offensivePower awayMetrics) (offensivePower homeMetrics);
     defensivePower := roundedMean (defensivePower awayMetrics) (defensivePower homeMetrics);
     injuryImpact := roundedMean (injuryImpact awayMetrics) (injuryImpact homeMetrics);
     weatherImpact :=
       VNum (round (div (plus_to_number (weatherImpact awayMetrics)
                                        (weatherImpact homeMetrics)) (Fin 2)));
     scheduleStrength := roundedMean (scheduleStrength awayMetrics) (scheduleStrength homeMetrics);
     homeFieldAdvantage := homeFieldAdvantage homeMetrics;
     restAdvantage := roundedMean (restAdvantage awayMetrics) (restAdvantage homeMetrics);
     momentum := roundedMean (momentum awayMetrics) (momentum homeMetrics);
     overall := roundedMean (overall awayMetrics) (overall homeMetrics) |}.

(** The two adjusted scores [awayBase] and [homeBase] at the point where
    [calculateWinProbabilities] normalizes them. *)
Definition awayAdjusted (awayMetrics : PredictionMetrics) : num :=
  let awayBase := overall awayMetrics in
  let awayBase := add awayBase (restAdvantage awayMetrics) in
  add awayBase (mul (sub (momentum awayMetrics) (Fin 50)) (Fin 0.1)).

Definition homeAdjusted (homeMetrics : PredictionMetrics) : num :=
  let homeBase := overall homeMetrics in
  let homeBase := add homeBase (homeFieldAdvantage homeMetrics) in
  let homeBase := add homeBase (restAdvantage homeMetrics) in
  add homeBase (mul (sub (momentum homeMetrics) (Fin 50)) (Fin 0.1)).

(** Returns [(awayWinProbability, homeWinProbability)]. *)
Definition calculateWinProbabilities
    (awayMetrics homeMetrics overallMetrics : PredictionMetrics) : num * num :=
  let awayBase := awayAdjusted awayMetrics in
  let homeBase := homeAdjusted homeMetrics in
  let total := add awayBase homeBase in
  let awayWinProbability := round (mul (div awayBase total) (Fin 100)) in
  let homeWinProbability := sub (Fin 100) awayWinProbability in
  (awayWinProbability, homeWinProbability).

(** The difference is taken exactly.  The engine passes whole numbers (a
    rounded probability and its complement to 100), on which the binary64
    subtraction of the source is exact as well; on fractions the rounded
    difference of the source can fall on the other side of a threshold. *)
Definition determineConfidence (awayProbability homeProbability : num)
    : confidence :=
  let probabilityDiff := abs (sub awayProbability homeProbability) in
  if geb probabilityDiff (Fin 25) then high
  else if geb probabilityDiff (Fin 15) then medium
  else low.

Definition determineRecommendation (awayProbability homeProbability : num)
    (c : confidence) : recommendation :=
  match c with
  | low => none
  | _ =>
      if gtb awayProbability homeProbability then away
      else if gtb homeProbability awayProbability then home
      else none
  end.

(** [factors.push(...)] under a condition *)
Definition pushIf (c : bool) (factor : string) (factors : list string)
    : list string :=
  if c then factors ++ [factor] else factors.

(** [if (c1) push f1 else if (c2) push f2] *)
Definition pushEither (c1 : bool) (f1 : string) (c2 : bool) (f2 : string)
    (factors : list string) : list string :=
  if c1 then factors ++ [f1] else pushIf c2 f2 factors.

Definition generateFactors (awayMetrics homeMetrics : PredictionMetrics)
    (weather : option GameWeather) (awayTeam homeTeam : NFLTeam)
    : list string :=
  let a := team_name awayTeam in
  let h := team_name homeTeam in
  let factors := [] in
  let factors :=
    pushEither
      (gtb (teamStrength awayMetrics) (add (teamStrength homeMetrics) (Fin 10)))
      (a ++ " has significantly stronger overall team performance")
      (gtb (teamStrength homeMetrics) (add (teamStrength awayMetrics) (Fin 10)))
      (h ++ " has significantly stronger overall team performance") factors in
  let factors :=
    pushEither
      (gtb (offensivePower awayMetrics) (add (offensivePower homeMetrics) (Fin 15)))
      (a ++ " has superior offensive firepower")
      (gtb (offensivePower homeMetrics) (add (offensivePower awayMetrics) (Fin 15)))
      (h ++ " has superior offensive firepower") factors in
  let factors :=
    pushEither
      (gtb (defensivePower awayMetrics) (add (defensivePower homeMetrics) (Fin 15)))
      (a ++ " has stronger defensive unit")
      (gtb (defensivePower homeMetrics) (add (defensivePower awayMetrics) (Fin 15)))
      (h ++ " has stronger defensive unit") factors in
  let factors :=
    pushEither
      (ltb (injuryImpact awayMetrics) (sub (injuryImpact homeMetrics) (Fin 20)))
      (a ++ " dealing with significant injuries")
      (ltb (injuryImpact homeMetrics) (sub (injuryImpact awayMetrics) (Fin 20)))
      (h ++ " dealing with significant injuries") factors in
  let factors :=
    match weather with
    | Some w =>
        let factors :=
          pushIf (String.eqb (conditions w) "Rain" || String.eqb (conditions w) "Snow")
            ("Weather conditions may favor " ++
             (if value_gtb (weatherImpact homeMetrics) (weatherImpact awayMetrics)
              then h else a)) factors in
        pushIf (gtb (windSpeed w) (Fin 20))
          "High winds may impact passing game" factors
    | None => factors
    end in
  let factors :=
    pushIf (gtb (homeFieldAdvantage homeMetrics) (Fin 0))
      (h ++ " benefits from home field advantage") factors in
  pushEither
    (gtb (momentum awayMetrics) (add (momentum homeMetrics) (Fin 20)))
    (a ++ " has strong momentum coming into this game")
    (gtb (momentum homeMetrics) (add (momentum awayMetrics) (Fin 20)))
    (h ++ " has strong momentum coming into this game") factors.

Record GamePrediction : Type := mkPrediction {
  id : string;
  gameId : string;
  pred_week : Z;
  pred_year : Z;
  pred_awayTeamId : string;
  pred_homeTeamId : string;
  awayWinProbability : num;
  homeWinProbability : num;
  pred_confidence : confidence;
  pred_recommendation : recommendation;
  metrics_awayTeam : PredictionMetrics;
  metrics_homeTeam : PredictionMetrics;
  metrics_overall : PredictionMetrics;
  factors : list string;
  pred_lastUpdated : string;
  modelVersion : string
}.

(** What the engine hands to the logger. *)
Inductive log_entry : Type :=
| PredictionLogged (gameId awayTeamId homeTeamId : string)
    (awayProbability homeProbability : num) (c : confidence)
    (modelVersion : string)
| ErrorLogged (message : string) (error : string).

Definition engineModelVersion : string := "1.0.0".

Section WithWeather.

(** [getGameWeather game abbr]: the reading the engine obtains for the
    host venue (forecast first, then current conditions); it catches its
    own failures and then answers [null]. *)
Variable getGameWeather : NFLGame -> string -> option GameWeather.

(** [new Date().toISOString()] at the time of the run. *)
Variable nowIso : string.

Definition findTeam (teams : list NFLTeam) (teamId : string) : option NFLTeam :=
  find (fun t => String.eqb (team_id t) teamId) teams.

Definition predictGame (game : NFLGame) (teamStats : list TeamStats)
    (injuries : list PlayerInjury) (teams : list NFLTeam)
    : outcome GamePrediction :=
  match findTeam teams (awayTeamId game), findTeam teams (homeTeamId game) with
  | Some awayTeam, Some homeTeam =>
      let awayStats :=
        find (fun s => String.eqb (stats_teamId s) (awayTeamId game)) teamStats in
      let homeStats :=
        find (fun s => String.eqb (stats_teamId s) (homeTeamId game)) teamStats in
      let awayInjuries :=
        filter (fun i => String.eqb (injury_teamId i) (awayTeamId game)) injuries in
      let homeInjuries :=
        filter (fun i => String.eqb (injury_teamId i) (homeTeamId game)) injuries in
      let weather := getGameWeather game (abbreviation homeTeam) in
      let awayMetrics := calculateTeamMetrics awayStats awayInjuries weather false in
      let homeMetrics := calculateTeamMetrics homeStats homeInjuries weather true in
      let overallMetrics := calculateOverallMetrics awayMetrics homeMetrics in
      let probabilities :=
        calculateWinProbabilities awayMetrics homeMetrics overallMetrics in
      let awayWinProbability := fst probabilities in
      let homeWinProbability := snd probabilities in
      let confidence := determineConfidence awayWinProbability homeWinProbability in
      let recommendation :=
        determineRecommendation awayWinProbability homeWinProbability confidence in
      let factors :=
        generateFactors awayMetrics homeMetrics weather awayTeam homeTeam in
      Returned
        {| id := "pred_" ++ game_id game;
           gameId := game_id game;
           pred_week := week game;
           pred_year := year game;
           pred_awayTeamId := awayTeamId game;
           pred_homeTeamId := homeTeamId game;
           awayWinProbability := awayWinProbability;
           homeWinProbability := homeWinProbability;
           pred_confidence := confidence;
           pred_recommendation := recommendation;
           metrics_awayTeam := awayMetrics;
           metrics_homeTeam := homeMetrics;
           metrics_overall := overallMetrics;
           factors := factors;
           pred_lastUpdated := nowIso;
           modelVersion := engineModelVersion |}
  | _, _ => Thrown ("Team not found for game " ++ game_id game)
  end.

(** One turn of the [for ... of games] loop with its [try]/[catch]; the
    state is the [predictions] array and the log written so far. *)
Definition predictionStep (teamStats : list TeamStats)
    (injuries : list PlayerInjury) (teams : list NFLTeam)
    (st : list GamePrediction * list log_entry) (game : NFLGame)
    : list GamePrediction * list log_entry :=
  match predictGame game teamStats injuries teams with
  | Returned prediction =>
      (fst st ++ [prediction],
       snd st ++ [PredictionLogged (game_id game) (awayTeamId game)
                    (homeTeamId game) (awayWinProbability prediction)
                    (homeWinProbability prediction)
                    (pred_confidence prediction) engineModelVersion])
  | Thrown message =>
      (fst st,
       snd st ++ [ErrorLogged
                    ("Failed to generate prediction for game " ++ game_id game)
                    message])
  end.

(** Returns the [predictions] array together with the log. *)
Definition generatePredictions (games : list NFLGame)
    (teamStats : list TeamStats) (injuries : list PlayerInjury)
    (teams : list NFLTeam) : list GamePrediction * list log_entry :=
  fold_left (predictionStep teamStats injuries teams) games ([], []).

End WithWeather.

End Engine.

(* ================================================================== *)
(** ** The request scheduler of OpenWeatherAPI.ts and MySportsFeedsAPI.ts *)
(* ================================================================== *)

(** [rateLimitRequest] and [processQueue] are the same in both clients up to
    the quota ([config.openWeather.rateLimit = 60],
    [config.mySportsFeeds.rateLimit = 100]) and the spacing delay (200 and
    100 ms).  The code is asynchronous: an activation of [processQueue] runs
    until its next [await], is suspended there, and is resumed later by the
    event loop; submissions run in between.  A synchronous stretch of code
    is one step of the model and runs at one instant [now] of [Date.now()]. *)

Module Scheduler.

Definition openWeather_rateLimit : Z := 60.
Definition openWeather_spacing : Z := 200.
Definition mySportsFeeds_rateLimit : Z := 100.
Definition mySportsFeeds_spacing : Z := 100.

Section WithProvider.

(** The queued request closures, opaque to the scheduler. *)
Variable Unit : Type.
Variable rateLimit : Z.
Variable spacing : Z.

(** Where an activation of [processQueue] is suspended. *)
Inductive suspended : Type :=
| AwaitWindow (wakeAt : Z)    (* setTimeout(resolve, waitTime), line 74 *)
| AwaitRequest (request : Unit) (* await request(), line 83 *)
| AwaitSpacing (wakeAt : Z).  (* setTimeout(resolve, spacing), line 86 *)

(** A unit beginning execution: which, when, and the [resetTime] then. *)
Record start : Type := mkStart {
  startedUnit : Unit;
  startedAt : Z;
  windowEnd : Z
}.

Record state : Type := mkState {
  (* the fields of the client *)
  rateLimitQueue : list Unit;
  isProcessingQueue : bool;
  lastRequestTime : Z;
  requestCount : Z;
  resetTime : Z;
  (* the runtime: suspended activations of processQueue, last clock reading *)
  drains : list suspended;
  clock : Z;
  (* the history: units begun and units submitted, oldest first *)
  started : list start;
  submitted : list Unit
}.

(** The constructor, run at time [t0]. *)
Definition init (t0 : Z) : state :=
  {| rateLimitQueue := [];
     isProcessingQueue := false;
     lastRequestTime := 0;
     requestCount := 0;
     resetTime := t0 + 60000;
     drains := [];
     clock := t0;
     started := [];
     submitted := [] |}.

Definition resetWindow (now : Z) (s : state) : state :=
  {| rateLimitQueue := rateLimitQueue s;
     isProcessingQueue := isProcessingQueue s;
     lastRequestTime := lastRequestTime s;
     requestCount := 0;
     resetTime := now + 60000;
     drains := drains s;
     clock := clock s;
     started := started s;
     submitted := submitted s |}.

Definition setProcessing (b : bool) (s : state) : state :=
  {| rateLimitQueue := rateLimitQueue s;
     isProcessingQueue := b;
     lastRequestTime := lastRequestTime s;
     requestCount := requestCount s;
     resetTime := resetTime s;
     drains := drains s;
     clock := clock s;
     started := started s;
     submitted := submitted s |}.

(** Lines 79-83: [shift] the oldest request and begin it.  With nothing to
    shift the loop condition fails next and the activation ends. *)
Definition shiftAndStart (now : Z) (s : state) : state * option suspended :=
  match rateLimitQueue s with
  | [] => (setProcessing false s, None)
  | request :: rest =>
      ({| rateLimitQueue := rest;
          isProcessingQueue := isProcessingQueue s;
          lastRequestTime := now;
          requestCount := requestCount s + 1;
          resetTime := resetTime s;
          drains := drains s;
          clock := clock s;
          started := started s ++ [mkStart request now (resetTime s)];
          submitted := submitted s |},
       Some (AwaitRequest request))
  end.

(** Lines 61-77: the loop condition and the admission check, up to the
    next [await]. *)
Definition loopHead (now : Z) (s : state) : state * option suspended :=
  match rateLimitQueue s with
  | [] => (setProcessing false s, None)
  | _ :: _ =>
      let s := if now >=? resetTime s then resetWindow now s else s in
      if requestCount s >=? rateLimit
      then
        let waitTime := resetTime s - now in
        (s, Some (AwaitWindow (now + waitTime)))
      else shiftAndStart now s
  end.

(** Lines 75-76 after the wait, then the rest of the loop body. *)
Definition afterWindow (now : Z) (s : state) : state * option suspended :=
  shiftAndStart now (resetWindow now s).

(** Lines 55-59: the guard of [processQueue], then the loop. *)
Definition processQueue (now : Z) (s : state) : state * option suspended :=
  if isProcessingQueue s || (List.length (rateLimitQueue s) =? 0)%nat
  then (s, None)
  else loopHead now (setProcessing true s).

Definition spawn (d : option suspended) : list suspended :=
  match d with
  | Some p => [p]
  | None => []
  end.

Definition setRuntime (now : Z) (ds : list suspended) (s : state) : state :=
  {| rateLimitQueue := rateLimitQueue s;
     isProcessingQueue := isProcessingQueue s;
     lastRequestTime := lastRequestTime s;
     requestCount := requestCount s;
     resetTime := resetTime s;
     drains := ds;
     clock := now;
     started := started s;
     submitted := submitted s |}.

(** Lines 39-52: [push] the wrapped request, then call [processQueue]. *)
Definition rateLimitRequest (now : Z) (request : Unit) (s : state) : state :=
  let s :=
    {| rateLimitQueue := rateLimitQueue s ++ [request];
       isProcessingQueue := isProcessingQueue s;
       lastRequestTime := lastRequestTime s;
       requestCount := requestCount s;
       resetTime := resetTime s;
       drains := drains s;
       clock := clock s;
       started := started s;
       submitted := submitted s ++ [request] |} in
  let r := processQueue now s in
  setRuntime now (drains s ++ spawn (snd r)) (fst r).

(** Resuming a suspended activation at time [now]: a timer does not fire
    before its delay has passed. *)
Definition resume (now : Z) (p : suspended) (s : state)
    : option (state * option suspended) :=
  match p with
  | AwaitWindow wakeAt =>
      if wakeAt <=? now then Some (afterWindow now s) else None
  | AwaitRequest _ => Some (s, Some (AwaitSpacing (now + spacing)))
  | AwaitSpacing wakeAt =>
      if wakeAt <=? now then Some (loopHead now s) else None
  end.

Inductive event : Type :=
| Submit (request : Unit)   (* a caller invokes rateLimitRequest *)
| Resume (i : nat).         (* the event loop resumes the i-th activation *)

(** One step at clock reading [now]; [None] when the event cannot happen
    then (the clock does not run backwards). *)
Definition step (now : Z) (e : event) (s : state) : option state :=
  if now <? clock s then None
  else
    match e with
    | Submit request => Some (rateLimitRequest now request s)
    | Resume i =>
        match nth_error (drains s) i with
        | None => None
        | Some p =>
            match resume now p s with
            | None => None
            | Some (s', d) =>
                Some (setRuntime now
                        (firstn i (drains s) ++ spawn d ++ skipn (S i) (drains s))
                        s')
            end
        end
    end.

Fixpoint run (trace : list (Z * event)) (s : state) : option state :=
  match trace with
  | [] => Some s
  | (now, e) :: rest =>
      match step now e s with
      | Some s' => run rest s'
      | None => None
      end
  end.

(** The states the scheduler can be in. *)
Definition reachable (s : state) : Prop :=
  exists t0 trace, run trace (init t0) = Some s.

(** Units begun with their start inside the window [[W - 60000, W)]. *)
Definition inWindow (W : Z) (e : start) : bool :=
  (W - 60000 <=? startedAt e) && (startedAt e <? W).

Definition startsInWindow (W : Z) (s : state) : list start :=
  filter (inWindow W) (started s).

(** The window boundaries the scheduler has used so far. *)
Definition windowEnds (s : state) : list Z :=
  resetTime s :: map windowEnd (started s).

(** Units begun while [resetTime] had the value [W]. *)
Definition startsWithEnd (W : Z) (s : state) : list start :=
  filter (fun e => windowEnd e =? W) (started s).

(** What holds of the counters and of the history at clock reading [now]:
    the counter is within the quota and counts the units of the current
    window, every window has at most the quota, every unit began inside
    the window that was current, and windows do not overlap. *)
Record accounting (now : Z) (s : state) : Prop := mkAccounting {
  acc_count : 0 <= requestCount s <= rateLimit;
  acc_current :
    Z.of_nat (List.length (startsWithEnd (resetTime s) s)) = requestCount s;
  acc_quota :
    forall W, Z.of_nat (List.length (startsWithEnd W s)) <= rateLimit;
  acc_times :
    forall e, In e (started s) ->
      windowEnd e - 60000 <= startedAt e < windowEnd e /\
      startedAt e <= now /\
      (windowEnd e = resetTime s \/ windowEnd e + 60000 <= resetTime s);
  acc_disjoint :
    forall e e', In e (started s) -> In e' (started s) ->
      windowEnd e = windowEnd e' \/
      windowEnd e + 60000 <= windowEnd e' \/
      windowEnd e' + 60000 <= windowEnd e;
  acc_window : resetTime s <= now + 60000
}.

(** The units begun, followed by the units queued, are the units
    submitted, in this order. *)
Definition fifo (s : state) : Prop :=
  map startedUnit (started s) ++ rateLimitQueue s = submitted s.

(** What holds of the activations: none while the flag is down (and then
    nothing is queued), exactly one while it is up; one that waits for the
    window wakes at [resetTime]. *)
Definition control (s : state) : Prop :=
  match drains s with
  | [] => isProcessingQueue s = false /\ rateLimitQueue s = []
  | [p] =>
      isProcessingQueue s = true /\
      match p with
      | AwaitWindow wakeAt => wakeAt = resetTime s
      | _ => True
      end
  | _ :: _ :: _ => False
  end.

(** What an activation leaves behind when its synchronous stretch is over:
    it has ended with the flag down and the queue empty, or it is
    suspended with the flag [b]. *)
Definition leaves (b : bool) (r : state * option suspended) : Prop :=
  match snd r with
  | None => isProcessingQueue (fst r) = false /\ rateLimitQueue (fst r) = []
  | Some p =>
      isProcessingQueue (fst r) = b /\
      match p with
      | AwaitWindow wakeAt => wakeAt = resetTime (fst r)
      | _ => True
      end
  end.

(** The queue as it is once the event has had its [push]. *)
Definition queueWith (e : event) (s : state) : list Unit :=
  match e with
  | Submit request => rateLimitQueue s ++ [request]
  | Resume _ => rateLimitQueue s
  end.

(** Between [before] and [after], at time [now] and with [queue] waiting:
    nothing begins and the queue stays, or the oldest queued unit begins
    and is taken off the queue. *)
Definition takesOldest (now : Z) (queue : list Unit) (before after : state)
    : Prop :=
  (started after = started before /\ rateLimitQueue after = queue) \/
  (exists request rest,
     queue = request :: rest /\
     rateLimitQueue after = rest /\
     started after = started before ++ [mkStart request now (resetTime after)]).

(** The window has room for one more unit at [now]: the counter, taken as
    0 when the window has ended, is below the quota. *)
Definition room (now : Z) (s : state) : bool :=
  (if now >=? resetTime s then 0 else requestCount s) <? rateLimit.

(** The event brings the drain loop to its admission check and past it: a
    submission while the flag is down, or the resumption of the activation
    after its spacing delay, each with room in the window; or the
    resumption of the activation that has waited for the window to end. *)
Definition admits (now : Z) (e : event) (s : state) : Prop :=
  match e with
  | Submit _ => isProcessingQueue s = false /\ room now s = true
  | Resume i =>
      match nth_error (drains s) i with
      | Some (AwaitSpacing wakeAt) => wakeAt <= now /\ room now s = true
      | Some (AwaitWindow wakeAt) => wakeAt <= now
      | _ => False
      end
  end.

(** The earlier of two starts is at least the spacing delay before the
    later. *)
Definition apart (e1 e2 : start) : Prop :=
  startedAt e1 + spacing <= startedAt e2.

(** The pacing of the history: starts are pairwise [apart], and the latest
    of them is far enough back for the point where the activation stands:
    begun by now while its request runs, a spacing delay before the wake-up
    of the spacing timer, and a spacing delay before now otherwise. *)
Definition pace (s : state) : Prop :=
  ForallOrdPairs apart (started s) /\
  match drains s with
  | [AwaitRequest _] => Forall (fun e => startedAt e <= clock s) (started s)
  | [AwaitSpacing wakeAt] =>
      Forall (fun e => startedAt e + spacing <= wakeAt) (started s)
  | _ => Forall (fun e => startedAt e + spacing <= clock s) (started s)
  end.

(** Units begun inside the sliding interval [[T, T + 60000)]. *)
Definition inInterval (T : Z) (e : start) : bool :=
  (T <=? startedAt e) && (startedAt e <? T + 60000).

(** Nothing queued and no activation left. *)
Definition drained (s : state) : Prop :=
  rateLimitQueue s = [] /\ drains s = [] /\ isProcessingQueue s = false.

(** The earliest time at which a suspended activation may be resumed. *)
Definition wakeTime (now : Z) (p : suspended) : Z :=
  match p with
  | AwaitWindow wakeAt => Z.max now wakeAt
  | AwaitRequest _ => now
  | AwaitSpacing wakeAt => Z.max now wakeAt
  end.

End WithProvider.

Arguments AwaitWindow {Unit} wakeAt.
Arguments AwaitRequest {Unit} request.
Arguments AwaitSpacing {Unit} wakeAt.
Arguments mkStart {Unit} startedUnit startedAt windowEnd.
Arguments startedUnit {Unit} s.
Arguments startedAt {Unit} s.
Arguments windowEnd {Unit} s.
Arguments mkState {Unit}.
Arguments rateLimitQueue {Unit} s.
Arguments isProcessingQueue {Unit} s.
Arguments lastRequestTime {Unit} s.
Arguments requestCount {Unit} s.
Arguments resetTime {Unit} s.
Arguments drains {Unit} s.
Arguments clock {Unit} s.
Arguments started {Unit} s.
Arguments submitted {Unit} s.
Arguments init {Unit} t0.
Arguments resetWindow {Unit} now s.
Arguments setProcessing {Unit} b s.
Arguments shiftAndStart {Unit} now s.
Arguments loopHead {Unit} rateLimit now s.
Arguments afterWindow {Unit} now s.
Arguments processQueue {Unit} rateLimit now s.
Arguments spawn {Unit} d.
Arguments setRuntime {Unit} now ds s.
Arguments rateLimitRequest {Unit} rateLimit now request s.
Arguments resume {Unit} rateLimit spacing now p s.
Arguments Submit {Unit} request.
Arguments Resume {Unit} i.
Arguments step {Unit} rateLimit spacing now e s.
Arguments run {Unit} rateLimit spacing trace s.
Arguments reachable {Unit} rateLimit spacing s.
Arguments inWindow {Unit} W e.
Arguments startsInWindow {Unit} W s.
Arguments windowEnds {Unit} s.
Arguments startsWithEnd {Unit} W s.
Arguments accounting {Unit} rateLimit now s.
Arguments control {Unit} s.
Arguments fifo {Unit} s.
Arguments leaves {Unit} b r.
Arguments queueWith {Unit} e s.
Arguments takesOldest {Unit} now queue before after.
Arguments room {Unit} rateLimit now s.
Arguments admits {Unit} rateLimit now e s.
Arguments apart {Unit} spacing e1 e2.
Arguments pace {Unit} spacing s.
Arguments inInterval {Unit} T e.
Arguments drained {Unit} s.
Arguments wakeTime {Unit} now p.

End Scheduler.

(* ================================================================== *)
(** ** The specification's wording, and sample inputs *)
(* ================================================================== *)

(** Definitions that follow the prose of the specification, to be compared
    with the functions above, and the concrete inputs used below. *)
Module Spec.
Import JS Weather Engine.

(** The five additive terms of the weather-impact score. *)
Definition temperatureTerm (t : num) : Z :=
  if geb t (Fin 50) && leb t (Fin 70) then 20
  else if geb t (Fin 40) && leb t (Fin 80) then 10
  else if ltb t (Fin 20) || gtb t (Fin 90) then -30
  else if ltb t (Fin 30) || gtb t (Fin 85) then -15
  else 0.

Definition windTerm (w : num) : Z :=
  if ltb w (Fin 10) then 15
  else if ltb w (Fin 20) then 5
  else if gtb w (Fin 30) then -25
  else if gtb w (Fin 20) then -10
  else 0.

Definition precipitationTerm (p : num) : Z :=
  if eqb p (Fin 0) then 15
  else if ltb p (Fin 0.1) then 5
  else if gtb p (Fin 0.5) then -20
  else if gtb p (Fin 0.1) then -10
  else 0.

Definition visibilityTerm (v : num) : Z :=
  if geb v (Fin 10) then 10
  else if ltb v (Fin 5) then -15
  else 0.

Definition conditionTerm (c : string) : Z :=
  if includes badConditions c then -25
  else if includes moderateConditions c then -10
  else if String.eqb c "Clear" then 10
  else 0.

Definition clamp (lo hi x : Z) : Z := Z.max lo (Z.min hi x).

(** An extreme reading: -40 degrees, wind 100, heavy precipitation, poor
    visibility, thunderstorm. *)
Definition extremeReading : GameWeather :=
  {| temperature := Fin (-40);
     feelsLike := Fin (-60);
     humidity := Fin 90;
     windSpeed := Fin 100;
     windDirection := Some "N"%string;
     conditions := "Thunderstorm";
     precipitation := Fin 2;
     visibility := Fin 1;
     uvIndex := Fin 0;
     lastUpdated := "2024-01-14T18:00:00.000Z" |}.

(** Sum of an integer quantity over a list. *)
Definition sumOver {A : Type} (f : A -> Z) (l : list A) : Z :=
  fold_right (fun x acc => f x + acc) 0 l.





(** A snapshot before the first game. *)
Definition zeroGamesStats : TeamStats :=
  {| stats_teamId := "KC"; gamesPlayed := Fin 0; wins := Fin 0;
     pointsFor := Fin 0; pointsAgainst := Fin 0; totalYards := Fin 0;
     totalYardsAllowed := Fin 0; takeaways := Fin 0; sacks := Fin 0;
     thirdDownPercentage := Fin 0; thirdDownPercentageAllowed := Fin 0;
     redZonePercentage := Fin 0; redZonePercentageAllowed := Fin 0 |}.

(** Both team records of a game are found in the fetched team set. *)
Definition teamsResolve (teams : list NFLTeam) (game : NFLGame) : bool :=
  match findTeam teams (awayTeamId game), findTeam teams (homeTeamId game) with
  | Some _, Some _ => true
  | _, _ => false
  end.

(** The predictions that a list of games yields one by one. *)
Definition predictionsOf (predict : NFLGame -> outcome GamePrediction)
    (games : list NFLGame) : list GamePrediction :=
  flat_map (fun g => match predict g with
                     | Returned p => [p]
                     | Thrown _ => []
                     end) games.

Definition chiefs : NFLTeam :=
  {| team_id := "KC"; team_name := "Chiefs"; abbreviation := "KC" |}.
Definition bills : NFLTeam :=
  {| team_id := "BUF"; team_name := "Bills"; abbreviation := "BUF" |}.

Definition gameBillsAtChiefs : NFLGame :=
  {| game_id := "g1"; week := 1; year := 2024; awayTeamId := "BUF";
     homeTeamId := "KC"; gameDate := "2024-09-08T17:00:00Z" |}.

(** A game whose away team is not in the fetched team set. *)
Definition gameUnknownAway : NFLGame :=
  {| game_id := "g2"; week := 1; year := 2024; awayTeamId := "XXX";
     homeTeamId := "KC"; gameDate := "2024-09-08T20:00:00Z" |}.

(** A fair-weather reading. *)
Definition mildReading : GameWeather :=
  {| temperature := Fin 60;
     feelsLike := Fin 60;
     humidity := Fin 50;
     windSpeed := Fin 5;
     windDirection := Some "N"%string;
     conditions := "Clear";
     precipitation := Fin 0;
     visibility := Fin 10;
     uvIndex := Fin 0;
     lastUpdated := "2024-09-08T12:00:00.000Z" |}.

(** Distance in milliseconds between a forecast point and kickoff. *)
Definition timeGap (kickoff : Z) (f : ForecastPoint) : Z :=
  Z.abs (dt f * 1000 - kickoff).

(** The timestamp of a forecast point is a valid [Date]. *)
Definition validStamp (f : ForecastPoint) : Prop :=
  Z.abs (dt f * 1000) <= 8640000000000000.

Definition forecastAt (seconds : Z) (temp : Q) : ForecastPoint :=
  {| dt := seconds; main_temp := Fin temp; main_feels_like := Fin temp;
     main_humidity := Fin 50; wind_speed := Fin 5; wind_deg := Fin 90;
     weather0_main := Some "Clear"%string; rain_3h := None; snow_3h := None;
     fc_visibility := Fin 10000 |}.

(** Kickoff at 1010 s with forecast points at 1030 s, 1000 s and 1020 s:
    the last two are equally close. *)
Definition threeForecasts : list ForecastPoint :=
  [forecastAt 1030 50; forecastAt 1000 60; forecastAt 1020 61].

(** The two teams of the end-to-end scenario of the specification. *)
Definition scenarioAway : TeamStats :=
  {| stats_teamId := "A"; gamesPlayed := Fin 12; wins := Fin 10;
     pointsFor := Fin 300; pointsAgainst := Fin 200; totalYards := Fin 0;
     totalYardsAllowed := Fin 0; takeaways := Fin 0; sacks := Fin 0;
     thirdDownPercentage := Fin 0; thirdDownPercentageAllowed := Fin 0;
     redZonePercentage := Fin 0; redZonePercentageAllowed := Fin 0 |}.

Definition scenarioHome : TeamStats :=
  {| stats_teamId := "B"; gamesPlayed := Fin 12; wins := Fin 4;
     pointsFor := Fin 220; pointsAgainst := Fin 260; totalYards := Fin 0;
     totalYardsAllowed := Fin 0; takeaways := Fin 0; sacks := Fin 0;
     thirdDownPercentage := Fin 0; thirdDownPercentageAllowed := Fin 0;
     redZonePercentage := Fin 0; redZonePercentageAllowed := Fin 0 |}.

(** Metrics whose adjusted scores are 1 and -1. *)
Definition cancellingAway : PredictionMetrics :=
  {| teamStrength := Fin 0; offensivePower := Fin 0; defensivePower := Fin 0;
     injuryImpact := Fin 0; weatherImpact := VNum (Fin 50);
     scheduleStrength := Fin 0; homeFieldAdvantage := Fin 0;
     restAdvantage := Fin 0; momentum := Fin 10; overall := Fin 5 |}.

Definition cancellingHome : PredictionMetrics :=
  {| teamStrength := Fin 0; offensivePower := Fin 0; defensivePower := Fin 0;
     injuryImpact := Fin 0; weatherImpact := VNum (Fin 0);
     scheduleStrength := Fin 0; homeFieldAdvantage := Fin 3;
     restAdvantage := Fin 0; momentum := Fin 10; overall := Fin 0 |}.

(** A short run of a scheduler: three submissions in quick succession, the
    first request done after 50 ms, the spacing delay, the second request,
    the spacing delay again, then a resumption after the window has ended. *)
Definition demoTrace : list (Z * Scheduler.event nat) :=
  [(0, Scheduler.Submit 1%nat);
   (1, Scheduler.Submit 2%nat);
   (2, Scheduler.Submit 3%nat);
   (50, Scheduler.Resume 0);
   (250, Scheduler.Resume 0);
   (300, Scheduler.Resume 0);
   (500, Scheduler.Resume 0);
   (60000, Scheduler.Resume 0)].

(** The state after [trace] from a scheduler constructed at time 0. *)
Definition stateAfter (rateLimit spacing : Z)
    (trace : list (Z * Scheduler.event nat)) : Scheduler.state nat :=
  match Scheduler.run rateLimit spacing trace (Scheduler.init 0) with
  | Some s => s
  | None => Scheduler.init 0
  end.

End Spec.

(* ================================================================== *)
(** ** src/services/MySportsFeedsAPI.ts: season and status mapping *)
(* ================================================================== *)

Module Feeds.
Import JS Weather Engine.

(** [toLowerCase] on the letters A-Z.  Characters outside ASCII are left as
    they are: none of them lower-cases to a string of the case labels
    below, so the [switch] statements take the same branch. *)
Definition lowerChar (c : ascii) : ascii :=
  let n := nat_of_ascii c in
  if (65 <=? n)%nat && (n <=? 90)%nat then ascii_of_nat (n + 32) else c.

Fixpoint toLowerCase (s : string) : string :=
  match s with
  | EmptyString => EmptyString
  | String c rest => String (lowerChar c) (toLowerCase rest)
  end.

(** [status?.toLowerCase()] followed by the [switch]; [None] is an absent
    status. *)
Definition mapGameStatus (status : option string) : string :=
  match status with
  | None => "scheduled"
  | Some s =>
      let l := toLowerCase s in
      if String.eqb l "live" || String.eqb l "in_progress" then "live"
      else if String.eqb l "final" || String.eqb l "closed" then "final"
      else if String.eqb l "postponed" then "postponed"
      else if String.eqb l "cancelled" then "cancelled"
      else "scheduled"
  end.

Definition mapInjuryStatus (status : option string) : string :=
  match status with
  | None => "healthy"
  | Some s =>
      let l := toLowerCase s in
      if String.eqb l "questionable" then "questionable"
      else if String.eqb l "doubtful" then "doubtful"
      else if String.eqb l "out" then "out"
      else if String.eqb l "ir" || String.eqb l "injured-reserve"
      then "injured-reserve"
      else if String.eqb l "pup" then "pup"
      else "healthy"
  end.

Definition mapPracticeStatus (status : option string) : string :=
  match status with
  | None => "unknown"
  | Some s =>
      let l := toLowerCase s in
      if String.eqb l "full" then "full"
      else if String.eqb l "limited" then "limited"
      else if String.eqb l "dnp" || String.eqb l "did-not-participate"
      then "did-not-participate"
      else "unknown"
  end.

(** [getCurrentSeason] at a date of the given year and month (1 to 12):
    the pair [(year, seasonType)]. *)
Definition getCurrentSeason (currentYear currentMonth : Z) : Z * Z :=
  if (currentMonth >=? 9) || (currentMonth <=? 2) then (currentYear, 2)
  else if (currentMonth >=? 3) && (currentMonth <=? 5) then (currentYear, 1)
  else (currentYear, 3).

(** The season segment of the request paths. *)
Definition seasonTypeStr (seasonType : Z) : string :=
  if seasonType =? 1 then "pre" else if seasonType =? 2 then "reg" else "post".

(** An entry of [response.data.playerInjuries], with the fields the client
    reads into what the engine later uses. *)
Record RawInjury : Type := mkRawInjury {
  raw_injury_team : string;
  raw_status : option string;
  raw_practiceStatus : option string;
  raw_gameStatus : option string
}.

(** The record [getPlayerInjuries] builds, as the engine sees it: the
    client sets no [position]. *)
Definition toPlayerInjury (raw : RawInjury) : PlayerInjury :=
  {| injury_teamId := raw_injury_team raw;
     position := None;
     status := mapInjuryStatus (raw_status raw) |}.

(** The [practiceStatus] and [gameStatus] fields of the built record. *)
Definition builtPracticeStatus (raw : RawInjury) : string :=
  mapPracticeStatus (raw_practiceStatus raw).
Definition builtGameStatus (raw : RawInjury) : string :=
  mapGameStatus (raw_gameStatus raw).

(** An entry of [response.data.teamStatsTotals], with the statistics the
    engine reads; [None] is an absent value. *)
Record RawTeamStats : Type := mkRawTeamStats {
  raw_stats_team : string;
  raw_gamesPlayed : option num;
  raw_wins : option num;
  raw_pointsFor : option num;
  raw_pointsAgainst : option num;
  raw_totalYards : option num;
  raw_totalYardsAllowed : option num;
  raw_takeaways : option num;
  raw_sacks : option num;
  raw_thirdDownPercentage : option num;
  raw_thirdDownPercentageAllowed : option num;
  raw_redZonePercentage : option num;
  raw_redZonePercentageAllowed : option num
}.

(** The record [getTeamStats] builds: every statistic is [value || 0]. *)
Definition toTeamStats (raw : RawTeamStats) : TeamStats :=
  {| stats_teamId := raw_stats_team raw;
     gamesPlayed := or_num (raw_gamesPlayed raw) (Fin 0);
     wins := or_num (raw_wins raw) (Fin 0);
     pointsFor := or_num (raw_pointsFor raw) (Fin 0);
     pointsAgainst := or_num (raw_pointsAgainst raw) (Fin 0);
     totalYards := or_num (raw_totalYards raw) (Fin 0);
     totalYardsAllowed := or_num (raw_totalYardsAllowed raw) (Fin 0);
     takeaways := or_num (raw_takeaways raw) (Fin 0);
     sacks := or_num (raw_sacks raw) (Fin 0);
     thirdDownPercentage := or_num (raw_thirdDownPercentage raw) (Fin 0);
     thirdDownPercentageAllowed :=
       or_num (raw_thirdDownPercentageAllowed raw) (Fin 0);
     redZonePercentage := or_num (raw_redZonePercentage raw) (Fin 0);
     redZonePercentageAllowed :=
       or_num (raw_redZonePercentageAllowed raw) (Fin 0) |}.

End Feeds.

(* ================================================================== *)
(** ** src/services/DataCollectionService.ts *)
(* ================================================================== *)

Module Collection.
Import JS Weather Engine Feeds.

(** An optional numeric argument is used when it is given and not 0. *)
Definition given (x : option Z) : bool :=
  match x with
  | Some z => negb (z =? 0)
  | None => false
  end.

(** [x || fallback] *)
Definition orElse (x : option Z) (fallback : Z) : Z :=
  match x with
  | Some z => if z =? 0 then fallback else z
  | None => fallback
  end.

(** The head of [collectAllData]: the week, year and season type that the
    run collects, from its optional arguments and the current date.  The
    week line reads [week = week || currentSeason.year === 2024 ? 18 : 1],
    where the conditional applies to the whole disjunction. *)
Definition collectionPeriod (week year seasonType : option Z)
    (currentYear currentMonth : Z) : Z * Z * Z :=
  if negb (given week) || negb (given year) || negb (given seasonType)
  then
    let currentSeason := getCurrentSeason currentYear currentMonth in
    let week' := if given week || (fst currentSeason =? 2024) then 18 else 1 in
    let year' := orElse year (fst currentSeason) in
    let seasonType' := orElse seasonType (snd currentSeason) in
    (week', year', seasonType')
  else (orElse week 0, orElse year 0, orElse seasonType 0).

(** [getTeamAbbreviation]: the lookup table of the source is empty. *)
Definition teamAbbreviationMap : list (string * string) := [].

(** What [teamAbbreviationMap[teamId]] finds when it is truthy. *)
Inductive found : Type :=
| Abbreviation (abbreviation : string)  (* an entry of the table *)
| InheritedProperty (name : string).    (* the value inherited under a name *)

(** [teamAbbreviationMap[teamId] || null]; [None] is null. *)
Definition getTeamAbbreviation (teamId : string) : option found :=
  match find (fun entry => String.eqb (fst entry) teamId) teamAbbreviationMap with
  | Some entry =>
      if String.eqb (snd entry) "" then None else Some (Abbreviation (snd entry))
  | None => if inherited teamId then Some (InheritedProperty teamId) else None
  end.

(** [[...new Set(ids)]]: the distinct ids in order of first occurrence. *)
Fixpoint distinct (seen ids : list string) : list string :=
  match ids with
  | [] => []
  | x :: rest =>
      if existsb (String.eqb x) seen then distinct seen rest
      else x :: distinct (x :: seen) rest
  end.

(** [array.slice(i, i + batchSize)] for i = 0, batchSize, ...: the batches
    of the loop, with [fuel] bounding their number. *)
Fixpoint batches (fuel : nat) (batchSize : nat) (ids : list string)
    : list (list string) :=
  match fuel with
  | O => []
  | S fuel' =>
      match ids with
      | [] => []
      | _ :: _ => firstn batchSize ids :: batches fuel' batchSize (skipn batchSize ids)
      end
  end.

(** A [Record<string, GameWeather | null>] that starts as the object
    literal [{}]: its own entries, and whether its prototype has been set
    to null. *)
Record weatherRecord : Type := mkWeatherRecord {
  entries : list (string * option GameWeather);
  bare : bool
}.

Definition emptyRecord : weatherRecord := {| entries := []; bare := false |}.

(** Creating or updating an own entry. *)
Fixpoint assignOwn (key : string) (value : option GameWeather)
    (own : list (string * option GameWeather))
    : list (string * option GameWeather) :=
  match own with
  | [] => [(key, value)]
  | (k, v) :: rest =>
      if String.eqb k key then (k, value) :: rest
      else (k, v) :: assignOwn key value rest
  end.

(** [record[key] = value].  While the record inherits from
    [Object.prototype], assigning to [__proto__] runs the inherited setter:
    it replaces the prototype (by null for a null value) and creates no
    entry.  Every other assignment creates or updates an own entry. *)
Definition assign (key : string) (value : option GameWeather)
    (record : weatherRecord) : weatherRecord :=
  if String.eqb key "__proto__" && negb (bare record)
  then {| entries := entries record;
          bare := match value with None => true | Some _ => false end |}
  else {| entries := assignOwn key value (entries record);
          bare := bare record |}.

(** [batchResults.forEach(({ teamId, weather }) => { record[teamId] = weather })] *)
Definition assignAll (results : list (string * option GameWeather))
    (record : weatherRecord) : weatherRecord :=
  fold_left (fun r result => assign (fst result) (snd result) r) results record.

(** The own entry of a key, as [Object.keys] and the serialised record show
    it. *)
Definition lookup (key : string) (record : weatherRecord)
    : option (option GameWeather) :=
  option_map snd (find (fun entry => String.eqb (fst entry) key) (entries record)).

Section WithWeatherClient.

(** What [weatherAPI.getCurrentWeather] answers when called with what the
    table lookup found: a reading, null, or a failure. *)
Variable currentWeather : found -> outcome (option GameWeather).

(** The body of [batch.map(async (teamId) => ...)], with its [try]/[catch]. *)
Definition weatherOfTeam (teamId : string) : string * option GameWeather :=
  match getTeamAbbreviation teamId with
  | Some teamAbbr =>
      match currentWeather teamAbbr with
      | Returned weather => (teamId, weather)
      | Thrown _ => (teamId, None)
      end
  | None => (teamId, None)
  end.

(** One turn of the batch loop: the results of the batch, assigned in
    order. *)
Definition collectBatch (record : weatherRecord) (batch : list string)
    : weatherRecord :=
  assignAll (map weatherOfTeam batch) record.

(** [collectWeatherData] with the feature flag [enableWeatherUpdates]. *)
Definition collectWeatherData (enableWeatherUpdates : bool)
    (games : list NFLGame) : weatherRecord :=
  if negb enableWeatherUpdates then emptyRecord
  else
    let homeTeamAbbreviations := distinct [] (map homeTeamId games) in
    fold_left collectBatch
      (batches (List.length homeTeamAbbreviations) 5 homeTeamAbbreviations)
      emptyRecord.

End WithWeatherClient.

End Collection.

(* ================================================================== *)
(** ** src/services/OpenWeatherAPI.ts: getBulkWeather *)
(* ================================================================== *)

Module Bulk.
Import JS Weather Collection.

(** One call of [getCurrentWeather] made by [getBulkWeather]: the
    abbreviation asked for and how the call ends. *)
Definition request : Type := (string * outcome (option GameWeather))%type.

(** The body of [batch.map(async (team) => ...)], with its [try]/[catch]. *)
Definition bulkEntry (r : request) : string * option GameWeather :=
  match snd r with
  | Returned weather => (fst r, weather)
  | Thrown _ => (fst r, None)
  end.

(** [array.slice(i, i + batchSize)] for i = 0, batchSize, ... *)
Fixpoint slices (fuel : nat) (batchSize : nat) (requests : list request)
    : list (list request) :=
  match fuel with
  | O => []
  | S fuel' =>
      match requests with
      | [] => []
      | _ :: _ =>
          firstn batchSize requests
          :: slices fuel' batchSize (skipn batchSize requests)
      end
  end.

(** One turn of the batch loop: [results[team] = weather] for each result
    of the batch, in order. *)
Definition bulkBatch (results : weatherRecord) (batch : list request)
    : weatherRecord :=
  assignAll (map bulkEntry batch) results.

(** [getBulkWeather] over the calls it makes, one per requested
    abbreviation. *)
Definition getBulkWeather (requests : list request) : weatherRecord :=
  fold_left bulkBatch (slices (List.length requests) 10 requests) emptyRecord.

(** The last call made for an abbreviation. *)
Definition lastRequest (team : string) (requests : list request)
    : option request :=
  find (fun r => String.eqb (fst r) team) (rev requests).

End Bulk.

(* ================================================================== *)
(** ** Ranges of inputs and results *)
(* ================================================================== *)

Module Props.
Import JS Weather Engine Feeds.

(** A finite number between two rationals. *)
Definition within (lo hi : Q) (x : num) : Prop :=
  exists q, x = Fin q /\ (lo <= q <= hi)%Q.

(** An integer between two integers. *)
Definition integerWithin (lo hi : Z) (x : num) : Prop :=
  exists n, x = of_Z n /\ lo <= n <= hi.

Definition nonnegative (x : num) : Prop :=
  match x with
  | Fin q => (0 <= q)%Q
  | _ => False
  end.

Definition percentage (x : num) : Prop :=
  match x with
  | Fin q => (0 <= q <= 100)%Q
  | _ => False
  end.

(** Statistics as a season produces them: finite, counts and totals not
    negative, no more wins than games, percentages between 0 and 100. *)
Definition plausible (stats : TeamStats) : Prop :=
  nonnegative (gamesPlayed stats) /\
  nonnegative (wins stats) /\
  leb (wins stats) (gamesPlayed stats) = true /\
  nonnegative (pointsFor stats) /\
  nonnegative (pointsAgainst stats) /\
  nonnegative (totalYards stats) /\
  nonnegative (totalYardsAllowed stats) /\
  nonnegative (takeaways stats) /\
  nonnegative (sacks stats) /\
  percentage (thirdDownPercentage stats) /\
  percentage (thirdDownPercentageAllowed stats) /\
  percentage (redZonePercentage stats) /\
  percentage (redZonePercentageAllowed stats).

(** No snapshot, or a plausible one. *)
Definition plausibleIfPresent (stats : option TeamStats) : Prop :=
  match stats with
  | Some s => plausible s
  | None => True
  end.

(** The plain average of the per-injury impact values. *)
Definition plainAverage (injuries : list PlayerInjury) : Q :=
  inject_Z (Spec.sumOver injuryStatusImpact injuries)
  / inject_Z (Z.of_nat (List.length injuries)).

(** Sample inputs. *)
Definition rawInjuries : list RawInjury :=
  [ {| raw_injury_team := "KC"; raw_status := Some "IR"%string;
       raw_practiceStatus := Some "DNP"%string;
       raw_gameStatus := Some "Out"%string |};
    {| raw_injury_team := "KC"; raw_status := Some "Questionable"%string;
       raw_practiceStatus := Some "Limited"%string;
       raw_gameStatus := None |};
    {| raw_injury_team := "KC"; raw_status := None;
       raw_practiceStatus := None; raw_gameStatus := None |} ].

Definition billsStats : TeamStats :=
  {| stats_teamId := "BUF"; gamesPlayed := Fin 12; wins := Fin 9;
     pointsFor := Fin 330; pointsAgainst := Fin 240; totalYards := Fin 4400;
     totalYardsAllowed := Fin 3900; takeaways := Fin 18; sacks := Fin 30;
     thirdDownPercentage := Fin 44; thirdDownPercentageAllowed := Fin 38;
     redZonePercentage := Fin 62; redZonePercentageAllowed := Fin 50 |}.

Definition chiefsStats : TeamStats :=
  {| stats_teamId := "KC"; gamesPlayed := Fin 12; wins := Fin 10;
     pointsFor := Fin 310; pointsAgainst := Fin 220; totalYards := Fin 4300;
     totalYardsAllowed := Fin 3800; takeaways := Fin 15; sacks := Fin 33;
     thirdDownPercentage := Fin 46; thirdDownPercentageAllowed := Fin 36;
     redZonePercentage := Fin 58; redZonePercentageAllowed := Fin 52 |}.

(** A rainy reading. *)
Definition rainReading : GameWeather :=
  {| temperature := Fin 48;
     feelsLike := Fin 44;
     humidity := Fin 90;
     windSpeed := Fin 12;
     windDirection := Some "SW"%string;
     conditions := "Rain";
     precipitation := Fin 0.3;
     visibility := Fin 6;
     uvIndex := Fin 0;
     lastUpdated := "2024-09-08T12:00:00.000Z" |}.

Definition rawStatsWithoutGames : RawTeamStats :=
  {| raw_stats_team := "KC"; raw_gamesPlayed := None; raw_wins := None;
     raw_pointsFor := Some (Fin 10); raw_pointsAgainst := None;
     raw_totalYards := None; raw_totalYardsAllowed := None;
     raw_takeaways := None; raw_sacks := None;
     raw_thirdDownPercentage := None; raw_thirdDownPercentageAllowed := None;
     raw_redZonePercentage := None; raw_redZonePercentageAllowed := None |}.

End Props.

(* ================================================================== *)
(** ** Facts about JavaScript numbers *)
(* ================================================================== *)

Import JS.

Lemma Qle_bool_false (x y : Q) : Qle_bool x y = false -> (y < x)%Q.
Proof.
  intros H. apply Qnot_le_lt. intros C. apply Qle_bool_iff in C. congruence.
Qed.

(** Turns boolean comparisons of rationals in the context into orders. *)
Ltac qbool :=
  repeat match goal with
  | H : Qle_bool _ _ = true |- _ => apply Qle_bool_iff in H
  | H : Qle_bool _ _ = false |- _ => apply Qle_bool_false in H
  | H : Qeq_bool _ _ = true |- _ => apply Qeq_bool_iff in H
  | H : Qeq_bool _ _ = false |- _ => apply Qeq_bool_neq in H
  end.

(** Unfolds comparisons of injected integers down to [Z]. *)
Ltac to_Z :=
  unfold geb, gtb, leb, ltb, eqb, sub, add, neg, abs, of_Z;
  unfold Qle_bool, Qeq_bool, Qabs, Qplus, Qopp, inject_Z;
  cbn [Qnum Qden]; rewrite ?Z.mul_1_r; cbn [Pos.mul Z.mul Z.opp].

Lemma add_NaN_r (x : num) : add x NaN = NaN.
Proof. destruct x; reflexivity. Qed.

Lemma mul_NaN_l (x : num) : mul NaN x = NaN.
Proof. reflexivity. Qed.

Lemma div_of_Z (a b : Z) :
  b <> 0 -> div (of_Z a) (of_Z b) = Fin (inject_Z a / inject_Z b).
Proof.
  intros Hb. unfold div, of_Z.
  destruct (Qeq_bool (inject_Z b) 0) eqn:E; [|reflexivity].
  apply Qeq_bool_iff in E. unfold Qeq, inject_Z in E. cbn in E. lia.
Qed.

(* ================================================================== *)
(** ** Confidence tier and recommendation *)
(* ================================================================== *)

Import Weather Engine.

(** C5. The confidence tier has exact thresholds on the absolute gap of the
    two probabilities, which are whole numbers: a gap of at least 25 is
    high, a gap of at least 15 and below 25 is medium, a gap of at most 14
    is low; in particular gaps of exactly 25, 15 and 14 are high, medium and
    low. *)
Theorem determineConfidence_thresholds (a h : Z) :
  (25 <= Z.abs (a - h) -> determineConfidence (of_Z a) (of_Z h) = high) /\
  (15 <= Z.abs (a - h) -> Z.abs (a - h) < 25 ->
     determineConfidence (of_Z a) (of_Z h) = medium) /\
  (Z.abs (a - h) <= 14 -> determineConfidence (of_Z a) (of_Z h) = low) /\
  (Z.abs (a - h) = 25 -> determineConfidence (of_Z a) (of_Z h) = high) /\
  (Z.abs (a - h) = 15 -> determineConfidence (of_Z a) (of_Z h) = medium) /\
  (Z.abs (a - h) = 14 -> determineConfidence (of_Z a) (of_Z h) = low).
Proof.
  unfold determineConfidence. to_Z.
  replace (a + - h) with (a - h) by lia.
  destruct (Z.leb_spec 25 (Z.abs (a - h)));
    destruct (Z.leb_spec 15 (Z.abs (a - h)));
    repeat split; intros; try reflexivity; lia.
Qed.

Lemma determineConfidence_thresholds_witness :
  determineConfidence (of_Z 63) (of_Z 37) = high /\
  determineConfidence (of_Z 42) (of_Z 58) = medium /\
  determineConfidence (of_Z 57) (of_Z 43) = low.
Proof.
  split; [|split].
  - destruct (determineConfidence_thresholds 63 37) as [H _].
    apply H. simpl. lia.
  - destruct (determineConfidence_thresholds 42 58) as [_ [H _]].
    apply H; simpl; lia.
  - destruct (determineConfidence_thresholds 57 43) as [_ [_ [H _]]].
    apply H. simpl. lia.
Defined.

(** C10. For integer probabilities that sum to 100 the recommendation is
    none exactly when the confidence tier is low; under medium or high
    confidence the gap is at least 15, the probabilities differ, and the
    recommendation names the side with the strictly higher probability. *)
Theorem recommendation_none_iff_low (a h : Z) :
  a + h = 100 ->
  let c := determineConfidence (of_Z a) (of_Z h) in
  let r := determineRecommendation (of_Z a) (of_Z h) c in
  (r = none <-> c = low) /\
  (c <> low ->
     15 <= Z.abs (a - h) /\ a <> h /\
     (h < a -> r = away) /\ (a < h -> r = home)).
Proof.
  intros Hsum c r. subst c r.
  unfold determineRecommendation, determineConfidence. to_Z.
  destruct (Z.leb_spec 25 (Z.abs (a + - h)));
    destruct (Z.leb_spec 15 (Z.abs (a + - h)));
    destruct (Z.leb_spec a h); destruct (Z.leb_spec h a); cbn [negb];
    repeat split; intros; try reflexivity; try discriminate;
    try congruence; lia.
Qed.

Lemma recommendation_none_iff_low_witness :
  determineRecommendation (of_Z 59) (of_Z 41)
    (determineConfidence (of_Z 59) (of_Z 41)) = away.
Proof.
  assert (Hsum : 59 + 41 = 100) by reflexivity.
  destruct (recommendation_none_iff_low 59 41 Hsum) as [_ H].
  apply H.
  - vm_compute. discriminate.
  - reflexivity.
Defined.

(* ================================================================== *)
(** ** Metric calculators *)
(* ================================================================== *)

Import Spec.

(** C9. With [gamesPlayed === 0] the offensive and the defensive power are
    both exactly 50: the guard answers before any division by
    [gamesPlayed], and the blends, which divide by it, run only when it is
    not zero. *)
Theorem zero_games_power_is_50 (stats : TeamStats) :
  (eqb (gamesPlayed stats) (Fin 0) = true ->
     calculateOffensivePower (Some stats) = Fin 50 /\
     calculateDefensivePower (Some stats) = Fin 50) /\
  (eqb (gamesPlayed stats) (Fin 0) = false ->
     calculateOffensivePower (Some stats) = offensiveBlend stats /\
     calculateDefensivePower (Some stats) = defensiveBlend stats).
Proof.
  unfold calculateOffensivePower, calculateDefensivePower.
  split; intros H; rewrite H; split; reflexivity.
Qed.

Lemma zero_games_power_is_50_witness :
  calculateOffensivePower (Some zeroGamesStats) = Fin 50 /\
  calculateDefensivePower (Some zeroGamesStats) = Fin 50.
Proof.
  destruct (zero_games_power_is_50 zeroGamesStats) as [H _].
  apply H. reflexivity.
Defined.

(** Without the guard a snapshot with no games would give 0/0. *)
Lemma blend_without_guard_is_NaN :
  offensiveBlend zeroGamesStats = NaN /\ defensiveBlend zeroGamesStats = NaN.
Proof. split; reflexivity. Qed.



(** The loop of [calculateInjuryImpact] adds up the two sums. *)
Lemma injury_fold_sums (l : list PlayerInjury) (acc : Z * Z) :
  fold_left injuryStep l acc =
  (fst acc + sumOver (fun i => injuryStatusImpact i * injuryWeight i) l,
   snd acc + sumOver injuryWeight l).
Proof.
  revert acc. induction l as [|i l IH]; intros [a b]; cbn [fold_left sumOver fold_right].
  - cbn. f_equal; lia.
  - rewrite IH. unfold injuryStep. cbn [fst snd]. f_equal; unfold sumOver; lia.
Qed.

Lemma injuryWeight_pos (i : PlayerInjury) : 1 <= injuryWeight i <= 3.
Proof.
  unfold injuryWeight.
  repeat match goal with |- context [if ?b then _ else _] => destruct b end; lia.
Qed.

Lemma total_weight_pos (l : list PlayerInjury) :
  l <> [] -> 0 < sumOver injuryWeight l.
Proof.
  assert (H : forall l', 0 <= sumOver injuryWeight l').
  { induction l' as [|i l' IH]; cbn; [lia|].
    pose proof (injuryWeight_pos i). unfold sumOver in IH. lia. }
  destruct l as [|i l]; [congruence|]. intros _. cbn.
  pose proof (injuryWeight_pos i). specialize (H l). unfold sumOver in H. lia.
Qed.




(* ================================================================== *)
(** ** Weather impact *)
(* ================================================================== *)

(** The score before clamping is the base of 50 plus the five terms. *)
Lemma rawWeatherImpact_terms (w : GameWeather) :
  rawWeatherImpact w =
  50 + temperatureTerm (temperature w) + windTerm (windSpeed w)
     + precipitationTerm (precipitation w) + visibilityTerm (visibility w)
     + conditionTerm (conditions w).
Proof.
  unfold rawWeatherImpact, temperatureTerm, windTerm, precipitationTerm,
    visibilityTerm, conditionTerm.
  destruct (geb (temperature w) (Fin 50) && leb (temperature w) (Fin 70));
    [|destruct (geb (temperature w) (Fin 40) && leb (temperature w) (Fin 80));
      [|destruct (ltb (temperature w) (Fin 20) || gtb (temperature w) (Fin 90));
        [|destruct (ltb (temperature w) (Fin 30) || gtb (temperature w) (Fin 85))]]];
  (destruct (ltb (windSpeed w) (Fin 10));
    [|destruct (ltb (windSpeed w) (Fin 20));
      [|destruct (gtb (windSpeed w) (Fin 30));
        [|destruct (gtb (windSpeed w) (Fin 20))]]]);
  (destruct (eqb (precipitation w) (Fin 0));
    [|destruct (ltb (precipitation w) (Fin 0.1));
      [|destruct (gtb (precipitation w) (Fin 0.5));
        [|destruct (gtb (precipitation w) (Fin 0.1))]]]);
  (destruct (geb (visibility w) (Fin 10));
    [|destruct (ltb (visibility w) (Fin 5))]);
  (destruct (includes badConditions (conditions w));
    [|destruct (includes moderateConditions (conditions w));
      [|destruct (String.eqb (conditions w) "Clear")]]);
  reflexivity.
Qed.

(** C6. For every reading the weather-impact score is the base of 50 plus
    the temperature, wind, precipitation, visibility and condition terms,
    clamped into [0, 100]; it is never negative and never above 100, also
    at -40 degrees with wind 100, where the extreme reading scores 0. *)
Theorem weather_impact_clamped (w : GameWeather) :
  let score :=
    clamp 0 100
      (50 + temperatureTerm (temperature w) + windTerm (windSpeed w)
          + precipitationTerm (precipitation w) + visibilityTerm (visibility w)
          + conditionTerm (conditions w)) in
  getWeatherImpact w = Resolved (of_Z score) /\
  0 <= score <= 100 /\
  getWeatherImpact extremeReading = Resolved (of_Z 0).
Proof.
  intros score. subst score. unfold getWeatherImpact, clamp.
  rewrite rawWeatherImpact_terms. split; [reflexivity|]. split; [lia|].
  reflexivity.
Qed.

(* ================================================================== *)
(** ** The batch loop of the engine *)
(* ================================================================== *)

Section Batch.

Variable getGameWeather : NFLGame -> string -> option GameWeather.
Variable nowIso : string.
Variable teamStats : list TeamStats.
Variable injuries : list PlayerInjury.
Variable teams : list NFLTeam.

Let predict (g : NFLGame) : outcome GamePrediction :=
  predictGame getGameWeather nowIso g teamStats injuries teams.

Lemma predictGame_unresolved (g : NFLGame) :
  teamsResolve teams g = false ->
  predict g = Thrown ("Team not found for game " ++ game_id g).
Proof.
  unfold teamsResolve, predict, predictGame.
  destruct (findTeam teams (awayTeamId g)); [|reflexivity].
  destruct (findTeam teams (homeTeamId g)); [discriminate|reflexivity].
Qed.

Lemma predictGame_resolved (g : NFLGame) :
  teamsResolve teams g = true -> exists p, predict g = Returned p.
Proof.
  unfold teamsResolve, predict, predictGame.
  destruct (findTeam teams (awayTeamId g)); [|discriminate].
  destruct (findTeam teams (homeTeamId g)); [|discriminate].
  intros _. eexists. reflexivity.
Qed.

(** The loop, started from any state, appends to the predictions what
    each game yields, in order, and never drops what it already has. *)
Lemma generate_loop (games : list NFLGame)
    (st : list GamePrediction * list log_entry) :
  fst (fold_left (predictionStep getGameWeather nowIso teamStats injuries teams)
         games st)
  = fst st ++ predictionsOf predict games.
Proof.
  revert st. induction games as [|g games IH]; intros st; cbn [fold_left].
  - cbn. now rewrite app_nil_r.
  - rewrite IH. unfold predictionStep, predictionsOf. cbn [flat_map].
    fold (predict g). destruct (predict g) as [p|m]; cbn [fst].
    + now rewrite <- app_assoc.
    + reflexivity.
Qed.

(** The log only grows, and each failing game leaves its entry. *)
Lemma generate_log (games : list NFLGame)
    (st : list GamePrediction * list log_entry) (g : NFLGame) (m : string) :
  In g games -> predict g = Thrown m ->
  In (ErrorLogged ("Failed to generate prediction for game " ++ game_id g) m)
     (snd (fold_left
             (predictionStep getGameWeather nowIso teamStats injuries teams)
             games st)).
Proof.
  assert (Hkeep : forall gs st' e, In e (snd st') ->
            In e (snd (fold_left
              (predictionStep getGameWeather nowIso teamStats injuries teams)
              gs st'))).
  { induction gs as [|g' gs IH]; intros st' e He; cbn [fold_left]; [assumption|].
    apply IH. unfold predictionStep.
    destruct (predictGame _ _ g' _ _ _); cbn [snd]; apply in_or_app; now left. }
  revert st. induction games as [|g' games IH]; intros st Hin Hm; [contradiction|].
  cbn [fold_left]. destruct Hin as [->|Hin].
  - apply Hkeep. unfold predictionStep. fold (predict g). rewrite Hm.
    cbn [snd]. apply in_or_app. right. now left.
  - now apply IH.
Qed.

(** C8. A game whose away or home team is not in the fetched team set
    fails alone: its error is logged, the loop goes on, every game whose
    teams resolve yields its prediction, and the predictions of a batch
    are those of the batch without the failing game. *)
Theorem failing_game_does_not_abort_batch (games : list NFLGame) :
  let out := generatePredictions getGameWeather nowIso games teamStats injuries teams in
  (forall g, In g games -> teamsResolve teams g = false ->
     predict g = Thrown ("Team not found for game " ++ game_id g) /\
     In (ErrorLogged ("Failed to generate prediction for game " ++ game_id g)
                     ("Team not found for game " ++ game_id g)) (snd out)) /\
  (forall g, In g games -> teamsResolve teams g = true ->
     exists p, predict g = Returned p /\ In p (fst out)) /\
  (forall before bad after, games = before ++ bad :: after ->
     teamsResolve teams bad = false ->
     fst out =
     fst (generatePredictions getGameWeather nowIso (before ++ after)
            teamStats injuries teams)) /\
  fst out = predictionsOf predict games /\
  List.length (fst out) = List.length (filter (teamsResolve teams) games).
Proof.
  intros out. subst out. unfold generatePredictions.
  split; [|split; [|split; [|split]]].
  - intros g Hin Hres. pose proof (predictGame_unresolved g Hres) as Hthrow.
    split; [assumption|]. now apply generate_log.
  - intros g Hin Hres. destruct (predictGame_resolved g Hres) as [p Hp].
    exists p. split; [assumption|]. rewrite generate_loop. cbn [fst app].
    unfold predictionsOf. apply in_flat_map. exists g. split; [assumption|].
    rewrite Hp. now left.
  - intros before bad after -> Hres. rewrite !generate_loop. cbn [fst app].
    unfold predictionsOf. rewrite !flat_map_app. cbn [flat_map].
    rewrite (predictGame_unresolved bad Hres). reflexivity.
  - apply generate_loop.
  - rewrite generate_loop. cbn [fst app]. unfold predictionsOf.
    induction games as [|g gs IH]; [reflexivity|]. cbn [flat_map filter].
    rewrite length_app, IH. destruct (teamsResolve teams g) eqn:E.
    + destruct (predictGame_resolved g E) as [p ->]. reflexivity.
    + rewrite (predictGame_unresolved g E). reflexivity.
Qed.

End Batch.

Lemma failing_game_does_not_abort_batch_witness :
  let out :=
    generatePredictions (fun _ _ => None) "2024-09-08T12:00:00.000Z"
      [gameBillsAtChiefs; gameUnknownAway; gameBillsAtChiefs] [] []
      [chiefs; bills] in
  List.length (fst out) = 2%nat /\
  In (ErrorLogged "Failed to generate prediction for game g2"
                  "Team not found for game g2") (snd out) /\
  fst out =
  fst (generatePredictions (fun _ _ => None) "2024-09-08T12:00:00.000Z"
         [gameBillsAtChiefs; gameBillsAtChiefs] [] [] [chiefs; bills]).
Proof.
  pose proof (failing_game_does_not_abort_batch (fun _ _ => None)
                "2024-09-08T12:00:00.000Z" [] [] [chiefs; bills]
                [gameBillsAtChiefs; gameUnknownAway; gameBillsAtChiefs])
    as [Hfail [_ [Hskip [_ Hlen]]]].
  split; [exact Hlen|]. split.
  - apply (Hfail gameUnknownAway); [simpl; tauto | reflexivity].
  - apply (Hskip [gameBillsAtChiefs] gameUnknownAway [gameBillsAtChiefs]);
      reflexivity.
Defined.

(* ================================================================== *)
(** ** Forecast selection *)
(* ================================================================== *)

Lemma ltb_of_Z (a b : Z) : ltb (of_Z a) (of_Z b) = (a <? b).
Proof.
  to_Z. destruct (Z.leb_spec b a); destruct (Z.ltb_spec a b); cbn; lia || reflexivity.
Qed.

Lemma ltb_of_Z_PInf (a : Z) : ltb (of_Z a) PInf = true.
Proof. reflexivity. Qed.

Lemma forecastDiff_valid (k : Z) (f : ForecastPoint) :
  validStamp f -> forecastDiff (of_Z k) f = of_Z (timeGap k f).
Proof.
  unfold validStamp, forecastDiff, date_getTime, timeGap. intros Hv.
  destruct (Z.leb_spec (Z.abs (dt f * 1000)) 8640000000000000) as [_|Hgt]; [|lia].
  to_Z. do 2 f_equal.
Qed.

(** The loop from a state that already holds a candidate [best] at distance
    [d]: the result is [best] when no later point is strictly closer, and
    otherwise the first later point that is strictly closer than [best] and
    than everything before it and at least as close as everything after. *)
Lemma closestLoop_from (k : Z) (l : list ForecastPoint) :
  Forall validStamp l ->
  forall (best : ForecastPoint) (d : Z),
  exists r, closestLoop (of_Z k) l (Some best) (of_Z d) = Some r /\
    ((r = best /\ forall f, In f l -> d <= timeGap k f) \/
     (exists before after, l = before ++ r :: after /\
        timeGap k r < d /\
        (forall f, In f before -> timeGap k r < timeGap k f) /\
        (forall f, In f after -> timeGap k r <= timeGap k f))).
Proof.
  induction 1 as [|f l Hf Hl IH]; intros best d; cbn [closestLoop].
  - exists best. split; [reflexivity|]. left. split; [reflexivity|]. intros f [].
  - rewrite (forecastDiff_valid k f Hf), ltb_of_Z.
    destruct (Z.ltb_spec (timeGap k f) d) as [Hlt|Hge].
    + destruct (IH f (timeGap k f)) as [r [Hr Hcases]].
      exists r. split; [assumption|]. right.
      destruct Hcases as [[Heq Hall]|[before [after [Heq [Hlt' [Hb Ha]]]]]]; subst.
      * exists [], l. repeat split; try assumption. intros f' [].
      * exists (f :: before), after. repeat split; try assumption; try lia.
        intros f' [<-|Hin]; [assumption | now apply Hb].
    + destruct (IH best d) as [r [Hr Hcases]].
      exists r. split; [assumption|].
      destruct Hcases as [[Heq Hall]|[before [after [Heq [Hlt' [Hb Ha]]]]]]; subst.
      * left. split; [reflexivity|]. intros f' [<-|Hin]; [assumption | now apply Hall].
      * right. exists (f :: before), after. repeat split; try assumption.
        intros f' [<-|Hin]; [lia | now apply Hb].
Qed.

Lemma hours_gate (k now : Z) :
  gtb (div (sub (of_Z k) (of_Z now)) (of_Z (1000 * 60 * 60))) (Fin 120)
  = (432000000 <? k - now).
Proof.
  unfold gtb, ltb, div, sub, add, neg, of_Z.
  change (Qeq_bool (inject_Z (1000 * 60 * 60)) 0) with false. cbv iota.
  unfold Qle_bool, Qdiv, Qmult, Qinv, Qplus, Qopp, inject_Z. cbn [Qnum Qden].
  cbn [Z.mul Pos.mul Z.opp]. rewrite ?Z.mul_1_r.
  destruct (Z.leb_spec ((k + - now) * 1) (120 * 3600000));
    destruct (Z.ltb_spec 432000000 (k - now)); cbn; lia || reflexivity.
Qed.

(** C7. From a non-empty list of forecast points with valid timestamps the
    selection returns the point with the least absolute distance to kickoff,
    and among equally close points the first in input order; a game more
    than 120 hours ahead is answered with the absent value without any
    request. *)
Theorem forecast_selects_first_closest (k : Z) (l : list ForecastPoint) :
  l <> [] -> Forall validStamp l ->
  (exists before e after,
     l = before ++ e :: after /\
     closestForecastOf (of_Z k) l = Some e /\
     (forall f, In f l -> timeGap k e <= timeGap k f) /\
     (forall f, In f before -> timeGap k e < timeGap k f) /\
     (forall nowIso,
        forecastOfResponse nowIso (of_Z k) (HttpData (Some l))
        = Returned (Some (toGameWeather nowIso e)))) /\
  (forall team now nowIso,
     120 * (1000 * 60 * 60) < k - now ->
     getForecast team (of_Z k) now nowIso = Done None) /\
  (forall team now nowIso lat lon,
     k - now <= 120 * (1000 * 60 * 60) ->
     lookupCoordinates team = Some (lat, lon) ->
     getForecast team (of_Z k) now nowIso
     = Fetch "/forecast" lat lon (forecastOfResponse nowIso (of_Z k))).
Proof.
  intros Hne Hvalid. split; [|split].
  - destruct l as [|f l]; [congruence|].
    apply Forall_cons_iff in Hvalid. destruct Hvalid as [Hf Hl].
    assert (Hsel : exists before e after,
      f :: l = before ++ e :: after /\
      closestForecastOf (of_Z k) (f :: l) = Some e /\
      (forall f', In f' (f :: l) -> timeGap k e <= timeGap k f') /\
      (forall f', In f' before -> timeGap k e < timeGap k f')).
    { unfold closestForecastOf. cbn [closestLoop].
      rewrite (forecastDiff_valid k f Hf), ltb_of_Z_PInf.
      destruct (closestLoop_from k l Hl f (timeGap k f)) as [r [Hr Hcases]].
      destruct Hcases as [[Heq Hall]|[before [after [Heq [Hlt [Hb Ha]]]]]]; subst.
      - exists [], f, l. repeat split; try assumption.
        + intros f' [<-|Hin]; [lia | now apply Hall].
        + intros f' [].
      - exists (f :: before), r, after. repeat split; try assumption.
        + intros f' [<-|Hin]; [lia|].
          apply in_app_or in Hin. destruct Hin as [Hin|[<-|Hin]].
          * apply Hb in Hin. lia.
          * lia.
          * now apply Ha.
        + intros f' [<-|Hin]; [assumption | now apply Hb]. }
    destruct Hsel as [before [e [after [Hl' [Hsel [Hmin Hfirst]]]]]].
    exists before, e, after. repeat split; try assumption.
    intros nowIso. unfold forecastOfResponse. now rewrite Hsel.
  - intros team now nowIso Hfar. unfold getForecast.
    destruct (coordinatesOf team) as [lat lon| |]; [| |reflexivity];
      rewrite hours_gate;
      (destruct (Z.ltb_spec 432000000 (k - now)); [reflexivity|lia]).
  - intros team now nowIso lat lon Hnear Hc.
    unfold getForecast, coordinatesOf. rewrite Hc.
    rewrite hours_gate. destruct (Z.ltb_spec 432000000 (k - now)); [lia|reflexivity].
Qed.

Lemma forecast_selects_first_closest_witness :
  (exists before e after,
     threeForecasts = before ++ e :: after /\
     closestForecastOf (of_Z 1010000) threeForecasts = Some e /\
     (forall f, In f threeForecasts -> timeGap 1010000 e <= timeGap 1010000 f) /\
     (forall f, In f before -> timeGap 1010000 e < timeGap 1010000 f) /\
     (forall nowIso,
        forecastOfResponse nowIso (of_Z 1010000) (HttpData (Some threeForecasts))
        = Returned (Some (toGameWeather nowIso e)))).
Proof.
  apply (forecast_selects_first_closest 1010000 threeForecasts).
  - discriminate.
  - repeat constructor; unfold validStamp; simpl; lia.
Defined.

(** Of two equally close points the earlier one in the list is taken. *)
Example forecast_tie_takes_first :
  closestForecastOf (of_Z 1010000) threeForecasts = Some (forecastAt 1000 60).
Proof. reflexivity. Qed.

(** A timestamp outside the range of [Date] has no time value: such a point
    is never selected. *)
Example forecast_without_time_value :
  closestForecastOf (of_Z 1010000) [forecastAt 10000000000000 60] = None.
Proof. reflexivity. Qed.

(* ================================================================== *)
(** ** Win probabilities *)
(* ================================================================== *)

Lemma add_NaN_l (x : num) : add NaN x = NaN.
Proof. reflexivity. Qed.

(** With a weather reading the per-team [overall] is not a number: the
    stored promise converts to NaN and NaN absorbs the blend. *)
Lemma overall_NaN_with_weather (stats : option TeamStats)
    (injuries : list PlayerInjury) (w : GameWeather) (isHome : bool) :
  overall (calculateTeamMetrics stats injuries (Some w) isHome) = NaN.
Proof.
  unfold calculateTeamMetrics. cbn [overall]. unfold calculateWeatherImpact.
  cbn [to_number]. rewrite mul_NaN_l, add_NaN_r, add_NaN_l. reflexivity.
Qed.

(** C1, on the code.  Whenever a weather reading is available the two win
    probabilities of the prediction are both NaN, so they do not sum to
    100; this holds for all statistics and injuries, and in particular for
    the batch with one game under fair weather. *)
Theorem probabilities_NaN_with_weather
    (awayStats homeStats : option TeamStats)
    (awayInjuries homeInjuries : list PlayerInjury) (w : GameWeather) :
  let awayMetrics := calculateTeamMetrics awayStats awayInjuries (Some w) false in
  let homeMetrics := calculateTeamMetrics homeStats homeInjuries (Some w) true in
  let p := calculateWinProbabilities awayMetrics homeMetrics
             (calculateOverallMetrics awayMetrics homeMetrics) in
  p = (NaN, NaN) /\
  eqb (add (fst p) (snd p)) (Fin 100) = false /\
  map (fun x => (awayWinProbability x, homeWinProbability x))
      (fst (generatePredictions (fun _ _ => Some mildReading)
              "2024-09-08T12:00:00.000Z" [gameBillsAtChiefs] [] []
              [chiefs; bills]))
  = [(NaN, NaN)].
Proof.
  intros awayMetrics homeMetrics p.
  assert (Hp : p = (NaN, NaN)).
  { subst p. unfold calculateWinProbabilities, awayAdjusted.
    subst awayMetrics. rewrite overall_NaN_with_weather. reflexivity. }
  rewrite Hp. repeat split.
Qed.

(** Where all inputs are numbers and the adjusted scores do not cancel, the
    normalization does what its comment says: the away probability is the
    rounded share, the home probability is its complement, and the two sum
    to 100. *)
Lemma probabilities_sum_when_finite
    (awayMetrics homeMetrics overallMetrics : PredictionMetrics) (x y : Q) :
  awayAdjusted awayMetrics = Fin x ->
  homeAdjusted homeMetrics = Fin y ->
  ~ (x + y == 0)%Q ->
  let p := calculateWinProbabilities awayMetrics homeMetrics overallMetrics in
  fst p = round (Fin (x / (x + y) * 100)) /\
  snd p = sub (Fin 100) (fst p) /\
  eqb (add (fst p) (snd p)) (Fin 100) = true.
Proof.
  intros Hx Hy Hxy p. subst p. unfold calculateWinProbabilities.
  rewrite Hx, Hy. cbn [add fst snd].
  assert (Hdiv : div (Fin x) (Fin (x + y)) = Fin (x / (x + y))).
  { unfold div. destruct (Qeq_bool (x + y) 0) eqn:E; [|reflexivity].
    apply Qeq_bool_iff in E. contradiction. }
  rewrite Hdiv. cbn [mul]. split; [reflexivity|]. split; [reflexivity|].
  cbn [round sub neg add eqb of_Z]. apply Qeq_bool_iff.
  unfold Qeq, Qplus, Qopp, inject_Z. cbn [Qnum Qden]. cbn [Pos.mul]. lia.
Qed.

(** The end-to-end scenario of the specification (a 10-2 team away at a 4-8
    team, no injuries, no weather reading): 59 against 41. *)
Example scenario_without_weather :
  let a := calculateTeamMetrics (Some scenarioAway) [] None false in
  let h := calculateTeamMetrics (Some scenarioHome) [] None true in
  calculateWinProbabilities a h (calculateOverallMetrics a h) = (Fin 59, Fin 41).
Proof. reflexivity. Qed.

(** Adjusted scores that cancel are a second way to a non-numeric pair. *)
Example probabilities_with_zero_total :
  calculateWinProbabilities cancellingAway cancellingHome cancellingHome
  = (PInf, NInf).
Proof. reflexivity. Qed.

(* ================================================================== *)
(** ** The scheduler *)
(* ================================================================== *)

Import Scheduler.

Lemma filter_none {A : Type} (f : A -> bool) (l : list A) :
  (forall x, In x l -> f x = false) -> filter f l = [].
Proof.
  induction l as [|x l IH]; intros H; [reflexivity|]. cbn.
  rewrite (H x) by now left. apply IH. intros y Hy. apply H. now right.
Qed.

Section SchedulerFacts.

Variable Unit : Type.
Variable rateLimit : Z.
Variable spacing : Z.

Implicit Types (s : state Unit) (e : start Unit) (p : suspended Unit).

(** *** The counters and the windows *)

Lemma accounting_later (t t' : Z) s :
  t <= t' -> accounting rateLimit t s -> accounting rateLimit t' s.
Proof.
  intros Ht [Hc Hcur Hq Htimes Hd Hw]. constructor; try assumption; try lia.
  intros e He. destruct (Htimes e He) as [H1 [H2 H3]].
  repeat split; lia || assumption.
Qed.

Lemma accounting_ext (now : Z) s s' :
  requestCount s' = requestCount s -> resetTime s' = resetTime s ->
  started s' = started s ->
  accounting rateLimit now s -> accounting rateLimit now s'.
Proof.
  intros E1 E2 E3 [Hc Hcur Hq Htimes Hd Hw].
  constructor; unfold startsWithEnd in *; rewrite ?E1, ?E2, ?E3; assumption.
Qed.

Lemma accounting_reset (now : Z) s :
  resetTime s <= now ->
  accounting rateLimit now s -> accounting rateLimit now (resetWindow now s).
Proof.
  intros Hr [Hc Hcur Hq Htimes Hd Hw].
  constructor; unfold startsWithEnd in *;
    cbn [resetWindow requestCount resetTime started]; try assumption; try lia.
  - rewrite filter_none; [reflexivity|]. intros e He.
    destruct (Htimes e He) as [_ [_ H3]]. apply Z.eqb_neq. lia.
  - intros e He. destruct (Htimes e He) as [H1 [H2 H3]]. repeat split; lia.
Qed.

Lemma accounting_start (now : Z) s (u : Unit) (rest : list Unit) :
  now < resetTime s -> requestCount s < rateLimit ->
  rateLimitQueue s = u :: rest ->
  accounting rateLimit now s ->
  accounting rateLimit now (fst (shiftAndStart now s)).
Proof.
  intros Hnow Hlt Hq [Hc Hcur Hquota Htimes Hd Hw].
  unfold shiftAndStart. rewrite Hq. cbn [fst].
  constructor; unfold startsWithEnd in *;
    cbn [requestCount resetTime started].
  - lia.
  - rewrite filter_app, length_app. cbn [filter windowEnd].
    rewrite Z.eqb_refl. cbn [List.length]. lia.
  - intros W. rewrite filter_app, length_app. cbn [filter windowEnd].
    destruct (Z.eqb_spec (resetTime s) W) as [<-|Hne]; cbn [List.length].
    + lia.
    + specialize (Hquota W). lia.
  - intros e He. apply in_app_or in He. destruct He as [He|[<-|[]]].
    + exact (Htimes e He).
    + cbn. repeat split; lia.
  - intros e e' He He'. apply in_app_or in He. apply in_app_or in He'.
    destruct He as [He|[<-|[]]]; destruct He' as [He'|[<-|[]]]; cbn [windowEnd].
    + now apply Hd.
    + destruct (Htimes e He) as [_ [_ H3]]. lia.
    + destruct (Htimes e' He') as [_ [_ H3]]. lia.
    + now left.
  - assumption.
Qed.

Lemma accounting_setProcessing (now : Z) (b : bool) s :
  accounting rateLimit now s -> accounting rateLimit now (setProcessing b s).
Proof. apply accounting_ext; reflexivity. Qed.

Lemma accounting_shiftAndStart (now : Z) s :
  now < resetTime s -> requestCount s < rateLimit ->
  accounting rateLimit now s ->
  accounting rateLimit now (fst (shiftAndStart now s)).
Proof.
  intros Hnow Hlt H. destruct (rateLimitQueue s) as [|u rest] eqn:Hq.
  - unfold shiftAndStart. rewrite Hq. now apply accounting_setProcessing.
  - now apply (accounting_start now s u rest).
Qed.

Lemma accounting_loopHead (now : Z) s :
  accounting rateLimit now s ->
  accounting rateLimit now (fst (loopHead rateLimit now s)).
Proof.
  intros H. unfold loopHead. destruct (rateLimitQueue s) as [|u rest] eqn:Hq.
  - now apply accounting_setProcessing.
  - destruct (Z.geb_spec now (resetTime s)) as [Hge|Hlt].
    + pose proof (accounting_reset now s ltac:(lia) H) as H'.
      destruct (Z.geb_spec (requestCount (resetWindow now s)) rateLimit)
        as [Hfull|Hroom].
      * exact H'.
      * apply accounting_shiftAndStart; [cbn; lia | assumption | assumption].
    + destruct (Z.geb_spec (requestCount s) rateLimit) as [Hfull|Hroom].
      * exact H.
      * apply accounting_shiftAndStart; assumption.
Qed.

Lemma accounting_afterWindow (now : Z) s :
  1 <= rateLimit -> resetTime s <= now ->
  accounting rateLimit now s ->
  accounting rateLimit now (fst (afterWindow now s)).
Proof.
  intros HL Hr H. unfold afterWindow.
  apply accounting_shiftAndStart; [cbn; lia | cbn; lia |].
  now apply accounting_reset.
Qed.

(** *** The activations *)

Lemma shiftAndStart_leaves (now : Z) s :
  leaves (isProcessingQueue s) (shiftAndStart now s).
Proof.
  unfold leaves, shiftAndStart.
  destruct (rateLimitQueue s) as [|u rest] eqn:Hq; cbn.
  - split; [reflexivity | assumption].
  - split; [reflexivity | exact I].
Qed.

Lemma loopHead_leaves (now : Z) s :
  leaves (isProcessingQueue s) (loopHead rateLimit now s).
Proof.
  unfold loopHead. destruct (rateLimitQueue s) as [|u rest] eqn:Hq.
  - unfold leaves. cbn. split; [reflexivity | assumption].
  - destruct (now >=? resetTime s).
    + destruct (requestCount (resetWindow now s) >=? rateLimit).
      * unfold leaves. cbn. split; [reflexivity | lia].
      * apply (shiftAndStart_leaves now (resetWindow now s)).
    + destruct (requestCount s >=? rateLimit).
      * unfold leaves. cbn. split; [reflexivity | lia].
      * apply shiftAndStart_leaves.
Qed.

Lemma control_of_leaves (now : Z) (r : state Unit * option (suspended Unit)) :
  leaves true r -> control (setRuntime now (spawn (snd r)) (fst r)).
Proof.
  unfold leaves, control. intros H. destruct (snd r) as [p|]; cbn; assumption.
Qed.

Lemma control_init (t0 : Z) : control (@init Unit t0).
Proof. cbn. split; reflexivity. Qed.

Lemma control_step (now : Z) (ev : event Unit) s s' :
  control s -> step rateLimit spacing now ev s = Some s' -> control s'.
Proof.
  intros Hctl. unfold step.
  destruct (now <? clock s); [discriminate|].
  unfold control in Hctl.
  destruct ev as [u|i].
  - intros [= <-]. unfold rateLimitRequest, processQueue.
    cbn [isProcessingQueue rateLimitQueue drains].
    destruct (drains s) as [|p [|]] eqn:Hdr; [| |contradiction].
    + destruct Hctl as [Hflag Hempty]. rewrite Hflag, Hempty.
      cbn [app List.length Nat.eqb orb]. apply control_of_leaves.
      match goal with |- leaves _ (loopHead _ _ ?x) =>
        apply (loopHead_leaves now x) end.
    + destruct Hctl as [Hflag Hp]. rewrite Hflag.
      cbn [orb fst snd spawn app]. unfold control. cbn.
      split; [reflexivity | assumption].
  - destruct (drains s) as [|p [|]] eqn:Hdr; [| |contradiction].
    + destruct i; discriminate.
    + destruct i as [|i]; [|destruct i; discriminate].
      cbn [nth_error firstn skipn app]. destruct Hctl as [Hflag Hp].
      destruct p as [w|u|w]; cbn [resume].
      * destruct (w <=? now); [|discriminate].
        destruct (afterWindow now s) as [s2 d] eqn:Haw. intros [= <-].
        rewrite app_nil_r.
        pose proof (shiftAndStart_leaves now (resetWindow now s)) as Hl.
        fold (afterWindow now s) in Hl. rewrite Haw in Hl.
        cbn [resetWindow isProcessingQueue] in Hl. rewrite Hflag in Hl.
        apply (control_of_leaves now (s2, d)). exact Hl.
      * intros [= <-]. cbn [spawn app]. unfold control. cbn.
        split; [assumption | exact I].
      * destruct (w <=? now); [|discriminate].
        destruct (loopHead rateLimit now s) as [s2 d] eqn:Hlh. intros [= <-].
        rewrite app_nil_r.
        pose proof (loopHead_leaves now s) as Hl. rewrite Hlh, Hflag in Hl.
        apply (control_of_leaves now (s2, d)). exact Hl.
Qed.

(** *** One step of the accounting *)

Lemma accounting_step (now : Z) (ev : event Unit) s s' :
  1 <= rateLimit -> control s -> accounting rateLimit (clock s) s ->
  step rateLimit spacing now ev s = Some s' ->
  accounting rateLimit (clock s') s'.
Proof.
  intros HL Hctl Hacc. unfold step.
  destruct (Z.ltb_spec now (clock s)) as [|Hclk]; [discriminate|].
  apply (accounting_later _ now) in Hacc; [|assumption].
  destruct ev as [u|i].
  - intros [= <-]. unfold rateLimitRequest, processQueue.
    cbn [clock setRuntime isProcessingQueue rateLimitQueue].
    match goal with |- context [loopHead _ _ (setProcessing true ?x)] =>
      set (s1 := x) end.
    assert (Hacc1 : accounting rateLimit now s1)
      by (apply (accounting_ext now s); [reflexivity..|assumption]).
    destruct (isProcessingQueue s
              || (List.length (rateLimitQueue s ++ [u]) =? 0)%nat).
    + eapply accounting_ext; [..|exact Hacc1]; reflexivity.
    + eapply accounting_ext;
        [..|apply (accounting_loopHead now (setProcessing true s1))];
        try reflexivity.
      now apply accounting_setProcessing.
  - unfold control in Hctl.
    destruct (drains s) as [|p [|]] eqn:Hdr; [| |contradiction].
    + destruct i; discriminate.
    + destruct i as [|i]; [|destruct i; discriminate].
      cbn [nth_error firstn skipn app]. destruct Hctl as [Hflag Hp].
      destruct p as [w|u|w]; cbn [resume].
      * destruct (Z.leb_spec w now) as [Hw|]; [|discriminate].
        destruct (afterWindow now s) as [s2 d] eqn:Haw. intros [= <-].
        cbn [clock setRuntime].
        eapply accounting_ext; [..|apply (accounting_afterWindow now s)];
          try rewrite Haw; try reflexivity; try assumption; lia.
      * intros [= <-]. cbn [clock setRuntime].
        eapply accounting_ext; [..|exact Hacc]; reflexivity.
      * destruct (Z.leb_spec w now) as [Hw|]; [|discriminate].
        destruct (loopHead rateLimit now s) as [s2 d] eqn:Hlh. intros [= <-].
        cbn [clock setRuntime].
        eapply accounting_ext; [..|apply (accounting_loopHead now s)];
          try rewrite Hlh; try reflexivity; assumption.
Qed.

Lemma accounting_init (t0 : Z) :
  0 <= rateLimit -> accounting rateLimit t0 (@init Unit t0).
Proof.
  intros HL. constructor; cbn; try lia; try reflexivity; contradiction.
Qed.

(** *** Reachable states *)

Lemma run_preserves (P : state Unit -> Prop) :
  (forall now ev s s', P s -> step rateLimit spacing now ev s = Some s' -> P s') ->
  forall trace s s', P s -> run rateLimit spacing trace s = Some s' -> P s'.
Proof.
  intros Hstep. induction trace as [|[now ev] trace IH]; intros s s' Hs; cbn [run].
  - now intros [= <-].
  - destruct (step rateLimit spacing now ev s) as [s1|] eqn:E; [|discriminate].
    apply IH. now apply (Hstep now ev s).
Qed.

Lemma reachable_control s : reachable rateLimit spacing s -> control s.
Proof.
  intros [t0 [trace Hrun]].
  apply (run_preserves control) with (trace := trace) (s := init t0);
    [|apply control_init|assumption].
  intros now ev s1 s2. apply control_step.
Qed.

Lemma reachable_accounting s :
  1 <= rateLimit -> reachable rateLimit spacing s ->
  accounting rateLimit (clock s) s.
Proof.
  intros HL [t0 [trace Hrun]].
  apply (run_preserves (fun s => control s /\ accounting rateLimit (clock s) s))
    with (trace := trace) (s := init t0); [| |assumption].
  - intros now ev s1 s2 [Hc Ha] Hs. split.
    + now apply (control_step now ev s1).
    + now apply (accounting_step now ev s1).
  - split; [apply control_init | apply accounting_init; lia].
Qed.

(** *** Order *)

Lemma shiftAndStart_takes (now : Z) s :
  takesOldest now (rateLimitQueue s) s (fst (shiftAndStart now s)).
Proof.
  unfold takesOldest, shiftAndStart.
  destruct (rateLimitQueue s) as [|u rest] eqn:Hq; cbn.
  - left. split; [reflexivity | assumption].
  - right. exists u, rest. repeat split.
Qed.

Lemma loopHead_takes (now : Z) s :
  takesOldest now (rateLimitQueue s) s (fst (loopHead rateLimit now s)).
Proof.
  unfold loopHead. destruct (rateLimitQueue s) as [|u rest] eqn:Hq.
  - left. cbn. split; [reflexivity | assumption].
  - rewrite <- Hq. destruct (now >=? resetTime s).
    + destruct (requestCount (resetWindow now s) >=? rateLimit).
      * left. split; reflexivity.
      * apply (shiftAndStart_takes now (resetWindow now s)).
    + destruct (requestCount s >=? rateLimit).
      * left. split; reflexivity.
      * apply shiftAndStart_takes.
Qed.

Lemma afterWindow_takes (now : Z) s :
  takesOldest now (rateLimitQueue s) s (fst (afterWindow now s)).
Proof. apply (shiftAndStart_takes now (resetWindow now s)). Qed.

Lemma takesOldest_ext (now : Z) (q : list Unit) s1 s2 s1' s2' :
  started s1' = started s1 -> started s2' = started s2 ->
  rateLimitQueue s2' = rateLimitQueue s2 -> resetTime s2' = resetTime s2 ->
  takesOldest now q s1 s2 -> takesOldest now q s1' s2'.
Proof.
  unfold takesOldest. intros -> -> -> ->. exact (fun H => H).
Qed.

Lemma step_takes (now : Z) (ev : event Unit) s s' :
  step rateLimit spacing now ev s = Some s' ->
  takesOldest now (queueWith ev s) s s'.
Proof.
  unfold step. destruct (now <? clock s); [discriminate|].
  destruct ev as [u|i]; cbn [queueWith].
  - intros [= <-]. unfold rateLimitRequest, processQueue.
    cbn [isProcessingQueue rateLimitQueue].
    match goal with |- context [loopHead _ _ (setProcessing true ?x)] =>
      set (s1 := x) end.
    destruct (isProcessingQueue s
              || (List.length (rateLimitQueue s ++ [u]) =? 0)%nat).
    + left. split; reflexivity.
    + eapply takesOldest_ext;
        [..|apply (loopHead_takes now (setProcessing true s1))]; reflexivity.
  - destruct (nth_error (drains s) i) as [p|]; [|discriminate].
    destruct p as [w|u|w]; cbn [resume].
    + destruct (w <=? now); [|discriminate].
      destruct (afterWindow now s) as [s2 d] eqn:Haw. intros [= <-].
      eapply takesOldest_ext; [..|apply (afterWindow_takes now s)];
        try rewrite Haw; reflexivity.
    + intros [= <-]. left. split; reflexivity.
    + destruct (w <=? now); [|discriminate].
      destruct (loopHead rateLimit now s) as [s2 d] eqn:Hlh. intros [= <-].
      eapply takesOldest_ext; [..|apply (loopHead_takes now s)];
        try rewrite Hlh; reflexivity.
Qed.

Lemma shiftAndStart_submitted (now : Z) s :
  submitted (fst (shiftAndStart now s)) = submitted s.
Proof. unfold shiftAndStart. destruct (rateLimitQueue s); reflexivity. Qed.

Lemma loopHead_submitted (now : Z) s :
  submitted (fst (loopHead rateLimit now s)) = submitted s.
Proof.
  unfold loopHead. destruct (rateLimitQueue s); [reflexivity|].
  destruct (now >=? resetTime s).
  - destruct (requestCount (resetWindow now s) >=? rateLimit); [reflexivity|].
    apply (shiftAndStart_submitted now (resetWindow now s)).
  - destruct (requestCount s >=? rateLimit); [reflexivity|].
    apply shiftAndStart_submitted.
Qed.

Lemma step_submitted (now : Z) (ev : event Unit) s s' :
  step rateLimit spacing now ev s = Some s' ->
  submitted s' =
  match ev with
  | Submit u => submitted s ++ [u]
  | Resume _ => submitted s
  end.
Proof.
  unfold step. destruct (now <? clock s); [discriminate|].
  destruct ev as [u|i].
  - intros [= <-]. unfold rateLimitRequest, processQueue.
    cbn [isProcessingQueue rateLimitQueue setRuntime submitted].
    destruct (isProcessingQueue s
              || (List.length (rateLimitQueue s ++ [u]) =? 0)%nat);
      [reflexivity|].
    now rewrite loopHead_submitted.
  - destruct (nth_error (drains s) i) as [p|]; [|discriminate].
    destruct p as [w|u|w]; cbn [resume].
    + destruct (w <=? now); [|discriminate].
      destruct (afterWindow now s) as [s2 d] eqn:Haw. intros [= <-].
      cbn [setRuntime submitted].
      change s2 with (fst (s2, d)). rewrite <- Haw.
      apply (shiftAndStart_submitted now (resetWindow now s)).
    + intros [= <-]. reflexivity.
    + destruct (w <=? now); [|discriminate].
      destruct (loopHead rateLimit now s) as [s2 d] eqn:Hlh. intros [= <-].
      cbn [setRuntime submitted].
      change s2 with (fst (s2, d)). rewrite <- Hlh. apply loopHead_submitted.
Qed.

Lemma fifo_step (now : Z) (ev : event Unit) s s' :
  fifo s -> step rateLimit spacing now ev s = Some s' -> fifo s'.
Proof.
  unfold fifo. intros Hf Hs.
  assert (Hq : map startedUnit (started s) ++ queueWith ev s = submitted s').
  { rewrite (step_submitted now ev s s' Hs). destruct ev as [u|i]; cbn [queueWith].
    - now rewrite app_assoc, Hf.
    - assumption. }
  destruct (step_takes now ev s s' Hs) as [[Hst Hqu]|[u [rest [Hqu [Hrest Hst]]]]].
  - now rewrite Hst, Hqu.
  - rewrite Hst, Hrest, map_app. cbn [map startedUnit].
    rewrite <- app_assoc. cbn [app]. now rewrite <- Hqu.
Qed.

Lemma reachable_fifo s : reachable rateLimit spacing s -> fifo s.
Proof.
  intros [t0 [trace Hrun]].
  apply (run_preserves fifo) with (trace := trace) (s := init t0);
    [|reflexivity|assumption].
  intros now ev s1 s2. apply fifo_step.
Qed.

(** *** A turn with room begins the oldest unit *)

Lemma shiftAndStart_begins (now : Z) s (request : Unit) (rest : list Unit) :
  rateLimitQueue s = request :: rest ->
  started (fst (shiftAndStart now s))
    = started s ++ [mkStart request now (resetTime (fst (shiftAndStart now s)))] /\
  rateLimitQueue (fst (shiftAndStart now s)) = rest /\
  snd (shiftAndStart now s) = Some (AwaitRequest request).
Proof.
  intros Hq. unfold shiftAndStart. rewrite Hq. cbn. repeat split.
Qed.

Lemma loopHead_begins (now : Z) s (request : Unit) (rest : list Unit) :
  rateLimitQueue s = request :: rest ->
  room rateLimit now s = true ->
  started (fst (loopHead rateLimit now s))
    = started s
      ++ [mkStart request now (resetTime (fst (loopHead rateLimit now s)))] /\
  rateLimitQueue (fst (loopHead rateLimit now s)) = rest /\
  snd (loopHead rateLimit now s) = Some (AwaitRequest request).
Proof.
  intros Hq Hroom. unfold loopHead, room in *. rewrite Hq.
  destruct (now >=? resetTime s).
  - cbn [requestCount resetWindow].
    destruct (Z.geb_spec 0 rateLimit) as [C|_];
      [apply Z.ltb_lt in Hroom; lia|].
    apply (shiftAndStart_begins now (resetWindow now s)). exact Hq.
  - destruct (Z.geb_spec (requestCount s) rateLimit) as [C|_];
      [apply Z.ltb_lt in Hroom; lia|].
    apply shiftAndStart_begins. exact Hq.
Qed.

Lemma step_begins (now : Z) (ev : event Unit) s
    (request : Unit) (rest : list Unit) :
  clock s <= now ->
  queueWith ev s = request :: rest ->
  admits rateLimit now ev s ->
  exists s',
    step rateLimit spacing now ev s = Some s' /\
    started s' = started s ++ [mkStart request now (resetTime s')] /\
    rateLimitQueue s' = rest /\
    In (AwaitRequest request) (drains s').
Proof.
  intros Hclock Hq Hadm. unfold step.
  destruct (Z.ltb_spec now (clock s)) as [C|_]; [lia|].
  destruct ev as [u|i]; cbn [queueWith admits] in *.
  - destruct Hadm as [Hflag Hroom]. eexists. split; [reflexivity|].
    unfold rateLimitRequest, processQueue.
    cbn [isProcessingQueue rateLimitQueue]. rewrite Hflag, Hq.
    cbn [orb List.length Nat.eqb].
    match goal with |- context [loopHead _ _ ?x] => set (s1 := x) end.
    destruct (loopHead_begins now s1 request rest eq_refl Hroom)
      as [H1 [H2 H3]].
    cbn [started rateLimitQueue drains resetTime setRuntime].
    rewrite H3. split; [exact H1|]. split; [exact H2|].
    apply in_or_app. right. now left.
  - destruct (nth_error (drains s) i) as [p|] eqn:Hn; [|contradiction].
    destruct p as [w|u|w]; [| contradiction |]; cbn [resume].
    + destruct (Z.leb_spec w now) as [_|C]; [|lia].
      destruct (shiftAndStart_begins now (resetWindow now s) request rest Hq)
        as [H1 [H2 H3]].
      fold (afterWindow now s) in H1, H2, H3.
      destruct (afterWindow now s) as [s2 d] eqn:Haw. cbn [fst snd] in *.
      eexists. split; [reflexivity|].
      cbn [started rateLimitQueue drains resetTime setRuntime].
      split; [exact H1|]. split; [exact H2|]. subst d.
      apply in_or_app. right. now left.
    + destruct Hadm as [Hw Hroom].
      destruct (Z.leb_spec w now) as [_|C]; [|lia].
      destruct (loopHead_begins now s request rest Hq Hroom) as [H1 [H2 H3]].
      destruct (loopHead rateLimit now s) as [s2 d] eqn:Hlh. cbn [fst snd] in *.
      eexists. split; [reflexivity|].
      cbn [started rateLimitQueue drains resetTime setRuntime].
      split; [exact H1|]. split; [exact H2|]. subst d.
      apply in_or_app. right. now left.
Qed.

(** C3. Units begin execution in the order of their submission: at every
    reachable state the units begun followed by the units still queued are
    the units submitted; at most one activation of the drain loop exists,
    and one exists exactly while the flag is up; a submission that arrives
    while the flag is up only appends to the queue; every step either
    begins nothing or begins the oldest queued unit; and a turn of the
    drain loop that comes to its admission check with room in the window
    does begin the oldest queued unit, takes it off the queue and awaits
    it. *)
Theorem units_start_in_submission_order s :
  reachable rateLimit spacing s ->
  map startedUnit (started s) ++ rateLimitQueue s = submitted s /\
  (List.length (drains s) <= 1)%nat /\
  (isProcessingQueue s = true <-> List.length (drains s) = 1%nat) /\
  (forall now u, isProcessingQueue s = true ->
     let s' := rateLimitRequest rateLimit now u s in
     rateLimitQueue s' = rateLimitQueue s ++ [u] /\
     started s' = started s /\ drains s' = drains s /\
     isProcessingQueue s' = true) /\
  (forall now ev s', step rateLimit spacing now ev s = Some s' ->
     takesOldest now (queueWith ev s) s s') /\
  (forall now ev request rest,
     clock s <= now ->
     queueWith ev s = request :: rest ->
     admits rateLimit now ev s ->
     exists s',
       step rateLimit spacing now ev s = Some s' /\
       started s' = started s ++ [mkStart request now (resetTime s')] /\
       rateLimitQueue s' = rest /\
       drains s' = [AwaitRequest request]).
Proof.
  intros Hr. pose proof (reachable_control s Hr) as Hctl.
  split; [exact (reachable_fifo s Hr)|].
  split; [|split; [|split; [|split]]].
  - unfold control in Hctl.
    destruct (drains s) as [|p [|]]; cbn; [lia | lia | contradiction].
  - unfold control in Hctl.
    destruct (drains s) as [|p [|]]; cbn; [| |contradiction].
    + destruct Hctl as [-> _]. split; [discriminate | intros H; lia].
    + destruct Hctl as [-> _]. split; reflexivity.
  - intros now u Hflag s'. subst s'. unfold rateLimitRequest, processQueue.
    cbn [isProcessingQueue]. rewrite Hflag. cbn [orb fst snd spawn].
    cbn. rewrite app_nil_r. repeat split; assumption.
  - intros now ev s'. apply step_takes.
  - intros now ev request rest Hclock Hq Hadm.
    destruct (step_begins now ev s request rest Hclock Hq Hadm)
      as [s' [Hstep [Hst [Hqu Hin]]]].
    exists s'. split; [exact Hstep|]. split; [exact Hst|]. split; [exact Hqu|].
    assert (Hc' : control s').
    { destruct Hr as [t0 [trace Hrun]].
      apply (reachable_control s'). exists t0, (trace ++ [(now, ev)]).
      clear - Hrun Hstep. revert Hrun. generalize (init (Unit:=Unit) t0).
      induction trace as [|[t e] trace IH]; intros s0; cbn [run app].
      - intros [= ->]. now rewrite Hstep.
      - destruct (step rateLimit spacing t e s0); [apply IH | discriminate]. }
    unfold control in Hc'.
    destruct (drains s') as [|p [|]]; [destruct Hin | | contradiction].
    destruct Hin as [->|[]]. reflexivity.
Qed.

(** *** Quota *)

Lemma window_by_time (now : Z) s (W : Z) :
  accounting rateLimit now s -> In W (windowEnds s) ->
  startsInWindow W s = startsWithEnd W s.
Proof.
  intros [Hc Hcur Hq Htimes Hd Hw] HW. unfold startsInWindow, startsWithEnd.
  apply filter_ext_in. intros e He. unfold inWindow.
  destruct (Htimes e He) as [H1 [H2 H3]].
  destruct HW as [<-|HW].
  - destruct (Z.eqb_spec (windowEnd e) (resetTime s));
      destruct (Z.leb_spec (resetTime s - 60000) (startedAt e));
      destruct (Z.ltb_spec (startedAt e) (resetTime s)); cbn; lia || reflexivity.
  - apply in_map_iff in HW. destruct HW as [e' [<- He']].
    pose proof (Hd e e' He He') as Hdis.
    destruct (Z.eqb_spec (windowEnd e) (windowEnd e'));
      destruct (Z.leb_spec (windowEnd e' - 60000) (startedAt e));
      destruct (Z.ltb_spec (startedAt e) (windowEnd e')); cbn; lia || reflexivity.
Qed.

(** C2. With a quota of at least one, in every reachable state the counter
    is within the quota, every unit began inside the 60-second window that
    was current, and in each of the scheduler's windows at most
    [rateLimit] units began; a loop turn at or after [resetTime] resets
    the counter to 0 and moves [resetTime] to 60 seconds after [now]; a
    loop turn at a full counter begins nothing and suspends until
    [resetTime]. *)
Theorem quota_per_window s :
  1 <= rateLimit -> reachable rateLimit spacing s ->
  requestCount s <= rateLimit /\
  (forall e, In e (started s) ->
     windowEnd e - 60000 <= startedAt e < windowEnd e) /\
  (forall W, In W (windowEnds s) ->
     Z.of_nat (List.length (startsInWindow W s)) <= rateLimit) /\
  (forall now, resetTime s <= now -> rateLimitQueue s <> [] ->
     loopHead rateLimit now s = shiftAndStart now (resetWindow now s) /\
     requestCount (resetWindow now s) = 0 /\
     resetTime (resetWindow now s) = now + 60000 /\
     resetTime s + 60000 <= resetTime (resetWindow now s)) /\
  (forall now, now < resetTime s -> rateLimitQueue s <> [] ->
     rateLimit <= requestCount s ->
     loopHead rateLimit now s = (s, Some (AwaitWindow (resetTime s))) /\
     started (fst (loopHead rateLimit now s)) = started s /\
     forall later,
       resume rateLimit spacing later (AwaitWindow (resetTime s)) s
       = if resetTime s <=? later then Some (afterWindow later s) else None).
Proof.
  intros HL Hr. pose proof (reachable_accounting s HL Hr) as Hacc.
  split; [apply (acc_count _ _ _ _ Hacc)|].
  split; [intros e He; apply (acc_times _ _ _ _ Hacc e He)|].
  split; [|split].
  - intros W HW. rewrite (window_by_time _ _ _ Hacc HW).
    apply (acc_quota _ _ _ _ Hacc).
  - intros now Hnow Hq.
    split; [|split; [reflexivity|split; [reflexivity|cbn; lia]]].
    unfold loopHead. destruct (rateLimitQueue s) as [|u rest]; [congruence|].
    destruct (Z.geb_spec now (resetTime s)); [|lia].
    cbn [resetWindow requestCount].
    destruct (Z.geb_spec 0 rateLimit); [lia | reflexivity].
  - intros now Hnow Hq Hfull.
    assert (Hlh : loopHead rateLimit now s = (s, Some (AwaitWindow (resetTime s)))).
    { unfold loopHead. destruct (rateLimitQueue s) as [|u rest]; [congruence|].
      destruct (Z.geb_spec now (resetTime s)); [lia|].
      destruct (Z.geb_spec (requestCount s) rateLimit); [|lia].
      do 3 f_equal. lia. }
    rewrite Hlh. repeat split.
Qed.

End SchedulerFacts.

(** Both configured quotas are at least one. *)
Lemma configured_quotas_positive :
  1 <= openWeather_rateLimit /\ 1 <= mySportsFeeds_rateLimit.
Proof. unfold openWeather_rateLimit, mySportsFeeds_rateLimit. lia. Qed.

Lemma demo_trace_reachable :
  reachable openWeather_rateLimit openWeather_spacing
    (stateAfter openWeather_rateLimit openWeather_spacing demoTrace).
Proof. exists 0, demoTrace. vm_compute. reflexivity. Defined.

Lemma quota_per_window_witness :
  let s := stateAfter openWeather_rateLimit openWeather_spacing demoTrace in
  requestCount s <= openWeather_rateLimit /\
  (forall e, In e (started s) ->
     windowEnd e - 60000 <= startedAt e < windowEnd e) /\
  (forall W, In W (windowEnds s) ->
     Z.of_nat (List.length (startsInWindow W s)) <= openWeather_rateLimit).
Proof.
  assert (HL : 1 <= openWeather_rateLimit) by (unfold openWeather_rateLimit; lia).
  destruct (quota_per_window nat openWeather_rateLimit openWeather_spacing
              (stateAfter openWeather_rateLimit openWeather_spacing demoTrace)
              HL demo_trace_reachable) as [H1 [H2 [H3 _]]].
  intros s. split; [exact H1 | split; [exact H2 | exact H3]].
Defined.

Lemma demo_turn_reachable :
  reachable openWeather_rateLimit openWeather_spacing
    (stateAfter openWeather_rateLimit openWeather_spacing (firstn 4 demoTrace)).
Proof. exists 0, (firstn 4 demoTrace). vm_compute. reflexivity. Defined.

Lemma units_start_in_submission_order_witness :
  let s := stateAfter openWeather_rateLimit openWeather_spacing
             (firstn 4 demoTrace) in
  map startedUnit (started s) ++ rateLimitQueue s = submitted s /\
  (List.length (drains s) <= 1)%nat /\
  exists s',
    step openWeather_rateLimit openWeather_spacing 250 (Resume 0) s = Some s' /\
    started s' = started s ++ [mkStart 2%nat 250 (resetTime s')] /\
    rateLimitQueue s' = [3%nat] /\
    drains s' = [AwaitRequest 2%nat].
Proof.
  destruct (units_start_in_submission_order nat openWeather_rateLimit
              openWeather_spacing
              (stateAfter openWeather_rateLimit openWeather_spacing
                 (firstn 4 demoTrace))
              demo_turn_reachable) as [H1 [H2 [_ [_ [_ H6]]]]].
  intros s. split; [exact H1 | split; [exact H2|]].
  apply (H6 250 (Resume 0) 2%nat [3%nat]).
  - vm_compute. discriminate.
  - vm_compute. reflexivity.
  - vm_compute. split; [discriminate | reflexivity].
Defined.

(** The run with a quota of two: the third unit waits for the window to end
    and begins in the next window. *)
Example small_quota_run :
  started (stateAfter 2 200 demoTrace)
  = [mkStart 1%nat 0 60000; mkStart 2%nat 250 60000;
     mkStart 3%nat 60000 120000] /\
  drains (stateAfter 2 200 (firstn 7 demoTrace)) = [AwaitWindow 60000].
Proof. split; vm_compute; reflexivity. Qed.

(** A quota below one is outside the theorem: with quota 0 every unit still
    begins, one per window. *)
Example zero_quota_run :
  requestCount
    (stateAfter 0 200 [(0, Submit 1%nat); (60000, Resume 0)]) = 1.
Proof. vm_compute. reflexivity. Qed.

(* ================================================================== *)
(** ** The scheduler: pacing, sliding intervals, draining *)
(* ================================================================== *)

Lemma ordered_pairs_snoc {A : Type} (R : A -> A -> Prop) (l : list A) (x : A) :
  ForallOrdPairs R l -> Forall (fun y => R y x) l ->
  ForallOrdPairs R (l ++ [x]).
Proof.
  induction 1 as [|a l Ha Hl IH]; intros Hx; cbn.
  - constructor; [constructor | constructor].
  - apply Forall_cons_iff in Hx. destruct Hx as [Hax Hlx].
    constructor; [|now apply IH].
    apply Forall_app. split; [assumption | now constructor].
Qed.

Lemma filter_filter_length {A : Type} (f g : A -> bool) (l : list A) :
  (List.length (filter f (filter g l)) <= List.length (filter f l))%nat.
Proof.
  induction l as [|x l IH]; cbn; [lia|].
  destruct (g x) eqn:G; destruct (f x) eqn:F; cbn; rewrite ?F; cbn; lia.
Qed.

Section SchedulerMore.

Variable Unit : Type.
Variable rateLimit : Z.
Variable spacing : Z.

Implicit Types (s : state Unit) (e : start Unit) (p : suspended Unit).

Lemma shiftAndStart_shape (now : Z) s :
  (snd (shiftAndStart now s) = None /\
   started (fst (shiftAndStart now s)) = started s /\
   rateLimitQueue (fst (shiftAndStart now s)) = [] /\
   rateLimitQueue s = []) \/
  (exists u rest,
     rateLimitQueue s = u :: rest /\
     snd (shiftAndStart now s) = Some (AwaitRequest u) /\
     started (fst (shiftAndStart now s))
     = started s ++ [mkStart u now (resetTime s)] /\
     rateLimitQueue (fst (shiftAndStart now s)) = rest).
Proof.
  unfold shiftAndStart. destruct (rateLimitQueue s) as [|u rest] eqn:Hq; cbn.
  - left. repeat split. assumption.
  - right. exists u, rest. repeat split.
Qed.

Lemma loopHead_shape (now : Z) s :
  (snd (loopHead rateLimit now s) = None /\
   started (fst (loopHead rateLimit now s)) = started s /\
   rateLimitQueue (fst (loopHead rateLimit now s)) = [] /\
   rateLimitQueue s = []) \/
  (exists w,
     snd (loopHead rateLimit now s) = Some (AwaitWindow w) /\
     started (fst (loopHead rateLimit now s)) = started s /\
     rateLimitQueue (fst (loopHead rateLimit now s)) = rateLimitQueue s) \/
  (exists u rest W,
     rateLimitQueue s = u :: rest /\
     snd (loopHead rateLimit now s) = Some (AwaitRequest u) /\
     started (fst (loopHead rateLimit now s)) = started s ++ [mkStart u now W] /\
     rateLimitQueue (fst (loopHead rateLimit now s)) = rest).
Proof.
  unfold loopHead. destruct (rateLimitQueue s) as [|u rest] eqn:Hq.
  - left. cbn. repeat split. assumption.
  - right. destruct (now >=? resetTime s).
    + destruct (requestCount (resetWindow now s) >=? rateLimit).
      * left. eexists. cbn. repeat split. assumption.
      * right.
        destruct (shiftAndStart_shape now (resetWindow now s))
          as [[_ [_ [_ H]]]|[u' [rest' [H1 [H2 [H3 H4]]]]]];
          cbn [resetWindow rateLimitQueue] in *; [congruence|].
        exists u', rest', (resetTime (resetWindow now s)).
        repeat split; try assumption. congruence.
    + destruct (requestCount s >=? rateLimit).
      * left. eexists. cbn. repeat split. assumption.
      * right.
        destruct (shiftAndStart_shape now s)
          as [[_ [_ [_ H]]]|[u' [rest' [H1 [H2 [H3 H4]]]]]]; [congruence|].
        exists u', rest', (resetTime s). repeat split; try assumption. congruence.
Qed.

(** *** Pacing *)

Lemma pace_init (t0 : Z) : pace spacing (@init Unit t0).
Proof. split; cbn; constructor. Qed.

(** After a start at [now] that is a spacing delay after every earlier
    start, the history is paced for an activation awaiting its request. *)
Lemma pace_after_start (now : Z) (l : list (start Unit)) (u : Unit) (W : Z) :
  0 <= spacing ->
  ForallOrdPairs (apart spacing) l ->
  Forall (fun e => startedAt e + spacing <= now) l ->
  ForallOrdPairs (apart spacing) (l ++ [mkStart u now W]) /\
  Forall (fun e => startedAt e <= now) (l ++ [mkStart u now W]).
Proof.
  intros Hsp Hord Hall. split.
  - apply ordered_pairs_snoc; [assumption|].
    eapply Forall_impl; [|exact Hall]. intros e He. unfold apart. cbn in *. lia.
  - apply Forall_app. split.
    + eapply Forall_impl; [|exact Hall]. intros e He. cbn in *. lia.
    + constructor; [cbn; lia | constructor].
Qed.

Lemma pace_step (now : Z) (ev : event Unit) s s' :
  0 <= spacing -> control s -> pace spacing s ->
  step rateLimit spacing now ev s = Some s' -> pace spacing s'.
Proof.
  intros Hsp Hctl [Hord Hlast]. unfold step.
  destruct (Z.ltb_spec now (clock s)) as [|Hclk]; [discriminate|].
  unfold control in Hctl.
  destruct ev as [u|i].
  - intros [= <-]. unfold rateLimitRequest, processQueue.
    cbn [isProcessingQueue rateLimitQueue drains].
    destruct (drains s) as [|p [|]] eqn:Hdr; [| |contradiction].
    + destruct Hctl as [Hflag Hempty]. rewrite Hflag, Hempty.
      cbn [app List.length Nat.eqb orb].
      match goal with |- context [loopHead _ _ ?x] => set (s1 := x) end.
      destruct (loopHead_shape now s1)
        as [[H1 [H2 [H3 H4]]]|[[w [H1 [H2 H3]]]|[u' [rest [W [H0 [H1 [H2 H3]]]]]]]].
      * discriminate H4.
      * unfold pace. cbn [setRuntime drains started clock]. rewrite H1, H2.
        cbn [spawn]. split; [exact Hord|].
        eapply Forall_impl; [|exact Hlast]. intros e He. cbn in *. lia.
      * unfold pace. cbn [setRuntime drains started clock]. rewrite H1, H2.
        cbn [spawn]. apply pace_after_start; [assumption | exact Hord |].
        eapply Forall_impl; [|exact Hlast]. intros e He. cbn in *. lia.
    + destruct Hctl as [Hflag Hp]. rewrite Hflag. cbn [orb fst snd spawn app].
      unfold pace. cbn [setRuntime drains started clock]. split; [exact Hord|].
      destruct p as [w|u'|w]; (eapply Forall_impl; [|exact Hlast]);
        intros e He; cbn in *; lia.
  - destruct (drains s) as [|p [|]] eqn:Hdr; [| |contradiction].
    + destruct i; discriminate.
    + destruct i as [|i]; [|destruct i; discriminate].
      cbn [nth_error firstn skipn app]. destruct Hctl as [Hflag Hp].
      destruct p as [w|u|w]; cbn [resume].
      * destruct (Z.leb_spec w now) as [Hw|]; [|discriminate].
        pose proof (shiftAndStart_shape now (resetWindow now s)) as Hshape.
        fold (afterWindow now s) in Hshape.
        destruct (afterWindow now s) as [s2 d] eqn:Haw. cbn [fst snd] in Hshape.
        intros [= <-]. rewrite app_nil_r.
        destruct Hshape as [[H1 [H2 [H3 H4]]]|[u' [rest [H0 [H1 [H2 H3]]]]]];
          unfold pace; cbn [setRuntime drains started clock]; rewrite H1, H2;
          cbn [spawn resetWindow started].
        -- split; [exact Hord|].
           eapply Forall_impl; [|exact Hlast]. intros e He. cbn in *. lia.
        -- apply pace_after_start; [assumption | exact Hord |].
           eapply Forall_impl; [|exact Hlast]. intros e He. cbn in *. lia.
      * intros [= <-]. cbn [spawn app]. unfold pace.
        cbn [setRuntime drains started clock]. split; [exact Hord|].
        eapply Forall_impl; [|exact Hlast]. intros e He. cbn in *. lia.
      * destruct (Z.leb_spec w now) as [Hw|]; [|discriminate].
        pose proof (loopHead_shape now s) as Hshape.
        destruct (loopHead rateLimit now s) as [s2 d] eqn:Hlh.
        cbn [fst snd] in Hshape. intros [= <-]. rewrite app_nil_r.
        destruct Hshape
          as [[H1 [H2 [H3 H4]]]|[[w' [H1 [H2 H3]]]|[u' [rest [W [H0 [H1 [H2 H3]]]]]]]];
          unfold pace; cbn [setRuntime drains started clock]; rewrite H1, H2;
          cbn [spawn].
        -- split; [exact Hord|].
           eapply Forall_impl; [|exact Hlast]. intros e He. cbn in *. lia.
        -- split; [exact Hord|].
           eapply Forall_impl; [|exact Hlast]. intros e He. cbn in *. lia.
        -- apply pace_after_start; [assumption | exact Hord |].
           eapply Forall_impl; [|exact Hlast]. intros e He. cbn in *. lia.
Qed.

(** X1. Any two units of one scheduler begin at least the spacing delay apart,
    the earlier in the history first. *)
Theorem starts_are_spaced s :
  0 <= spacing -> reachable rateLimit spacing s ->
  ForallOrdPairs (apart spacing) (started s).
Proof.
  intros Hsp [t0 [trace Hrun]].
  assert (H : control s /\ pace spacing s).
  { apply (run_preserves Unit rateLimit spacing (fun s => control s /\ pace spacing s))
      with (trace := trace) (s := init t0); [| |assumption].
    - intros now ev s1 s2 [Hc Hp] Hs. split.
      + now apply (control_step Unit rateLimit spacing now ev s1).
      + now apply (pace_step now ev s1).
    - split; [apply control_init | apply pace_init]. }
  exact (proj1 (proj2 H)).
Qed.


(** *** Sliding intervals *)

(** X2. At most two of the scheduler's windows meet an interval of 60 seconds,
    so at most twice the quota of units begin inside any such interval. *)
Theorem sliding_interval_bound s (T : Z) :
  1 <= rateLimit -> reachable rateLimit spacing s ->
  Z.of_nat (List.length (filter (inInterval T) (started s))) <= 2 * rateLimit.
Proof.
  intros HL Hr.
  pose proof (reachable_accounting Unit rateLimit spacing s HL Hr) as Hacc.
  pose proof (acc_quota _ _ _ _ Hacc) as Hquota.
  pose proof (acc_times _ _ _ _ Hacc) as Htimes.
  pose proof (acc_disjoint _ _ _ _ Hacc) as Hdis.
  unfold startsWithEnd in Hquota.
  remember (filter (inInterval T) (started s)) as F eqn:EF.
  assert (HF : forall e, In e F ->
            In e (started s) /\ T < windowEnd e < T + 120000).
  { intros e He. rewrite EF in He. apply filter_In in He.
    destruct He as [He Hin].
    split; [assumption|]. destruct (Htimes e He) as [H1 _].
    unfold inInterval in Hin. apply andb_true_iff in Hin.
    destruct Hin as [Ha Hb]. apply Z.leb_le in Ha. apply Z.ltb_lt in Hb. lia. }
  assert (Hsub : forall f,
            (List.length (filter f F) <= List.length (filter f (started s)))%nat).
  { intros f. rewrite EF. apply filter_filter_length. }
  clear EF.
  destruct F as [|e0 F']; [cbn [List.length Z.of_nat]; lia|].
  remember (e0 :: F') as F eqn:EF.
  assert (He0 : In e0 F) by (rewrite EF; now left).
  clear EF F'.
  set (A := windowEnd e0).
  rewrite <- (filter_length (fun e => windowEnd e =? A) F).
  assert (H1 : Z.of_nat (List.length (filter (fun e => windowEnd e =? A) F))
               <= rateLimit).
  { specialize (Hquota A). specialize (Hsub (fun e => windowEnd e =? A)). lia. }
  remember (filter (fun e => negb (windowEnd e =? A)) F) as G eqn:EG.
  assert (H2 : Z.of_nat (List.length G) <= rateLimit).
  { assert (HG : forall e, In e G -> In e F /\ windowEnd e <> A).
    { intros e He. rewrite EG in He. apply filter_In in He.
      destruct He as [He Hne]. split; [assumption|].
      apply negb_true_iff in Hne. now apply Z.eqb_neq in Hne. }
    assert (HGsub : forall f,
              (List.length (filter f G) <= List.length (filter f F))%nat).
    { intros f. rewrite EG. apply filter_filter_length. }
    clear EG.
    destruct G as [|e1 G']; [cbn [List.length Z.of_nat]; lia|].
    remember (e1 :: G') as G eqn:EG.
    assert (He1 : In e1 G) by (rewrite EG; now left).
    clear EG G'.
    set (B := windowEnd e1).
    assert (Hall : forall e, In e G -> (windowEnd e =? B) = true).
    { intros e He. apply Z.eqb_eq.
      destruct (HG e He) as [HeF HeA]. destruct (HG e1 He1) as [He1F He1A].
      destruct (HF e HeF) as [Hes He']. destruct (HF e1 He1F) as [He1s He1'].
      destruct (HF e0 He0) as [He0s He0'].
      pose proof (Hdis e e1 Hes He1s). pose proof (Hdis e e0 Hes He0s).
      pose proof (Hdis e1 e0 He1s He0s). subst A B. lia. }
    assert (HGB : filter (fun e => windowEnd e =? B) G = G).
    { clear - Hall. induction G as [|x G IH]; [reflexivity|]. cbn.
      rewrite (Hall x) by now left. f_equal. apply IH.
      intros e He. apply Hall. now right. }
    rewrite <- HGB.
    specialize (HGsub (fun e => windowEnd e =? B)).
    specialize (Hsub (fun e => windowEnd e =? B)).
    specialize (Hquota B). lia. }
  rewrite Nat2Z.inj_add. lia.
Qed.

(** *** Draining *)

Lemma run_app (t1 t2 : list (Z * event Unit)) s :
  run rateLimit spacing (t1 ++ t2) s =
  match run rateLimit spacing t1 s with
  | Some s1 => run rateLimit spacing t2 s1
  | None => None
  end.
Proof.
  revert s. induction t1 as [|[now ev] t1 IH]; intros s; cbn [app run]; [reflexivity|].
  destruct (step rateLimit spacing now ev s); [apply IH | reflexivity].
Qed.

Lemma reachable_run (trace : list (Z * event Unit)) s s' :
  reachable rateLimit spacing s -> run rateLimit spacing trace s = Some s' ->
  reachable rateLimit spacing s'.
Proof.
  intros [t0 [tr Hrun]] Hs. exists t0, (tr ++ trace). now rewrite run_app, Hrun.
Qed.

(** Resuming the one activation at its wake time is a step. *)
Lemma resume_step s p :
  drains s = [p] ->
  exists s1,
    step rateLimit spacing (wakeTime (clock s) p) (Resume 0) s = Some s1 /\
    match p with
    | AwaitWindow _ =>
        s1 = setRuntime (wakeTime (clock s) p)
               (spawn (snd (afterWindow (wakeTime (clock s) p) s)))
               (fst (afterWindow (wakeTime (clock s) p) s))
    | AwaitRequest _ =>
        s1 = setRuntime (clock s) [AwaitSpacing (clock s + spacing)] s
    | AwaitSpacing _ =>
        s1 = setRuntime (wakeTime (clock s) p)
               (spawn (snd (loopHead rateLimit (wakeTime (clock s) p) s)))
               (fst (loopHead rateLimit (wakeTime (clock s) p) s))
    end.
Proof.
  intros Hdr. unfold step. rewrite Hdr. cbn [nth_error firstn skipn app].
  assert (Hclk : (wakeTime (clock s) p <? clock s) = false).
  { apply Z.ltb_ge. destruct p; cbn; lia. }
  rewrite Hclk. destruct p as [w|u|w]; cbn [resume wakeTime].
  - assert (Hw : (w <=? Z.max (clock s) w) = true) by (apply Z.leb_le; lia).
    rewrite Hw. destruct (afterWindow (Z.max (clock s) w) s) as [s2 d].
    rewrite app_nil_r. eexists. split; reflexivity.
  - eexists. split; reflexivity.
  - assert (Hw : (w <=? Z.max (clock s) w) = true) by (apply Z.leb_le; lia).
    rewrite Hw. destruct (loopHead rateLimit (Z.max (clock s) w) s) as [s2 d].
    rewrite app_nil_r. eexists. split; reflexivity.
Qed.

Lemma drain_from (n : nat) :
  forall s, control s -> List.length (rateLimitQueue s) = n ->
  exists trace s',
    run rateLimit spacing trace s = Some s' /\ drained s' /\
    submitted s' = submitted s.
Proof.
  induction n as [n IH] using lt_wf_ind. intros s Hctl Hlen.
  (* one resumption, then the rest of the trace *)
  assert (Hgo : forall s0 now s1,
            step rateLimit spacing now (Resume 0) s0 = Some s1 ->
            (exists trace s', run rateLimit spacing trace s1 = Some s' /\
               drained s' /\ submitted s' = submitted s1) ->
            exists trace s', run rateLimit spacing trace s0 = Some s' /\
               drained s' /\ submitted s' = submitted s0).
  { intros s0 now s1 Hstep [trace [s' [Hrun [Hd Hsub]]]].
    exists ((now, Resume 0) :: trace), s'. cbn [run]. rewrite Hstep.
    split; [assumption|]. split; [assumption|].
    rewrite Hsub. apply (step_submitted Unit rateLimit spacing now (Resume 0) s0 s1 Hstep). }
  (* a state whose activation has ended *)
  assert (Hend : forall s1, control s1 -> drains s1 = [] ->
            exists trace s', run rateLimit spacing trace s1 = Some s' /\
               drained s' /\ submitted s' = submitted s1).
  { intros s1 Hc Hd. exists [], s1. cbn [run]. split; [reflexivity|].
    split; [|reflexivity]. unfold control in Hc. rewrite Hd in Hc.
    destruct Hc as [Hf Hq]. repeat split; assumption. }
  assert (Hwin : forall s0 w, control s0 ->
            List.length (rateLimitQueue s0) = n -> drains s0 = [AwaitWindow w] ->
            exists trace s', run rateLimit spacing trace s0 = Some s' /\
               drained s' /\ submitted s' = submitted s0).
  { intros s0 w Hc Hl Hd.
    destruct (resume_step s0 _ Hd) as [s1 [Hstep Hs1]].
    apply (Hgo s0 _ s1 Hstep).
    pose proof (control_step Unit rateLimit spacing _ _ s0 s1 Hc Hstep) as Hc1.
    unfold afterWindow in Hs1.
    destruct (shiftAndStart_shape (wakeTime (clock s0) (@AwaitWindow Unit w))
                (resetWindow (wakeTime (clock s0) (@AwaitWindow Unit w)) s0))
      as [[H1 [H2 [H3 H4]]]|[u [rest [H0 [H1 [H2 H3]]]]]].
    - apply Hend; [assumption|]. rewrite Hs1, H1. reflexivity.
    - cbn [resetWindow rateLimitQueue] in H0.
      apply (IH (List.length rest)); [rewrite <- Hl, H0; cbn; lia | assumption |].
      rewrite Hs1. cbn [setRuntime rateLimitQueue]. now rewrite H3. }
  assert (Hreq : forall s0 u, control s0 ->
            (List.length (rateLimitQueue s0) < n)%nat -> drains s0 = [AwaitRequest u] ->
            exists trace s', run rateLimit spacing trace s0 = Some s' /\
               drained s' /\ submitted s' = submitted s0).
  { intros s0 u Hc Hl Hd. now apply (IH (List.length (rateLimitQueue s0))). }
  assert (Hsp : forall s0 w, control s0 ->
            List.length (rateLimitQueue s0) = n -> drains s0 = [AwaitSpacing w] ->
            exists trace s', run rateLimit spacing trace s0 = Some s' /\
               drained s' /\ submitted s' = submitted s0).
  { intros s0 w Hc Hl Hd.
    destruct (resume_step s0 _ Hd) as [s1 [Hstep Hs1]].
    apply (Hgo s0 _ s1 Hstep).
    pose proof (control_step Unit rateLimit spacing _ _ s0 s1 Hc Hstep) as Hc1.
    destruct (loopHead_shape (wakeTime (clock s0) (@AwaitSpacing Unit w)) s0)
      as [[H1 [H2 [H3 H4]]]|[[w' [H1 [H2 H3]]]|[u [rest [W [H0 [H1 [H2 H3]]]]]]]].
    - apply Hend; [assumption|]. rewrite Hs1, H1. reflexivity.
    - apply (Hwin s1 w'); [assumption | |].
      + rewrite Hs1. cbn [setRuntime rateLimitQueue]. now rewrite H3.
      + rewrite Hs1, H1. reflexivity.
    - apply (Hreq s1 u); [assumption | |].
      + rewrite Hs1. cbn [setRuntime rateLimitQueue]. rewrite H3, <- Hl, H0.
        cbn. lia.
      + rewrite Hs1, H1. reflexivity. }
  unfold control in Hctl.
  destruct (drains s) as [|p [|]] eqn:Hdr; [| |contradiction].
  - apply Hend; [unfold control; now rewrite Hdr | assumption].
  - assert (Hc : control s) by (unfold control; now rewrite Hdr).
    destruct p as [w|u|w].
    + now apply (Hwin s w).
    + destruct (resume_step s _ Hdr) as [s1 [Hstep Hs1]].
      apply (Hgo s _ s1 Hstep).
      pose proof (control_step Unit rateLimit spacing _ _ s s1 Hc Hstep) as Hc1.
      apply (Hsp s1 (clock s + spacing)); [assumption | |]; rewrite Hs1;
        [cbn; assumption | reflexivity].
    + now apply (Hsp s w).
Qed.

(** X3. No unit is stranded: from every reachable state the event loop can run
    the scheduler until nothing is queued and no activation is left, and
    then every unit ever submitted has begun, in the order of submission. *)
Theorem queue_can_drain s :
  reachable rateLimit spacing s ->
  exists trace s',
    run rateLimit spacing trace s = Some s' /\ drained s' /\
    map startedUnit (started s') = submitted s.
Proof.
  intros Hr.
  destruct (drain_from (List.length (rateLimitQueue s)) s
              (reachable_control Unit rateLimit spacing s Hr) eq_refl)
    as [trace [s' [Hrun [Hd Hsub]]]].
  exists trace, s'. split; [assumption|]. split; [assumption|].
  pose proof (reachable_fifo Unit rateLimit spacing s'
                (reachable_run trace s s' Hr Hrun)) as Hf.
  unfold fifo in Hf. destruct Hd as [Hq _]. rewrite Hq, app_nil_r in Hf.
  congruence.
Qed.

(** X4. While a unit is queued the flag is up and exactly one activation of the
    drain loop exists. *)
Theorem queued_unit_has_drain s :
  reachable rateLimit spacing s -> rateLimitQueue s <> [] ->
  isProcessingQueue s = true /\ exists p, drains s = [p].
Proof.
  intros Hr Hq. pose proof (reachable_control Unit rateLimit spacing s Hr) as Hc.
  unfold control in Hc. destruct (drains s) as [|p [|]]; [| |contradiction].
  - destruct Hc as [_ He]. contradiction.
  - destruct Hc as [Hf _]. split; [assumption | now exists p].
Qed.

End SchedulerMore.

(* ================================================================== *)
(** ** Ranges of the metric calculators *)
(* ================================================================== *)

Import Feeds Props.

Lemma div_Fin (p q : Q) : ~ (q == 0)%Q -> div (Fin p) (Fin q) = Fin (p / q).
Proof.
  intros Hq. unfold div. destruct (Qeq_bool q 0) eqn:E; [|reflexivity].
  apply Qeq_bool_iff in E. contradiction.
Qed.

(** Discharges that a divisor is not zero: an assumption, or a literal. *)
Ltac nonzero := first [assumption | unfold Qeq; simpl; lia].

(** Linear arithmetic after turning divisions by literals into products. *)
Ltac qlra := unfold Qdiv in *; cbn [Qinv Qnum Qden] in *; lra.

Lemma min_100_within (x : Q) : (0 <= x)%Q -> within 0 100 (min (Fin 100) (Fin x)).
Proof.
  intros Hx. unfold min, ltb. destruct (Qle_bool 100 x) eqn:E; cbn [negb]; qbool.
  - exists 100%Q. split; [reflexivity | lra].
  - exists x. split; [reflexivity | lra].
Qed.

Lemma max_0_within (x : Q) : (x <= 100)%Q -> within 0 100 (max (Fin 0) (Fin x)).
Proof.
  intros Hx. unfold max, ltb. destruct (Qle_bool x 0) eqn:E; cbn [negb]; qbool.
  - exists 0%Q. split; [reflexivity | lra].
  - exists x. split; [reflexivity | lra].
Qed.

Lemma clamp_within (x : Q) :
  within 0 100 (max (Fin 0) (min (Fin 100) (Fin x))).
Proof.
  unfold min, ltb. destruct (Qle_bool 100 x) eqn:E; cbn [negb]; qbool;
    apply max_0_within; lra.
Qed.

(** [Math.round] of a number that is within a half of an integer range. *)
Lemma round_Fin_between (lo hi : Z) (q : Q) :
  (inject_Z lo - (1 # 2) <= q)%Q -> (q < inject_Z hi + (1 # 2))%Q ->
  integerWithin lo hi (round (Fin q)).
Proof.
  intros Hlo Hhi. exists (Qfloor (q + (1 # 2))). split; [reflexivity|]. split.
  - rewrite <- (Qfloor_Z lo). apply Qfloor_resp_le. lra.
  - assert (H : (inject_Z (Qfloor (q + (1 # 2))) < inject_Z (hi + 1))%Q).
    { eapply Qle_lt_trans; [apply Qfloor_le|]. rewrite inject_Z_plus.
      change (inject_Z 1) with 1%Q. lra. }
    rewrite <- Zlt_Qlt in H. lia.
Qed.

Lemma round_Fin_range (lo hi : Z) (q : Q) :
  (inject_Z lo <= q <= inject_Z hi)%Q -> integerWithin lo hi (round (Fin q)).
Proof. intros [H1 H2]. apply round_Fin_between; lra. Qed.

Lemma quotient_nonneg (a c : Q) : (0 <= a)%Q -> (0 < c)%Q -> (0 <= a / c)%Q.
Proof. intros Ha Hc. apply Qle_shift_div_l; [assumption|]. lra. Qed.

Lemma quotient_le_1 (a c : Q) : (a <= c)%Q -> (0 < c)%Q -> (a / c <= 1)%Q.
Proof. intros Ha Hc. apply Qle_shift_div_r; [assumption|]. lra. Qed.

Lemma integerWithin_Q (lo hi : Z) (x : num) :
  integerWithin lo hi x -> within (inject_Z lo) (inject_Z hi) x.
Proof.
  intros [n [-> [H1 H2]]]. exists (inject_Z n). split; [reflexivity|].
  rewrite <- !Zle_Qle. lia.
Qed.

(** *** Injury impact *)

Lemma injuryStatusImpact_range (i : PlayerInjury) : 0 <= injuryStatusImpact i <= 100.
Proof.
  unfold injuryStatusImpact.
  repeat match goal with |- context [if ?b then _ else _] => destruct b end; lia.
Qed.

Lemma weighted_sum_range (l : list PlayerInjury) :
  0 <= sumOver (fun i => injuryStatusImpact i * injuryWeight i) l
    <= 100 * sumOver injuryWeight l.
Proof.
  unfold sumOver. induction l as [|i l IH]; cbn [fold_right]; [lia|].
  pose proof (injuryStatusImpact_range i). pose proof (injuryWeight_pos i). nia.
Qed.

Lemma calculateInjuryImpact_average (injuries : list PlayerInjury) :
  injuries <> [] ->
  calculateInjuryImpact injuries
  = round (Fin (inject_Z (sumOver (fun i => injuryStatusImpact i * injuryWeight i)
                            injuries)
                / inject_Z (sumOver injuryWeight injuries))).
Proof.
  intros Hne. destruct injuries as [|i l]; [congruence|].
  unfold calculateInjuryImpact. cbn [List.length Nat.eqb].
  rewrite injury_fold_sums. cbn [fst snd]. rewrite !Z.add_0_l.
  pose proof (total_weight_pos (i :: l) Hne) as Hpos.
  destruct (Z.gtb_spec (sumOver injuryWeight (i :: l)) 0) as [_|Hle]; [|lia].
  now rewrite div_of_Z by lia.
Qed.

Lemma injury_average_range (injuries : list PlayerInjury) :
  injuries <> [] ->
  (inject_Z 0
   <= inject_Z (sumOver (fun i => (injuryStatusImpact i * injuryWeight i)%Z)
                 injuries)
      / inject_Z (sumOver injuryWeight injuries)
   <= inject_Z 100)%Q.
Proof.
  intros Hne.
  pose proof (total_weight_pos injuries Hne) as Hpos.
  pose proof (weighted_sum_range injuries) as [Hlo Hhi].
  set (ti := sumOver _ injuries) in *.
  set (tw := sumOver injuryWeight injuries) in *.
  assert (Htw : (0 < inject_Z tw)%Q)
    by (change 0%Q with (inject_Z 0); now rewrite <- Zlt_Qlt).
  split.
  - apply Qle_shift_div_l; [assumption|]. change (inject_Z 0) with 0%Q.
    rewrite Qmult_0_l. change 0%Q with (inject_Z 0). now rewrite <- Zle_Qle.
  - apply Qle_shift_div_r; [assumption|]. rewrite <- inject_Z_mult.
    now rewrite <- Zle_Qle.
Qed.

Lemma injuryImpact_within (injuries : list PlayerInjury) :
  exists q, calculateInjuryImpact injuries = Fin q /\
            (inject_Z 0 <= q <= inject_Z 100)%Q.
Proof.
  apply integerWithin_Q.
  destruct injuries as [|i l]; [exists 100; split; [reflexivity | lia]|].
  rewrite calculateInjuryImpact_average by discriminate.
  apply round_Fin_range, injury_average_range. discriminate.
Qed.

(** X5. Whatever the injuries, the injury-impact score is an integer between 0
    and 100. *)
Theorem injury_impact_range (injuries : list PlayerInjury) :
  integerWithin 0 100 (calculateInjuryImpact injuries).
Proof.
  destruct injuries as [|i l].
  - exists 100. split; [reflexivity | lia].
  - assert (Hne : i :: l <> []) by discriminate.
    rewrite (calculateInjuryImpact_average (i :: l) Hne).
    apply round_Fin_range. exact (injury_average_range (i :: l) Hne).
Qed.

(** *** Strength, offense, defense *)

Lemma fifty_within : integerWithin 0 100 (Fin 50).
Proof. exists 50. split; [reflexivity | lia]. Qed.

Lemma teamStrength_range (stats : TeamStats) :
  plausible stats -> integerWithin 0 100 (calculateTeamStrength (Some stats)).
Proof.
  intros [Hg [Hw [Hwg [Hpf [Hpa _]]]]]. unfold calculateTeamStrength.
  destruct (gamesPlayed stats) as [g| | |]; try contradiction.
  destruct (wins stats) as [w| | |]; try contradiction.
  destruct (pointsFor stats) as [pf| | |]; try contradiction.
  destruct (pointsAgainst stats) as [pa| | |]; try contradiction.
  cbn in Hg, Hw, Hwg. unfold gtb, ltb.
  destruct (Qle_bool g 0) eqn:E; cbn [negb]; qbool.
  - destruct (clamp_within (50 + 0 * 2)) as [d [Hd Hdr]].
    cbn [mul add]. rewrite Hd. cbn [mul add]. apply round_Fin_range.
    change (inject_Z 0) with 0%Q. change (inject_Z 100) with 100%Q. lra.
  - assert (Hg0 : ~ (g == 0)%Q) by lra.
    cbn [sub add neg]. rewrite !div_Fin by nonzero. cbn [mul add].
    pose proof (quotient_nonneg w g Hw E) as Hq0.
    pose proof (quotient_le_1 w g Hwg E) as Hq1.
    set (r := (w / g)%Q) in *.
    destruct (clamp_within (50 + (pf + - pa) / g * 2)) as [d [Hd Hdr]].
    rewrite Hd. cbn [mul add]. apply round_Fin_range.
    change (inject_Z 0) with 0%Q. change (inject_Z 100) with 100%Q. lra.
Qed.

Lemma offensivePower_range (stats : TeamStats) :
  plausible stats -> integerWithin 0 100 (calculateOffensivePower (Some stats)).
Proof.
  intros [Hg [_ [_ [Hpf [_ [Hty [_ [_ [_ [Htd [_ [Hrz _]]]]]]]]]]]].
  unfold calculateOffensivePower, offensiveBlend.
  destruct (gamesPlayed stats) as [g| | |]; try contradiction.
  destruct (pointsFor stats) as [pf| | |]; try contradiction.
  destruct (totalYards stats) as [ty| | |]; try contradiction.
  destruct (thirdDownPercentage stats) as [td| | |]; try contradiction.
  destruct (redZonePercentage stats) as [rz| | |]; try contradiction.
  cbn in Hg, Hpf, Hty, Htd, Hrz. cbn [eqb].
  destruct (Qeq_bool g 0) eqn:E; [apply fifty_within|]. qbool.
  assert (Hgp : (0 < g)%Q) by lra.
  rewrite !div_Fin by nonzero. cbn [mul].
  pose proof (quotient_nonneg pf g Hpf Hgp).
  pose proof (quotient_nonneg ty g Hty Hgp).
  set (ppg := (pf / g)%Q) in *. set (ypg := (ty / g)%Q) in *.
  destruct (min_100_within (ppg / 30 * 100)) as [np [Hnp Hnpr]]; [qlra|].
  destruct (min_100_within (ypg / 400 * 100)) as [ny [Hny Hnyr]]; [qlra|].
  rewrite Hnp, Hny. cbn [mul add]. apply round_Fin_range.
  change (inject_Z 0) with 0%Q. change (inject_Z 100) with 100%Q. lra.
Qed.

Lemma defensivePower_range (stats : TeamStats) :
  plausible stats -> integerWithin 0 100 (calculateDefensivePower (Some stats)).
Proof.
  intros [Hg [_ [_ [_ [Hpa [_ [Htya [Hta [Hsk [_ [Htda [_ Hrza]]]]]]]]]]]].
  unfold calculateDefensivePower, defensiveBlend.
  destruct (gamesPlayed stats) as [g| | |]; try contradiction.
  destruct (pointsAgainst stats) as [pa| | |]; try contradiction.
  destruct (totalYardsAllowed stats) as [tya| | |]; try contradiction.
  destruct (takeaways stats) as [ta| | |]; try contradiction.
  destruct (sacks stats) as [sk| | |]; try contradiction.
  destruct (thirdDownPercentageAllowed stats) as [tda| | |]; try contradiction.
  destruct (redZonePercentageAllowed stats) as [rza| | |]; try contradiction.
  cbn in Hg, Hpa, Htya, Hta, Hsk, Htda, Hrza. cbn [eqb].
  destruct (Qeq_bool g 0) eqn:E; [apply fifty_within|]. qbool.
  assert (Hgp : (0 < g)%Q) by lra.
  rewrite !div_Fin by nonzero. cbn [mul sub add neg].
  pose proof (quotient_nonneg pa g Hpa Hgp).
  pose proof (quotient_nonneg tya g Htya Hgp).
  pose proof (quotient_nonneg ta g Hta Hgp).
  pose proof (quotient_nonneg sk g Hsk Hgp).
  set (ppg := (pa / g)%Q) in *. set (ypg := (tya / g)%Q) in *.
  set (tpg := (ta / g)%Q) in *. set (spg := (sk / g)%Q) in *.
  destruct (max_0_within (100 + - (ppg / 30 * 100))) as [np [Hnp Hnpr]]; [qlra|].
  destruct (max_0_within (100 + - (ypg / 400 * 100))) as [ny [Hny Hnyr]]; [qlra|].
  destruct (min_100_within (tpg * 50)) as [nt [Hnt Hntr]]; [qlra|].
  destruct (min_100_within (spg * 20)) as [ns [Hns Hnsr]]; [qlra|].
  rewrite Hnp, Hny, Hnt, Hns. cbn [mul add]. apply round_Fin_range.
  change (inject_Z 0) with 0%Q. change (inject_Z 100) with 100%Q. lra.
Qed.

(** X6. For absent or plausible statistics the team strength, the offensive and
    defensive power and the schedule strength are integers between 0 and
    100. *)
Theorem subscores_in_range (stats : option TeamStats) :
  plausibleIfPresent stats ->
  integerWithin 0 100 (calculateTeamStrength stats) /\
  integerWithin 0 100 (calculateOffensivePower stats) /\
  integerWithin 0 100 (calculateDefensivePower stats) /\
  integerWithin 0 100 (calculateScheduleStrength stats).
Proof.
  destruct stats as [stats|]; cbn [plausibleIfPresent]; intros Hpl.
  - repeat split.
    + now apply teamStrength_range.
    + now apply offensivePower_range.
    + now apply defensivePower_range.
    + cbn [calculateScheduleStrength]. now apply teamStrength_range.
  - repeat split; apply fifty_within.
Qed.

(** *** Momentum *)

(** X7. Momentum takes one of five values, whatever the statistics (also for
    values that are not numbers). *)
Theorem momentum_values (stats : option TeamStats) :
  In (calculateMomentum stats) [Fin 10; Fin 25; Fin 50; Fin 75; Fin 90].
Proof.
  unfold calculateMomentum. destruct stats as [stats|]; [|cbn; tauto].
  repeat match goal with |- context [if ?b then _ else _] => destruct b end;
    cbn; tauto.
Qed.

Lemma momentum_within (stats : option TeamStats) :
  within 10 90 (calculateMomentum stats).
Proof.
  unfold calculateMomentum.
  destruct stats as [stats|]; [|eexists; split; [reflexivity | lra]].
  repeat match goal with |- context [if ?b then _ else _] => destruct b end;
    eexists; (split; [reflexivity | lra]).
Qed.

(** *** The pipeline without a weather reading *)

Lemma metrics_without_weather (stats : option TeamStats)
    (injuries : list PlayerInjury) (isHome : bool) :
  plausibleIfPresent stats ->
  let m := calculateTeamMetrics stats injuries None isHome in
  within 5 95 (overall m) /\
  restAdvantage m = Fin 0 /\
  within 10 90 (momentum m) /\
  homeFieldAdvantage m = (if isHome then Fin (0.03 * 100) else Fin 0).
Proof.
  intros Hpl m. subst m.
  assert (Hts : integerWithin 0 100 (calculateTeamStrength stats))
    by (destruct stats; [now apply teamStrength_range | apply fifty_within]).
  assert (Hop : integerWithin 0 100 (calculateOffensivePower stats))
    by (destruct stats; [now apply offensivePower_range | apply fifty_within]).
  assert (Hdp : integerWithin 0 100 (calculateDefensivePower stats))
    by (destruct stats; [now apply defensivePower_range | apply fifty_within]).
  assert (Hss : integerWithin 0 100 (calculateScheduleStrength stats))
    by (destruct stats;
        [cbn [calculateScheduleStrength]; now apply teamStrength_range
        | apply fifty_within]).
  apply integerWithin_Q in Hts, Hop, Hdp, Hss.
  pose proof (injuryImpact_within injuries) as Hii.
  change (inject_Z 0) with 0%Q in *. change (inject_Z 100) with 100%Q in *.
  destruct Hts as [ts [Ets Hts]]. destruct Hop as [op [Eop Hop]].
  destruct Hdp as [dp [Edp Hdp]]. destruct Hss as [ss [Ess Hss]].
  destruct Hii as [ii [Eii Hii]].
  unfold calculateTeamMetrics.
  cbn [overall restAdvantage momentum homeFieldAdvantage].
  rewrite Ets, Eop, Edp, Ess, Eii. cbn [to_number mul add].
  split; [|split; [|split]].
  - destruct (round_Fin_range 5 95
                (ts * 0.25 + op * 0.20 + dp * 0.20 + ii * 0.15 + 50 * 0.10 + ss * 0.10))
      as [n [-> Hn]].
    + change (inject_Z 5) with 5%Q. change (inject_Z 95) with 95%Q. lra.
    + exists (inject_Z n). split; [reflexivity|].
      change 5%Q with (inject_Z 5). change 95%Q with (inject_Z 95).
      rewrite <- !Zle_Qle. lia.
  - destruct stats; reflexivity.
  - apply momentum_within.
  - destruct isHome; reflexivity.
Qed.

Lemma win_probabilities_without_weather
    (awayStats homeStats : option TeamStats)
    (awayInjuries homeInjuries : list PlayerInjury) :
  plausibleIfPresent awayStats -> plausibleIfPresent homeStats ->
  let awayMetrics := calculateTeamMetrics awayStats awayInjuries None false in
  let homeMetrics := calculateTeamMetrics homeStats homeInjuries None true in
  let p := calculateWinProbabilities awayMetrics homeMetrics
             (calculateOverallMetrics awayMetrics homeMetrics) in
  exists n,
    fst p = of_Z n /\ 1 <= n <= 96 /\
    eqb (snd p) (of_Z (100 - n)) = true /\
    eqb (add (fst p) (snd p)) (Fin 100) = true.
Proof.
  intros Ha Hh awayMetrics homeMetrics p.
  destruct (metrics_without_weather awayStats awayInjuries false Ha)
    as [[oa [Eoa Hoa]] [Era [[ma [Ema Hma]] Efa]]].
  destruct (metrics_without_weather homeStats homeInjuries true Hh)
    as [[oh [Eoh Hoh]] [Erh [[mh [Emh Hmh]] Efh]]].
  fold awayMetrics in Eoa, Era, Ema. fold homeMetrics in Eoh, Erh, Emh, Efh.
  assert (Hx : awayAdjusted awayMetrics = Fin (oa + 0 + (ma + - 50) * 0.1)).
  { unfold awayAdjusted. rewrite Eoa, Era, Ema. reflexivity. }
  assert (Hy : homeAdjusted homeMetrics
               = Fin (oh + 0.03 * 100 + 0 + (mh + - 50) * 0.1)).
  { unfold homeAdjusted. rewrite Eoh, Erh, Emh, Efh. reflexivity. }
  set (x := (oa + 0 + (ma + - 50) * 0.1)%Q) in *.
  set (y := (oh + 0.03 * 100 + 0 + (mh + - 50) * 0.1)%Q) in *.
  assert (Hxr : (1 <= x <= 99)%Q) by (subst x; lra).
  assert (Hyr : (4 <= y <= 102)%Q) by (subst y; lra).
  assert (Hxy : ~ (x + y == 0)%Q) by lra.
  destruct (probabilities_sum_when_finite awayMetrics homeMetrics
              (calculateOverallMetrics awayMetrics homeMetrics) x y Hx Hy Hxy)
    as [Hfst [Hsnd Hsum]].
  fold p in Hfst, Hsnd, Hsum.
  assert (Hpos : (0 < x + y)%Q) by lra.
  assert (Hlo : ((1 # 200) <= x / (x + y))%Q).
  { apply Qle_shift_div_l; [assumption | lra]. }
  assert (Hhi : (x / (x + y) <= (963 # 1000))%Q).
  { apply Qle_shift_div_r; [assumption | lra]. }
  set (r := (x / (x + y))%Q) in *.
  destruct (round_Fin_between 1 96 (r * 100)) as [n [En Hn]].
  - change (inject_Z 1) with 1%Q. lra.
  - change (inject_Z 96) with 96%Q. lra.
  - exists n. rewrite Hfst, En. split; [reflexivity|]. split; [assumption|].
    split; [|rewrite <- En, <- Hfst; exact Hsum].
    rewrite Hsnd, Hfst, En. unfold of_Z, sub, add, neg, eqb.
    apply Qeq_bool_iff. unfold Qeq, Qplus, Qopp, inject_Z. cbn [Qnum Qden].
    cbn [Pos.mul]. lia.
Qed.

(** *** The tiers in terms of the away probability *)

(** X9. With the home probability the complement of an integer away
    probability, the tier and the recommendation are decided by the away
    probability alone: high from 63 up and from 37 down, medium from 58 to
    62 and from 38 to 42, low from 43 to 57; the recommendation is away
    from 58 up, home from 42 down, and none in between. *)
Theorem recommendation_by_away_probability (a : Z) :
  let h := sub (Fin 100) (of_Z a) in
  let c := determineConfidence (of_Z a) h in
  (c = high <-> a <= 37 \/ 63 <= a) /\
  (c = medium <-> 38 <= a <= 42 \/ 58 <= a <= 62) /\
  (c = low <-> 43 <= a <= 57) /\
  determineRecommendation (of_Z a) h c
  = (if 58 <=? a then away else if a <=? 42 then home else none).
Proof.
  intros h c. subst h c.
  unfold determineRecommendation, determineConfidence.
  unfold geb, gtb, leb, ltb, sub, add, neg, abs, of_Z.
  unfold Qle_bool, Qabs, Qplus, Qopp, inject_Z. cbn [Qnum Qden Pos.mul].
  rewrite ?Z.mul_1_r.
  destruct (Z.leb_spec 58 a); destruct (Z.leb_spec a 42);
    repeat match goal with
    | |- context [Z.leb ?x ?y] => destruct (Z.leb_spec x y)
    end; cbn [negb];
    repeat split; intros; try reflexivity; try discriminate; try lia.
Qed.

(* ================================================================== *)
(** ** What the statistics client hands to the engine *)
(* ================================================================== *)

Lemma lowerChar_idempotent (c : ascii) : lowerChar (lowerChar c) = lowerChar c.
Proof. destruct c as [[] [] [] [] [] [] [] []]; reflexivity. Qed.

Lemma toLowerCase_idempotent (s : string) :
  toLowerCase (toLowerCase s) = toLowerCase s.
Proof.
  induction s as [|c s IH]; [reflexivity|]. cbn [toLowerCase].
  now rewrite lowerChar_idempotent, IH.
Qed.

Ltac status_cases :=
  repeat match goal with
  | |- context [String.eqb ?a ?b] => destruct (String.eqb a b); cbn [orb]
  end.

Lemma mapInjuryStatus_values (status : option string) :
  In (mapInjuryStatus status)
    ["questionable"; "doubtful"; "out"; "injured-reserve"; "pup"; "healthy"]%string.
Proof.
  unfold mapInjuryStatus. destruct status as [t|]; cbv zeta;
    status_cases; cbn [In]; tauto.
Qed.

Lemma mapPracticeStatus_values (status : option string) :
  In (mapPracticeStatus status)
    ["full"; "limited"; "did-not-participate"; "unknown"]%string.
Proof.
  unfold mapPracticeStatus. destruct status as [t|]; cbv zeta;
    status_cases; cbn [In]; tauto.
Qed.

Lemma mapGameStatus_values (status : option string) :
  In (mapGameStatus status)
    ["live"; "final"; "postponed"; "cancelled"; "scheduled"]%string.
Proof.
  unfold mapGameStatus. destruct status as [t|]; cbv zeta;
    status_cases; cbn [In]; tauto.
Qed.

(** X10. The three status mappings ignore letter case, and mapping a mapped
    status again changes nothing. *)
Theorem status_mapping_stable (s : string) (status : option string) :
  mapInjuryStatus (Some (toLowerCase s)) = mapInjuryStatus (Some s) /\
  mapPracticeStatus (Some (toLowerCase s)) = mapPracticeStatus (Some s) /\
  mapGameStatus (Some (toLowerCase s)) = mapGameStatus (Some s) /\
  mapInjuryStatus (Some (mapInjuryStatus status)) = mapInjuryStatus status /\
  mapPracticeStatus (Some (mapPracticeStatus status)) = mapPracticeStatus status /\
  mapGameStatus (Some (mapGameStatus status)) = mapGameStatus status.
Proof.
  split; [|split; [|split; [|split; [|split]]]].
  - unfold mapInjuryStatus. now rewrite toLowerCase_idempotent.
  - unfold mapPracticeStatus. now rewrite toLowerCase_idempotent.
  - unfold mapGameStatus. now rewrite toLowerCase_idempotent.
  - pose proof (mapInjuryStatus_values status) as H. cbn [In] in H.
    repeat (destruct H as [H|H]; [rewrite <- H; reflexivity|]). contradiction.
  - pose proof (mapPracticeStatus_values status) as H. cbn [In] in H.
    repeat (destruct H as [H|H]; [rewrite <- H; reflexivity|]). contradiction.
  - pose proof (mapGameStatus_values status) as H. cbn [In] in H.
    repeat (destruct H as [H|H]; [rewrite <- H; reflexivity|]). contradiction.
Qed.

(** X11. The impact value of a provider status, through the client's mapping:
    0 for out, ir, injured-reserve and pup in any letter case, 25 for
    doubtful, 50 for questionable, and 100 for everything else and for an
    absent status. *)
Theorem impact_of_provider_status (raw : RawInjury) :
  injuryStatusImpact (toPlayerInjury raw) =
  match raw_status raw with
  | None => 100
  | Some s =>
      let l := toLowerCase s in
      if includes ["out"; "ir"; "injured-reserve"; "pup"]%string l then 0
      else if String.eqb l "doubtful" then 25
      else if String.eqb l "questionable" then 50
      else 100
  end.
Proof.
  unfold injuryStatusImpact, toPlayerInjury, mapInjuryStatus, includes.
  cbn [status existsb]. destruct (raw_status raw) as [s|]; [|reflexivity].
  cbv zeta.
  destruct (String.eqb_spec (toLowerCase s) "questionable") as [->|_]; [reflexivity|].
  destruct (String.eqb_spec (toLowerCase s) "doubtful") as [->|_]; [reflexivity|].
  destruct (String.eqb_spec (toLowerCase s) "out") as [->|_]; [reflexivity|].
  destruct (String.eqb_spec (toLowerCase s) "ir") as [->|_]; [reflexivity|].
  destruct (String.eqb_spec (toLowerCase s) "injured-reserve") as [->|_];
    [reflexivity|].
  destruct (String.eqb_spec (toLowerCase s) "pup") as [_|_]; reflexivity.
Qed.

Lemma client_injury_weight (raw : RawInjury) :
  injuryWeight (toPlayerInjury raw) = 1.
Proof. reflexivity. Qed.

Lemma sum_of_ones (l : list RawInjury) :
  sumOver injuryWeight (map toPlayerInjury l) = Z.of_nat (List.length l).
Proof.
  unfold sumOver. induction l as [|r l IH]; [reflexivity|].
  cbn [map fold_right List.length]. rewrite IH, client_injury_weight. lia.
Qed.

Lemma sum_of_plain_impacts (l : list RawInjury) :
  sumOver (fun i => injuryStatusImpact i * injuryWeight i) (map toPlayerInjury l)
  = sumOver injuryStatusImpact (map toPlayerInjury l).
Proof.
  unfold sumOver. induction l as [|r l IH]; [reflexivity|].
  cbn [map fold_right]. rewrite IH, client_injury_weight. lia.
Qed.

(** X12. Injuries as the statistics client builds them carry no position, so
    each weighs 1: for them the injury-impact score is the plain average of
    the impact values, rounded, whatever the players' positions are. *)
Theorem client_injuries_are_unweighted (raws : list RawInjury) :
  raws <> [] ->
  Forall (fun i => injuryWeight i = 1) (map toPlayerInjury raws) /\
  calculateInjuryImpact (map toPlayerInjury raws)
  = round (Fin (plainAverage (map toPlayerInjury raws))).
Proof.
  intros Hne. split.
  - apply Forall_forall. intros i Hi. apply in_map_iff in Hi.
    destruct Hi as [r [<- _]]. apply client_injury_weight.
  - unfold calculateInjuryImpact, plainAverage.
    destruct raws as [|r l]; [congruence|].
    cbn [map List.length Nat.eqb]. rewrite injury_fold_sums. cbn [fst snd].
    rewrite !Z.add_0_l.
    change (toPlayerInjury r :: map toPlayerInjury l)
      with (map toPlayerInjury (r :: l)).
    rewrite sum_of_plain_impacts, sum_of_ones.
    assert (Hlen : List.length (map toPlayerInjury l) = List.length l)
      by apply length_map.
    rewrite Hlen.
    destruct (Z.gtb_spec (Z.of_nat (List.length (r :: l))) 0) as [_|Hle];
      [|cbn [List.length] in Hle; lia].
    rewrite div_of_Z by (cbn [List.length]; lia). reflexivity.
Qed.

(** X13. A team whose record has no games played (absent, zero or not a number)
    is scored neutrally: strength, offensive and defensive power, schedule
    strength and momentum are all 50, whatever its other statistics. *)
Theorem statistics_without_games_are_neutral (raw : RawTeamStats) :
  match raw_gamesPlayed raw with
  | Some g => truthy g = false
  | None => True
  end ->
  let stats := Some (toTeamStats raw) in
  calculateTeamStrength stats = Fin 50 /\
  calculateOffensivePower stats = Fin 50 /\
  calculateDefensivePower stats = Fin 50 /\
  calculateScheduleStrength stats = Fin 50 /\
  calculateMomentum stats = Fin 50.
Proof.
  intros Hg stats. subst stats.
  assert (Hgp : gamesPlayed (toTeamStats raw) = Fin 0).
  { cbn [toTeamStats gamesPlayed]. unfold or_num.
    destruct (raw_gamesPlayed raw) as [g|]; [now rewrite Hg | reflexivity]. }
  unfold calculateScheduleStrength, calculateTeamStrength,
    calculateOffensivePower, calculateDefensivePower, calculateMomentum.
  rewrite Hgp. repeat split.
Qed.

(* ================================================================== *)
(** ** Wind direction and the forecast horizon *)
(* ================================================================== *)

(** On whole degrees the rounded quotient is an integer division. *)
Lemma getWindDirection_whole (d : Z) :
  getWindDirection (of_Z d) =
  if Z.rem ((4 * d + 45) / 90) 16 <? 0 then None
  else nth_error directions (Z.to_nat (Z.rem ((4 * d + 45) / 90) 16)).
Proof.
  unfold getWindDirection, of_Z, div.
  replace (Qeq_bool 22.5 0) with false by reflexivity.
  cbn [round]. unfold of_Z.
  assert (E : Qfloor (inject_Z d / 22.5 + (1 # 2)) = (4 * d + 45) / 90).
  { rewrite (Qfloor_comp _ ((4 * d + 45) # 90)); [reflexivity|].
    unfold Qeq, Qdiv, Qplus, Qmult, Qinv, inject_Z. cbn [Qnum Qden]. lia. }
  rewrite E. cbv zeta. rewrite Qfloor_Z. reflexivity.
Qed.

Lemma direction_at (m : Z) :
  0 <= m < 16 ->
  exists name, nth_error directions (Z.to_nat m) = Some name /\ In name directions.
Proof.
  intros Hm.
  destruct (nth_error directions (Z.to_nat m)) as [name|] eqn:E.
  - exists name. split; [reflexivity|]. eapply nth_error_In; eassumption.
  - apply nth_error_None in E. cbn [directions List.length] in E. lia.
Qed.

(** X14. For whole degrees from 0 to 2000000 the wind direction is one of
    the sixteen compass names, and it is the same 360 degrees further. *)
Theorem wind_direction_defined (d : Z) :
  0 <= d <= 2000000 ->
  exists name,
    getWindDirection (of_Z d) = Some name /\
    In name directions /\
    getWindDirection (of_Z (d + 360)) = Some name.
Proof.
  intros [Hd _].
  assert (Hk : 0 <= (4 * d + 45) / 90) by (apply Z.div_pos; lia).
  assert (Hshift : (4 * (d + 360) + 45) / 90 = (4 * d + 45) / 90 + 1 * 16).
  { replace (4 * (d + 360) + 45) with (4 * d + 45 + 16 * 90) by lia.
    rewrite Z.div_add by lia. lia. }
  rewrite !getWindDirection_whole, Hshift.
  rewrite !Z.rem_mod_nonneg by lia.
  rewrite Z.mod_add by lia.
  pose proof (Z.mod_pos_bound ((4 * d + 45) / 90) 16 ltac:(lia)) as Hm.
  destruct (Z.ltb_spec (((4 * d + 45) / 90) mod 16) 0) as [C|_]; [lia|].
  destruct (direction_at _ Hm) as [name [E Hin]].
  exists name. now rewrite E.
Qed.

(** X15. For whole degrees from -348 to -12 the index is negative and the wind
    direction is undefined. *)
Theorem wind_direction_undefined (d : Z) :
  -348 <= d <= -12 ->
  getWindDirection (of_Z d) = None.
Proof.
  intros Hd. rewrite getWindDirection_whole.
  assert (Hk : -15 <= (4 * d + 45) / 90 <= -1).
  { pose proof (Z.div_mod (4 * d + 45) 90 ltac:(lia)) as E.
    pose proof (Z.mod_pos_bound (4 * d + 45) 90 ltac:(lia)) as B. lia. }
  set (k := (4 * d + 45) / 90) in *.
  assert (Hr : Z.rem k 16 = k).
  { replace k with (- (- k)) at 1 by lia.
    rewrite Z.rem_opp_l by lia. rewrite Z.rem_small by lia. lia. }
  rewrite Hr. destruct (Z.ltb_spec k 0) as [_|C]; [reflexivity | lia].
Qed.

Lemma closestLoop_without_time (l : list ForecastPoint)
    (closest : option ForecastPoint) (smallest : num) :
  closestLoop NaN l closest smallest = closest.
Proof.
  revert closest smallest. induction l as [|f l IH]; intros; [reflexivity|].
  cbn [closestLoop]. unfold forecastDiff.
  replace (abs (sub (date_getTime (dt f * 1000)) NaN)) with NaN.
  - cbn [ltb]. apply IH.
  - unfold sub. cbn [neg]. rewrite add_NaN_r. reflexivity.
Qed.

(** X16. A game date that does not parse still costs a request: the forecast
    call is issued for a team with coordinates, and it answers null for
    every response body and rethrows a failure of the request. *)
Theorem forecast_of_unparsable_date (teamAbbreviation : string) (now : Z)
    (nowIso : string) (lat lon : Q) :
  lookupCoordinates teamAbbreviation = Some (lat, lon) ->
  exists k,
    getForecast teamAbbreviation NaN now nowIso = Fetch "/forecast" lat lon k /\
    (forall body, k (HttpData body) = Returned None) /\
    (forall message, k (HttpFailure message) = Thrown message).
Proof.
  intros Hc. unfold getForecast, coordinatesOf. rewrite Hc.
  exists (forecastOfResponse nowIso NaN). split; [reflexivity|]. split.
  - intros [l|]; [|reflexivity]. cbn [forecastOfResponse].
    unfold closestForecastOf. now rewrite closestLoop_without_time.
  - reflexivity.
Qed.

Lemma inherited_has_no_entry (name : string) :
  inherited name = true -> lookupCoordinates name = None.
Proof.
  unfold inherited, inheritedNames. cbn [existsb].
  repeat match goal with
  | |- context [String.eqb name ?x] =>
      destruct (String.eqb_spec name x) as [->|_]; [reflexivity|]
  end.
  discriminate.
Qed.

(** X17. No forecast is requested exactly when indexing the coordinates
    table by the name gives undefined (the name is neither an entry nor a
    property name that the table inherits) or the game starts more than 120
    hours after now; a game exactly 120 hours ahead, and any game in the
    past, is still requested.  For an inherited name within that horizon
    the request goes out without coordinates. *)
Theorem forecast_horizon (teamAbbreviation : string) (gameTime now : Z)
    (nowIso : string) :
  (getForecast teamAbbreviation (of_Z gameTime) now nowIso = Done None <->
   (lookupCoordinates teamAbbreviation = None /\
    inherited teamAbbreviation = false) \/
   432000000 < gameTime - now) /\
  (inherited teamAbbreviation = true -> gameTime - now <= 432000000 ->
   getForecast teamAbbreviation (of_Z gameTime) now nowIso
   = FetchUnplaced "/forecast" (forecastOfResponse nowIso (of_Z gameTime))).
Proof.
  split.
  - unfold getForecast, coordinatesOf.
    destruct (lookupCoordinates teamAbbreviation) as [[lat lon]|];
      [|destruct (inherited teamAbbreviation)].
    + rewrite hours_gate.
      destruct (Z.ltb_spec 432000000 (gameTime - now)) as [Hfar|Hnear].
      * split; [intros _; now right | reflexivity].
      * split; [discriminate|]. intros [[C _]|C]; [discriminate | lia].
    + rewrite hours_gate.
      destruct (Z.ltb_spec 432000000 (gameTime - now)) as [Hfar|Hnear].
      * split; [intros _; now right | reflexivity].
      * split; [discriminate|]. intros [[_ C]|C]; [discriminate | lia].
    + split; [intros _; left; split; reflexivity | reflexivity].
  - intros Hi Hnear. unfold getForecast, coordinatesOf.
    rewrite (inherited_has_no_entry _ Hi), Hi, hours_gate.
    destruct (Z.ltb_spec 432000000 (gameTime - now)); [lia | reflexivity].
Qed.

(* ================================================================== *)
(** ** The collection run: its period and its weather record *)
(* ================================================================== *)

Import Feeds Collection.

(** X18. The season type follows the month alone: September to February is the
    regular season (2), March to May the preseason (1), June to August the
    postseason (3); the year is the calendar year, also in January and
    February. *)
Theorem season_by_month (currentYear currentMonth : Z) :
  1 <= currentMonth <= 12 ->
  fst (getCurrentSeason currentYear currentMonth) = currentYear /\
  (snd (getCurrentSeason currentYear currentMonth) = 2 <->
     currentMonth <= 2 \/ 9 <= currentMonth) /\
  (snd (getCurrentSeason currentYear currentMonth) = 1 <->
     3 <= currentMonth <= 5) /\
  (snd (getCurrentSeason currentYear currentMonth) = 3 <->
     6 <= currentMonth <= 8).
Proof.
  intros Hm. unfold getCurrentSeason.
  destruct (Z.geb_spec currentMonth 9); destruct (Z.leb_spec currentMonth 2);
    destruct (Z.geb_spec currentMonth 3); destruct (Z.leb_spec currentMonth 5);
    cbn [orb andb fst snd]; repeat split; intros; try lia; try discriminate.
Qed.

(** X19. When all three arguments are given the run uses them; otherwise a
    given week is replaced by 18, and a missing week becomes 18 in the
    calendar year 2024 and 1 in any other year. *)
Theorem collection_week (week year seasonType : option Z)
    (currentYear currentMonth : Z) :
  let period := collectionPeriod week year seasonType currentYear currentMonth in
  (given week = true -> given year = true -> given seasonType = true ->
     Some (fst (fst period)) = week /\ Some (snd (fst period)) = year /\
     Some (snd period) = seasonType) /\
  (given week = true -> given year && given seasonType = false ->
     fst (fst period) = 18) /\
  (given week = false ->
     fst (fst period) = if currentYear =? 2024 then 18 else 1).
Proof.
  cbv zeta. unfold collectionPeriod.
  assert (Hy : fst (getCurrentSeason currentYear currentMonth) = currentYear).
  { unfold getCurrentSeason.
    destruct (_ || _); [reflexivity|]. destruct (_ && _); reflexivity. }
  split; [|split].
  - intros Hw Hyr Hs. rewrite Hw, Hyr, Hs. cbn [negb orb fst snd].
    unfold given, orElse in *.
    destruct week as [w|]; [|discriminate].
    destruct year as [y|]; [|discriminate].
    destruct seasonType as [t|]; [|discriminate].
    destruct (w =? 0); [discriminate|]. destruct (y =? 0); [discriminate|].
    destruct (t =? 0); [discriminate|]. repeat split.
  - intros Hw Hyt. rewrite Hw. cbn [negb orb].
    destruct (given year); destruct (given seasonType); try discriminate;
      reflexivity.
  - intros Hw. rewrite Hw. cbn [negb orb fst snd]. now rewrite Hy.
Qed.

(** *** Records built by assignment *)

Lemma find_over_app {A : Type} (f : A -> bool) (l1 l2 : list A) :
  find f (l1 ++ l2) =
  match find f l1 with
  | Some x => Some x
  | None => find f l2
  end.
Proof.
  induction l1 as [|x l1 IH]; [reflexivity|]. cbn [app find].
  destruct (f x); [reflexivity | exact IH].
Qed.

Lemma existsb_over_rev {A : Type} (f : A -> bool) (l : list A) :
  existsb f (rev l) = existsb f l.
Proof.
  induction l as [|x l IH]; [reflexivity|]. cbn [rev existsb].
  rewrite existsb_app, IH. cbn [existsb]. rewrite orb_false_r. apply orb_comm.
Qed.

Lemma lookup_assignOwn (key k : string) (value : option GameWeather)
    (own : list (string * option GameWeather)) :
  option_map snd (find (fun entry => String.eqb (fst entry) k)
                    (assignOwn key value own)) =
  if String.eqb key k then Some value
  else option_map snd (find (fun entry => String.eqb (fst entry) k) own).
Proof.
  induction own as [|[k' v'] rest IH]; cbn [assignOwn find].
  - cbn [fst]. destruct (String.eqb key k); reflexivity.
  - destruct (String.eqb_spec k' key) as [->|Hne]; cbn [find fst].
    + destruct (String.eqb key k); reflexivity.
    + destruct (String.eqb_spec k' k) as [->|Hne'].
      * destruct (String.eqb_spec key k) as [->|_]; [congruence | reflexivity].
      * exact IH.
Qed.

Lemma lookup_assign (key k : string) (value : option GameWeather)
    (record : weatherRecord) :
  lookup k (assign key value record) =
  if String.eqb key "__proto__" && negb (bare record) then lookup k record
  else if String.eqb key k then Some value else lookup k record.
Proof.
  unfold assign, lookup.
  destruct (String.eqb key "__proto__" && negb (bare record)); cbn [entries].
  - reflexivity.
  - apply lookup_assignOwn.
Qed.

Lemma lookup_assign_other (key k : string) (value : option GameWeather)
    (record : weatherRecord) :
  key <> k -> lookup k (assign key value record) = lookup k record.
Proof.
  intros Hne. rewrite lookup_assign.
  destruct (String.eqb_spec key k) as [C|_]; [congruence|].
  destruct (String.eqb key "__proto__" && negb (bare record)); reflexivity.
Qed.

Lemma assignAll_app (l1 l2 : list (string * option GameWeather))
    (record : weatherRecord) :
  assignAll (l1 ++ l2) record = assignAll l2 (assignAll l1 record).
Proof. unfold assignAll. apply fold_left_app. Qed.

Lemma assignAll_batches {A : Type} (g : A -> string * option GameWeather)
    (bs : list (list A)) (record : weatherRecord) :
  fold_left (fun r b => assignAll (map g b) r) bs record
  = assignAll (map g (List.concat bs)) record.
Proof.
  revert record. induction bs as [|b bs IH]; intros record; [reflexivity|].
  cbn [fold_left List.concat]. now rewrite IH, map_app, assignAll_app.
Qed.

Lemma lookup_assignAll_absent (k : string)
    (results : list (string * option GameWeather)) (record : weatherRecord) :
  ~ In k (map fst results) ->
  lookup k (assignAll results record) = lookup k record.
Proof.
  revert record. induction results as [|[key v] rest IH]; intros record Hout;
    [reflexivity|].
  change (assignAll ((key, v) :: rest) record)
    with (assignAll rest (assign key v record)).
  cbn [map fst In] in Hout. rewrite IH by tauto.
  apply lookup_assign_other. tauto.
Qed.

Lemma lookup_assignAll (k : string)
    (results : list (string * option GameWeather)) (record : weatherRecord) :
  k <> "__proto__"%string ->
  lookup k (assignAll results record) =
  match find (fun entry => String.eqb (fst entry) k) (rev results) with
  | Some entry => Some (snd entry)
  | None => lookup k record
  end.
Proof.
  intros Hk. revert record.
  induction results as [|[key v] rest IH]; intros record; [reflexivity|].
  change (assignAll ((key, v) :: rest) record)
    with (assignAll rest (assign key v record)).
  cbn [rev]. rewrite IH, find_over_app.
  destruct (find (fun entry => String.eqb (fst entry) k) (rev rest));
    [reflexivity|].
  cbn [find fst snd]. rewrite lookup_assign.
  destruct (String.eqb_spec key k) as [->|Hne].
  - destruct (String.eqb_spec k "__proto__") as [C|_]; [congruence|].
    reflexivity.
  - destruct (String.eqb key "__proto__" && negb (bare record)); reflexivity.
Qed.

Lemma proto_has_no_entry (results : list (string * option GameWeather))
    (record : weatherRecord) :
  NoDup (map fst results) -> bare record = false ->
  lookup "__proto__" (assignAll results record) = lookup "__proto__" record.
Proof.
  revert record. induction results as [|[key v] rest IH]; intros record Hnd Hb;
    [reflexivity|].
  change (assignAll ((key, v) :: rest) record)
    with (assignAll rest (assign key v record)).
  cbn [map fst] in Hnd. apply NoDup_cons_iff in Hnd. destruct Hnd as [Hout Hnd].
  destruct (String.eqb_spec key "__proto__") as [->|Hne].
  - rewrite lookup_assignAll_absent by exact Hout.
    rewrite lookup_assign, Hb. reflexivity.
  - rewrite IH.
    + now apply lookup_assign_other.
    + exact Hnd.
    + unfold assign. destruct (String.eqb_spec key "__proto__") as [C|_];
        [congruence|]. exact Hb.
Qed.

Lemma batches_cover (fuel : nat) (batchSize : nat) (ids : list string) :
  (1 <= batchSize)%nat -> (List.length ids <= fuel)%nat ->
  List.concat (batches fuel batchSize ids) = ids.
Proof.
  intros Hb. revert ids. induction fuel as [|fuel IH]; intros ids Hlen.
  - destruct ids; [reflexivity | cbn in Hlen; lia].
  - destruct ids as [|x rest]; [reflexivity|].
    cbn [batches List.concat]. rewrite IH.
    + apply firstn_skipn.
    + rewrite length_skipn. cbn [List.length] in *. lia.
Qed.

Lemma batches_sized (fuel : nat) (batchSize : nat) (ids : list string) :
  Forall (fun b => (List.length b <= batchSize)%nat) (batches fuel batchSize ids).
Proof.
  revert ids. induction fuel as [|fuel IH]; intros ids; [constructor|].
  destruct ids as [|x rest]; [constructor|]. cbn [batches]. constructor.
  - rewrite length_firstn. lia.
  - apply IH.
Qed.

Lemma distinct_mem (k : string) (seen ids : list string) :
  existsb (String.eqb k) (distinct seen ids) =
  existsb (String.eqb k) ids && negb (existsb (String.eqb k) seen).
Proof.
  revert seen. induction ids as [|x rest IH]; intros seen; [reflexivity|].
  cbn [distinct existsb].
  destruct (existsb (String.eqb x) seen) eqn:Hx.
  - rewrite IH. destruct (String.eqb_spec k x) as [->|_]; [|reflexivity].
    rewrite Hx. cbn [negb orb]. now rewrite andb_false_r.
  - cbn [existsb]. rewrite IH. cbn [existsb].
    destruct (String.eqb_spec k x) as [->|Hne].
    + rewrite Hx. reflexivity.
    + cbn [orb]. destruct (String.eqb_spec k x) as [C|_]; [congruence|].
      reflexivity.
Qed.

Lemma distinct_NoDup (seen ids : list string) :
  NoDup (distinct seen ids) /\
  forall x, In x (distinct seen ids) -> ~ In x seen.
Proof.
  revert seen. induction ids as [|x rest IH]; intros seen.
  - split; [constructor | intros x []].
  - cbn [distinct]. destruct (existsb (String.eqb x) seen) eqn:Hx.
    + apply IH.
    + destruct (IH (x :: seen)) as [Hnd Hout]. split.
      * constructor; [|exact Hnd]. intros C. apply (Hout x C). now left.
      * intros y [<-|Hy].
        -- intros C. assert (existsb (String.eqb x) seen = true); [|congruence].
           apply existsb_exists. exists x. split; [exact C | apply String.eqb_refl].
        -- intros C. apply (Hout y Hy). now right.
Qed.

Section WeatherRecord.

Variable currentWeather : found -> outcome (option GameWeather).

Lemma weatherOfTeam_key (teamId : string) :
  fst (weatherOfTeam currentWeather teamId) = teamId.
Proof.
  unfold weatherOfTeam. destruct (getTeamAbbreviation teamId) as [f|];
    [destruct (currentWeather f)|]; reflexivity.
Qed.

Lemma weatherOfTeam_value (teamId : string) :
  snd (weatherOfTeam currentWeather teamId) =
  if inherited teamId
  then match currentWeather (InheritedProperty teamId) with
       | Returned weather => weather
       | Thrown _ => None
       end
  else None.
Proof.
  unfold weatherOfTeam, getTeamAbbreviation. cbn [teamAbbreviationMap find].
  destruct (inherited teamId); [|reflexivity].
  destruct (currentWeather (InheritedProperty teamId)); reflexivity.
Qed.

Lemma find_weatherOfTeam (k : string) (ids : list string) :
  find (fun entry => String.eqb (fst entry) k)
    (map (weatherOfTeam currentWeather) ids)
  = if existsb (String.eqb k) ids
    then Some (weatherOfTeam currentWeather k) else None.
Proof.
  induction ids as [|id ids IH]; [reflexivity|].
  cbn [map find existsb]. rewrite weatherOfTeam_key, (String.eqb_sym k id).
  destruct (String.eqb_spec id k) as [->|_]; [reflexivity | exact IH].
Qed.

Lemma collected_record (games : list NFLGame) :
  collectWeatherData currentWeather true games
  = assignAll (map (weatherOfTeam currentWeather)
                 (distinct [] (map homeTeamId games))) emptyRecord.
Proof.
  unfold collectWeatherData. cbn [negb]. cbv zeta.
  change (collectBatch currentWeather)
    with (fun r b => assignAll (map (weatherOfTeam currentWeather) b) r).
  rewrite assignAll_batches, batches_cover by lia. reflexivity.
Qed.

End WeatherRecord.

(** X20. With weather updates enabled the weather record has an entry for
    each home team of the games other than [__proto__], and for no other
    name.  The entry is null for every team whose id is not a property name
    inherited by the empty abbreviation table: no weather is fetched for
    it.  For an inherited name the weather client is called with the
    inherited value and the entry holds its answer, null when it fails.
    With updates disabled the record is empty. *)
Theorem weather_record_entries
    (currentWeather : found -> outcome (option GameWeather))
    (games : list NFLGame) (teamId : string) :
  lookup teamId (collectWeatherData currentWeather true games) =
    (if existsb (String.eqb teamId) (map homeTeamId games)
     then
       if String.eqb teamId "__proto__" then None
       else if inherited teamId
       then Some match currentWeather (InheritedProperty teamId) with
                 | Returned weather => weather
                 | Thrown _ => None
                 end
       else Some None
     else None) /\
  collectWeatherData currentWeather false games = emptyRecord.
Proof.
  split; [|reflexivity]. rewrite collected_record.
  destruct (String.eqb_spec teamId "__proto__") as [->|Hne].
  - rewrite proto_has_no_entry.
    + destruct (existsb _ _); reflexivity.
    + rewrite map_map.
      rewrite (map_ext _ (fun x => x) (weatherOfTeam_key currentWeather)).
      rewrite map_id. apply distinct_NoDup.
    + reflexivity.
  - rewrite lookup_assignAll by exact Hne.
    rewrite <- map_rev, find_weatherOfTeam, existsb_over_rev, distinct_mem.
    cbn [existsb negb]. rewrite andb_true_r.
    destruct (existsb (String.eqb teamId) (map homeTeamId games));
      [|reflexivity].
    rewrite weatherOfTeam_value. destruct (inherited teamId); reflexivity.
Qed.

(** X21. The home teams are requested once each, in batches of at most five
    that together are the distinct home teams in order of first
    appearance. *)
Theorem weather_batches (games : list NFLGame) :
  let ids := distinct [] (map homeTeamId games) in
  List.concat (batches (List.length ids) 5 ids) = ids /\
  NoDup ids /\
  Forall (fun b => (List.length b <= 5)%nat) (batches (List.length ids) 5 ids).
Proof.
  cbv zeta. split; [apply batches_cover; lia|]. split.
  - apply distinct_NoDup.
  - apply batches_sized.
Qed.

(* ================================================================== *)
(** ** The bulk weather call *)
(* ================================================================== *)

Import Bulk.

Lemma bulkEntry_key (r : request) : fst (bulkEntry r) = fst r.
Proof. unfold bulkEntry. destruct (snd r); reflexivity. Qed.

Lemma find_bulkEntry (k : string) (requests : list request) :
  find (fun entry => String.eqb (fst entry) k) (map bulkEntry requests)
  = option_map bulkEntry (find (fun r => String.eqb (fst r) k) requests).
Proof.
  induction requests as [|r rest IH]; [reflexivity|].
  cbn [map find]. rewrite bulkEntry_key.
  destruct (String.eqb (fst r) k); [reflexivity | exact IH].
Qed.

Lemma slices_cover (fuel : nat) (batchSize : nat) (requests : list request) :
  (1 <= batchSize)%nat -> (List.length requests <= fuel)%nat ->
  List.concat (slices fuel batchSize requests) = requests.
Proof.
  intros Hb. revert requests. induction fuel as [|fuel IH]; intros l Hlen.
  - destruct l; [reflexivity | cbn in Hlen; lia].
  - destruct l as [|x rest]; [reflexivity|].
    cbn [slices List.concat]. rewrite IH.
    + apply firstn_skipn.
    + rewrite length_skipn. cbn [List.length] in *. lia.
Qed.

Lemma bulk_record (requests : list request) :
  getBulkWeather requests = assignAll (map bulkEntry requests) emptyRecord.
Proof.
  unfold getBulkWeather.
  change bulkBatch with (fun r b => assignAll (map bulkEntry b) r).
  rewrite assignAll_batches, slices_cover by lia. reflexivity.
Qed.

(** X22. The bulk weather call never fails.  For every name other than
    [__proto__] its result has an entry exactly when the name was
    requested, holding what the last call for it returned, and null when
    that call failed.  A requested [__proto__] gets no entry when no name
    is requested twice. *)
Theorem bulk_weather_entries (requests : list request) (team : string) :
  (team <> "__proto__"%string ->
   lookup team (getBulkWeather requests) =
   match lastRequest team requests with
   | Some (_, Returned weather) => Some weather
   | Some (_, Thrown _) => Some None
   | None => None
   end) /\
  (NoDup (map fst requests) ->
   lookup "__proto__" (getBulkWeather requests) = None).
Proof.
  rewrite bulk_record. split.
  - intros Hne. rewrite lookup_assignAll by exact Hne.
    rewrite <- map_rev, find_bulkEntry. unfold lastRequest.
    destruct (find (fun r => String.eqb (fst r) team) (rev requests))
      as [[t [w|m]]|]; reflexivity.
  - intros Hnd. rewrite proto_has_no_entry; [reflexivity | | reflexivity].
    rewrite map_map. rewrite (map_ext _ fst bulkEntry_key). exact Hnd.
Qed.

(* ================================================================== *)
(** ** Whole predictions and their factors *)
(* ================================================================== *)

Lemma found_stats_plausible (teamStats : list TeamStats) (f : TeamStats -> bool) :
  Forall plausible teamStats -> plausibleIfPresent (find f teamStats).
Proof.
  intros Hall. destruct (find f teamStats) as [stats|] eqn:E; [|exact I].
  apply find_some in E. destruct E as [Hin _].
  rewrite Forall_forall in Hall. exact (Hall stats Hin).
Qed.

(** X8. A prediction made when no weather reading is available, from
    plausible statistics and any injuries, has well-defined probabilities:
    the away probability is an integer from 1 to 96, the home probability
    is its complement to 100, and neither side is given 0 or 100. *)
Theorem prediction_without_weather
    (getGameWeather : NFLGame -> string -> option GameWeather) (nowIso : string)
    (game : NFLGame) (teamStats : list TeamStats)
    (injuries : list PlayerInjury) (teams : list NFLTeam) (p : GamePrediction) :
  Forall plausible teamStats ->
  (forall abbr, getGameWeather game abbr = None) ->
  predictGame getGameWeather nowIso game teamStats injuries teams = Returned p ->
  exists n,
    awayWinProbability p = of_Z n /\ 1 <= n <= 96 /\
    eqb (homeWinProbability p) (of_Z (100 - n)) = true /\
    eqb (add (awayWinProbability p) (homeWinProbability p)) (Fin 100) = true.
Proof.
  intros Hall Hw. unfold predictGame.
  destruct (findTeam teams (awayTeamId game)) as [awayTeam|]; [|discriminate].
  destruct (findTeam teams (homeTeamId game)) as [homeTeam|]; [|discriminate].
  rewrite Hw. intros E. injection E as <-.
  cbn [awayWinProbability homeWinProbability].
  apply win_probabilities_without_weather; apply found_stats_plausible;
    exact Hall.
Qed.

Lemma pushIf_keeps (c : bool) (factor x : string) (factors : list string) :
  In x factors -> In x (pushIf c factor factors).
Proof.
  unfold pushIf. destruct c; [|tauto]. intros H. apply in_or_app. now left.
Qed.

Lemma pushEither_keeps (c1 c2 : bool) (f1 f2 x : string) (factors : list string) :
  In x factors -> In x (pushEither c1 f1 c2 f2 factors).
Proof.
  unfold pushEither. destruct c1; [|apply pushIf_keeps].
  intros H. apply in_or_app. now left.
Qed.

Lemma pushIf_true (factor : string) (factors : list string) :
  In factor (pushIf true factor factors).
Proof. unfold pushIf. apply in_or_app. right. now left. Qed.

Lemma pushIf_length (c : bool) (factor : string) (factors : list string) :
  (List.length (pushIf c factor factors) <= S (List.length factors))%nat.
Proof.
  unfold pushIf. destruct c; [|lia]. rewrite length_app. cbn [List.length]. lia.
Qed.

Lemma pushEither_length (c1 c2 : bool) (f1 f2 : string) (factors : list string) :
  (List.length (pushEither c1 f1 c2 f2 factors) <= S (List.length factors))%nat.
Proof.
  unfold pushEither. destruct c1; [|apply pushIf_length].
  rewrite length_app. cbn [List.length]. lia.
Qed.

(** X23. In the factors of a prediction the home team is always credited
    with home field advantage, and in rain or snow the weather factor
    always names the away team: both weather impacts are promises, so the
    comparison that should pick the favoured team is never true. *)
Theorem factors_of_a_prediction
    (awayStats homeStats : option TeamStats)
    (awayInjuries homeInjuries : list PlayerInjury)
    (weather : option GameWeather) (awayTeam homeTeam : NFLTeam) :
  let awayMetrics := calculateTeamMetrics awayStats awayInjuries weather false in
  let homeMetrics := calculateTeamMetrics homeStats homeInjuries weather true in
  let factors :=
    generateFactors awayMetrics homeMetrics weather awayTeam homeTeam in
  In (team_name homeTeam ++ " benefits from home field advantage")%string factors /\
  forall w, weather = Some w ->
    conditions w = "Rain"%string \/ conditions w = "Snow"%string ->
    In ("Weather conditions may favor " ++ team_name awayTeam)%string factors.
Proof.
  cbv zeta. split.
  - unfold generateFactors. cbv zeta. apply pushEither_keeps.
    replace (gtb (homeFieldAdvantage
                    (calculateTeamMetrics homeStats homeInjuries weather true))
                 (Fin 0)) with true by reflexivity.
    apply pushIf_true.
  - intros w -> Hc. unfold generateFactors. cbv zeta.
    apply pushEither_keeps, pushIf_keeps, pushIf_keeps.
    replace (String.eqb (conditions w) "Rain" || String.eqb (conditions w) "Snow")
      with true.
    + cbn [calculateTeamMetrics weatherImpact calculateWeatherImpact value_gtb].
      apply pushIf_true.
    + destruct Hc as [-> | ->]; reflexivity.
Qed.

(** X24. A prediction lists at most eight factors, and at most six when
    there is no weather reading. *)
Theorem factors_are_few (awayMetrics homeMetrics : PredictionMetrics)
    (weather : option GameWeather) (awayTeam homeTeam : NFLTeam) :
  let factors :=
    generateFactors awayMetrics homeMetrics weather awayTeam homeTeam in
  (List.length factors <= 8)%nat /\
  (weather = None -> (List.length factors <= 6)%nat).
Proof.
  cbv zeta. unfold generateFactors. cbv zeta.
  split; [destruct weather as [w|] | intros ->];
    repeat (eapply Nat.le_trans;
            [first [apply pushEither_length | apply pushIf_length]|];
            apply le_n_S);
    cbn [List.length]; lia.
Qed.

(* ================================================================== *)
(** ** Instances of the theorems above *)
(* ================================================================== *)

Lemma demo_prefix_reachable :
  reachable openWeather_rateLimit openWeather_spacing
    (stateAfter openWeather_rateLimit openWeather_spacing (firstn 3 demoTrace)).
Proof. exists 0, (firstn 3 demoTrace). vm_compute. reflexivity. Defined.

Lemma starts_are_spaced_witness :
  ForallOrdPairs (apart openWeather_spacing)
    (started (stateAfter openWeather_rateLimit openWeather_spacing demoTrace)).
Proof.
  apply (starts_are_spaced nat openWeather_rateLimit openWeather_spacing
           (stateAfter openWeather_rateLimit openWeather_spacing demoTrace)).
  - unfold openWeather_spacing. lia.
  - exact demo_trace_reachable.
Defined.

Lemma sliding_interval_bound_witness :
  Z.of_nat (List.length
    (filter (inInterval 100)
       (started (stateAfter openWeather_rateLimit openWeather_spacing demoTrace))))
  <= 2 * openWeather_rateLimit.
Proof.
  apply (sliding_interval_bound nat openWeather_rateLimit openWeather_spacing
           (stateAfter openWeather_rateLimit openWeather_spacing demoTrace) 100).
  - unfold openWeather_rateLimit. lia.
  - exact demo_trace_reachable.
Defined.

Lemma queue_can_drain_witness :
  let s := stateAfter openWeather_rateLimit openWeather_spacing
             (firstn 3 demoTrace) in
  exists trace s',
    run openWeather_rateLimit openWeather_spacing trace s = Some s' /\
    drained s' /\ map startedUnit (started s') = submitted s.
Proof.
  exact (queue_can_drain nat openWeather_rateLimit openWeather_spacing
           (stateAfter openWeather_rateLimit openWeather_spacing
              (firstn 3 demoTrace))
           demo_prefix_reachable).
Defined.

Lemma queued_unit_has_drain_witness :
  let s := stateAfter openWeather_rateLimit openWeather_spacing
             (firstn 3 demoTrace) in
  rateLimitQueue s <> [] /\
  isProcessingQueue s = true /\ exists p, drains s = [p].
Proof.
  assert (Hq : rateLimitQueue
                 (stateAfter openWeather_rateLimit openWeather_spacing
                    (firstn 3 demoTrace)) <> [])
    by (vm_compute; discriminate).
  split; [exact Hq|].
  exact (queued_unit_has_drain nat openWeather_rateLimit openWeather_spacing
           (stateAfter openWeather_rateLimit openWeather_spacing
              (firstn 3 demoTrace))
           demo_prefix_reachable Hq).
Defined.

Lemma scenario_plausible :
  plausibleIfPresent (Some scenarioAway) /\ plausibleIfPresent (Some scenarioHome).
Proof.
  split; cbn [plausibleIfPresent]; unfold plausible, nonnegative, percentage;
    cbn; repeat split; try reflexivity; unfold Qle; cbn; lia.
Defined.

Lemma subscores_in_range_witness :
  integerWithin 0 100 (calculateTeamStrength (Some scenarioAway)) /\
  integerWithin 0 100 (calculateOffensivePower (Some scenarioAway)) /\
  integerWithin 0 100 (calculateDefensivePower (Some scenarioAway)) /\
  integerWithin 0 100 (calculateScheduleStrength (Some scenarioAway)).
Proof.
  exact (subscores_in_range (Some scenarioAway) (proj1 scenario_plausible)).
Defined.

Lemma recommendation_by_away_probability_witness :
  determineConfidence (of_Z 70) (sub (Fin 100) (of_Z 70)) = high /\
  determineRecommendation (of_Z 70) (sub (Fin 100) (of_Z 70)) high = away.
Proof.
  destruct (recommendation_by_away_probability 70) as [Hh [_ [_ Hr]]].
  assert (Hc : determineConfidence (of_Z 70) (sub (Fin 100) (of_Z 70)) = high)
    by (apply Hh; right; lia).
  split; [exact Hc|]. rewrite Hc in Hr. exact Hr.
Defined.

Lemma client_injuries_are_unweighted_witness :
  Forall (fun i => injuryWeight i = 1) (map toPlayerInjury rawInjuries) /\
  calculateInjuryImpact (map toPlayerInjury rawInjuries)
  = round (Fin (plainAverage (map toPlayerInjury rawInjuries))).
Proof.
  apply (client_injuries_are_unweighted rawInjuries). discriminate.
Defined.

Lemma statistics_without_games_are_neutral_witness :
  let stats := Some (toTeamStats rawStatsWithoutGames) in
  calculateTeamStrength stats = Fin 50 /\
  calculateOffensivePower stats = Fin 50 /\
  calculateDefensivePower stats = Fin 50 /\
  calculateScheduleStrength stats = Fin 50 /\
  calculateMomentum stats = Fin 50.
Proof.
  apply (statistics_without_games_are_neutral rawStatsWithoutGames).
  simpl. exact I.
Defined.

Lemma wind_direction_defined_witness :
  exists name,
    getWindDirection (of_Z 225) = Some name /\
    In name directions /\
    getWindDirection (of_Z (225 + 360)) = Some name.
Proof. apply (wind_direction_defined 225). lia. Defined.

Lemma wind_direction_undefined_witness :
  getWindDirection (of_Z (-90)) = None.
Proof. apply (wind_direction_undefined (-90)). lia. Defined.

Lemma forecast_of_unparsable_date_witness :
  exists k,
    getForecast "KC" NaN 0 "" = Fetch "/forecast" 39.0997 (-94.5786) k /\
    (forall body, k (HttpData body) = Returned None) /\
    (forall message, k (HttpFailure message) = Thrown message).
Proof.
  apply (forecast_of_unparsable_date "KC" 0 "" 39.0997 (-94.5786)).
  reflexivity.
Defined.

Lemma forecast_horizon_witness :
  getForecast "KC" (of_Z 432000001) 0 "" = Done None /\
  getForecast "constructor" (of_Z 432000000) 0 ""
  = FetchUnplaced "/forecast" (forecastOfResponse "" (of_Z 432000000)).
Proof.
  split.
  - apply (proj2 (proj1 (forecast_horizon "KC" 432000001 0 ""))). right. lia.
  - apply (proj2 (forecast_horizon "constructor" 432000000 0 ""));
      [reflexivity | lia].
Defined.

Lemma season_by_month_witness :
  fst (getCurrentSeason 2025 7) = 2025 /\
  (snd (getCurrentSeason 2025 7) = 2 <-> 7 <= 2 \/ 9 <= 7) /\
  (snd (getCurrentSeason 2025 7) = 1 <-> 3 <= 7 <= 5) /\
  (snd (getCurrentSeason 2025 7) = 3 <-> 6 <= 7 <= 8).
Proof. apply (season_by_month 2025 7). lia. Defined.

Lemma collection_week_witness :
  fst (fst (collectionPeriod (Some 5) None (Some 2) 2025 10)) = 18.
Proof.
  destruct (collection_week (Some 5) None (Some 2) 2025 10) as [_ [H _]].
  apply H; reflexivity.
Defined.

Lemma sample_stats_plausible : Forall plausible [billsStats; chiefsStats].
Proof.
  repeat constructor; unfold plausible, nonnegative, percentage; cbn;
    repeat split; try reflexivity; unfold Qle; cbn; lia.
Defined.

Lemma prediction_without_weather_witness :
  exists p n,
    predictGame (fun _ _ => None) "" gameBillsAtChiefs [billsStats; chiefsStats]
      [] [chiefs; bills] = Returned p /\
    awayWinProbability p = of_Z n /\ 1 <= n <= 96 /\
    eqb (homeWinProbability p) (of_Z (100 - n)) = true /\
    eqb (add (awayWinProbability p) (homeWinProbability p)) (Fin 100) = true.
Proof.
  assert (E : exists p,
             predictGame (fun _ _ => None) "" gameBillsAtChiefs
               [billsStats; chiefsStats] [] [chiefs; bills] = Returned p)
    by (eexists; reflexivity).
  destruct E as [p E]. exists p.
  destruct (prediction_without_weather (fun _ _ => None) "" gameBillsAtChiefs
              [billsStats; chiefsStats] [] [chiefs; bills] p
              sample_stats_plausible (fun _ => eq_refl) E) as [n H].
  exists n. split; [exact E | exact H].
Defined.

Lemma factors_of_a_prediction_witness :
  In "Weather conditions may favor Bills"%string
    (generateFactors
       (calculateTeamMetrics (Some billsStats) [] (Some rainReading) false)
       (calculateTeamMetrics (Some chiefsStats) [] (Some rainReading) true)
       (Some rainReading) bills chiefs).
Proof.
  destruct (factors_of_a_prediction (Some billsStats) (Some chiefsStats) [] []
              (Some rainReading) bills chiefs) as [_ H].
  apply (H rainReading); [reflexivity | left; reflexivity].
Defined.

Lemma factors_are_few_witness :
  (List.length
     (generateFactors
        (calculateTeamMetrics (Some billsStats) [] None false)
        (calculateTeamMetrics (Some chiefsStats) [] None true)
        None bills chiefs) <= 6)%nat.
Proof.
  destruct (factors_are_few
              (calculateTeamMetrics (Some billsStats) [] None false)
              (calculateTeamMetrics (Some chiefsStats) [] None true)
              None bills chiefs) as [_ H].
  apply H. reflexivity.
Defined.

Lemma bulk_weather_entries_witness :
  lookup "KC"
    (getBulkWeather [("KC"%string, Returned (Some mildReading));
                     ("KC"%string, Thrown "timeout")]) = Some None /\
  lookup "__proto__"
    (getBulkWeather [("__proto__"%string, Returned None);
                     ("KC"%string, Returned None)]) = None.
Proof.
  split.
  - apply (proj1 (bulk_weather_entries
                    [("KC"%string, Returned (Some mildReading));
                     ("KC"%string, Thrown "timeout")] "KC")).
    discriminate.
  - apply (proj2 (bulk_weather_entries
                    [("__proto__"%string, Returned None);
                     ("KC"%string, Returned None)] "KC")).
    repeat constructor; simpl; intuition discriminate.
Defined.
